(** * BoTorch tutorials and release workflows: a verification development

    The repository's own logic is thin glue: GitHub Actions workflows
    (job ordering by [needs], [if] gates, a few lines of shell) and tutorial
    notebooks that sequence calls into the modelling library.  This file
    embeds that glue and proves the properties the design notes state. *)

From Stdlib Require Import String Ascii List Bool Arith ZArith QArith Qcanon Lia.
From stdpp Require Import base option list gmap strings.

Open Scope string_scope.

(** ** Shell text utilities used by the workflow scripts *)

Module Shell.

(** [cut -d D]: the fields of a line, separated by the one-character
    delimiter [d].  A line without the delimiter is a single field. *)
Fixpoint fields (d : ascii) (s : string) : list string :=
  match s with
  | EmptyString => [EmptyString]
  | String c s' =>
      if Ascii.eqb c d then EmptyString :: fields d s'
      else match fields d s' with
           | [] => [String c EmptyString]
           | w :: ws => String c w :: ws
           end
  end.

(** [cut -d '.' -f 1-2 <<< s]: the first two dot-separated fields of the
    line, joined again by the delimiter. *)
Definition cut_f1_2 (s : string) : string :=
  String.concat "." (take 2 (fields "." s)).

(** [${x#v}]: remove the shortest leading match of the pattern [v]. *)
Definition strip_v (s : string) : string :=
  match s with
  | String "v" s' => s'
  | _ => s
  end.

(** The reduction both workflows apply to a tag: patch number removed, then
    the optional "v" prefix removed. *)
Definition major_minor (tag : string) : string := strip_v (cut_f1_2 tag).

(** [String.prefix]-style test, as used by glob patterns of the form [lit*]. *)
Fixpoint starts_with (p s : string) : bool :=
  match p, s with
  | EmptyString, _ => true
  | String a p', String b s' => Ascii.eqb a b && starts_with p' s'
  | String _ _, EmptyString => false
  end.

(** The string without its first [n] characters. *)
Fixpoint skip (n : nat) (s : string) : string :=
  match n, s with
  | O, _ => s
  | S n', String _ s' => skip n' s'
  | S _, EmptyString => EmptyString
  end.

(** [sed 's/^p//']: drop the prefix [p] when the line starts with it. *)
Definition drop_prefix (p s : string) : string :=
  if starts_with p s then skip (String.length p) s else s.

(** Substring test ([grep -F]-style), used to classify script lines. *)
Fixpoint contains (p s : string) : bool :=
  starts_with p s ||
  match s with
  | EmptyString => false
  | String _ s' => contains p s'
  end.

(** The double-quote character, for script text. *)
Definition dq : string := String (ascii_of_nat 34) EmptyString.

(** No character of the string is a dot. *)
Fixpoint dotless (s : string) : bool :=
  match s with
  | EmptyString => true
  | String c s' => negb (Ascii.eqb c ".") && dotless s'
  end.

(** A text the shell reads as it stands when it is written into a script:
    letters, digits and the characters [.], [-], [_] and [+], none of which
    the shell expands, splits at, quotes with or reads as a pattern. *)
Definition plain_char (c : ascii) : bool :=
  let n := nat_of_ascii c in
  ((48 <=? n)%nat && (n <=? 57)%nat) || ((65 <=? n)%nat && (n <=? 90)%nat)
  || ((97 <=? n)%nat && (n <=? 122)%nat)
  || Ascii.eqb c "." || Ascii.eqb c "-" || Ascii.eqb c "_" || Ascii.eqb c "+".

Fixpoint plain_text (s : string) : bool :=
  match s with
  | EmptyString => true
  | String c s' => plain_char c && plain_text s'
  end.

End Shell.

Module Glob.

(** Pattern matching as bash does it in pathname expansion: the word is read
    from left to right against the name, [?] standing for any character,
    [*] for any text and [[...]] for a bracket expression; characters are
    bytes, compared by their code.  A backslash in the pattern is outside
    this model. *)

(** [*p]: the character the pattern stands at, if any. *)
Definition peek (p : string) : option ascii :=
  match p with
  | EmptyString => None
  | String c _ => Some c
  end.

(** [p + 1]. *)
Definition advance (p : string) : string :=
  match p with
  | EmptyString => EmptyString
  | String _ p' => p'
  end.

Definition is_char (a : ascii) (c : option ascii) : bool :=
  match c with
  | Some x => Ascii.eqb x a
  | None => false
  end.

Definition between (lo hi n : nat) : bool := (lo <=? n)%nat && (n <=? hi)%nat.

(** The character classes of the POSIX locale; a name that is no class
    matches nothing. *)
Definition in_class (name : string) (c : ascii) : bool :=
  let n := nat_of_ascii c in
  let upper := between 65 90 n in
  let lower := between 97 122 n in
  let digit := between 48 57 n in
  let punct := between 33 47 n || between 58 64 n || between 91 96 n || between 123 126 n in
  if String.eqb name "alnum" then upper || lower || digit
  else if String.eqb name "alpha" then upper || lower
  else if String.eqb name "ascii" then (n <=? 127)%nat
  else if String.eqb name "blank" then (n =? 32)%nat || (n =? 9)%nat
  else if String.eqb name "cntrl" then (n <=? 31)%nat || (n =? 127)%nat
  else if String.eqb name "digit" then digit
  else if String.eqb name "graph" then between 33 126 n
  else if String.eqb name "lower" then lower
  else if String.eqb name "print" then between 32 126 n
  else if String.eqb name "punct" then punct
  else if String.eqb name "space" then (n =? 32)%nat || between 9 13 n
  else if String.eqb name "upper" then upper
  else if String.eqb name "word" then upper || lower || digit || (n =? 95)%nat
  else if String.eqb name "xdigit" then digit || between 65 70 n || between 97 102 n
  else false.

(** The text up to the first [x]] (for [x] the colon of a class or the dot
    of a collating symbol), and the pattern after it. *)
Fixpoint until_close (x : ascii) (p : string) : option (string * string) :=
  match p with
  | EmptyString => None
  | String c p' =>
      if Ascii.eqb c x && is_char "]" (peek p') then Some (EmptyString, advance p')
      else match until_close x p' with
           | Some (name, rest) => Some (String c name, rest)
           | None => None
           end
  end.

(** The names of the collating symbols, with the code of the character
    each one stands for. *)
Definition collating_names : list (string * nat) :=
  [("NUL", 0); ("SOH", 1); ("STX", 2); ("ETX", 3); ("EOT", 4); ("ENQ", 5); ("ACK", 6);
   ("alert", 7); ("BS", 8); ("backspace", 8); ("HT", 9); ("tab", 9); ("LF", 10);
   ("newline", 10); ("VT", 11); ("vertical-tab", 11); ("FF", 12); ("form-feed", 12);
   ("CR", 13); ("carriage-return", 13); ("SO", 14); ("SI", 15); ("DLE", 16); ("DC1", 17);
   ("DC2", 18); ("DC3", 19); ("DC4", 20); ("NAK", 21); ("SYN", 22); ("ETB", 23);
   ("CAN", 24); ("EM", 25); ("SUB", 26); ("ESC", 27); ("IS4", 28); ("FS", 28);
   ("IS3", 29); ("GS", 29); ("IS2", 30); ("RS", 30); ("IS1", 31); ("US", 31);
   ("space", 32); ("exclamation-mark", 33); ("quotation-mark", 34); ("number-sign", 35);
   ("dollar-sign", 36); ("percent-sign", 37); ("ampersand", 38); ("apostrophe", 39);
   ("left-parenthesis", 40); ("right-parenthesis", 41); ("asterisk", 42);
   ("plus-sign", 43); ("comma", 44); ("hyphen", 45); ("hyphen-minus", 45); ("minus", 45);
   ("dash", 45); ("period", 46); ("full-stop", 46); ("slash", 47); ("solidus", 47);
   ("zero", 48); ("one", 49); ("two", 50); ("three", 51); ("four", 52); ("five", 53);
   ("six", 54); ("seven", 55); ("eight", 56); ("nine", 57); ("colon", 58);
   ("semicolon", 59); ("less-than-sign", 60); ("equals-sign", 61);
   ("greater-than-sign", 62); ("question-mark", 63); ("commercial-at", 64);
   ("left-square-bracket", 91); ("backslash", 92); ("reverse-solidus", 92);
   ("right-square-bracket", 93); ("circumflex", 94); ("circumflex-accent", 94);
   ("underscore", 95); ("grave-accent", 96); ("left-brace", 123);
   ("left-curly-bracket", 123); ("vertical-line", 124); ("right-brace", 125);
   ("right-curly-bracket", 125); ("tilde", 126); ("DEL", 127)].

Fixpoint collating_code (name : string) (table : list (string * nat)) : option ascii :=
  match table with
  | [] => match name with
          | String x EmptyString => Some x
          | _ => None
          end
  | (n, code) :: table' =>
      if String.eqb n name then Some (ascii_of_nat code) else collating_code name table'
  end.

(** A collating symbol [[.name.]]: the character it names, if any, and the
    pattern after it; without a closing [.]] the pattern is used up. *)
Definition collating_symbol (p1 : string) : option ascii * string :=
  match until_close "." p1 with
  | Some (name, rest) => (collating_code name collating_names, rest)
  | None => (None, EmptyString)
  end.

Inductive scan_result :=
| Unmatched (rest : string)   (* the closing bracket was reached; [rest] follows it *)
| Matched (at_ : string)      (* the character is in the set; [at_] follows the item *)
| Unclosed                    (* the pattern ended inside the brackets *)
| Failed.

Definition code_le (a b : ascii) : bool := (nat_of_ascii a <=? nat_of_ascii b)%nat.

(** The items of a bracket expression, one after the other, against the
    character [test]: [c] is the character an item starts with and [p] the
    pattern after it. *)
Fixpoint scan (fuel : nat) (c : option ascii) (p : string) (test : ascii) : scan_result :=
  match fuel with
  | O => Unclosed
  | S fuel' =>
      let continue_with (p : string) (closes : bool) : scan_result :=
        match p with
        | EmptyString => Unclosed
        | String c' p' =>
            if closes && Ascii.eqb c' "]" then Unmatched p' else scan fuel' (Some c') p' test
        end in
      let item (cstart : option ascii) (p : string) : scan_result :=
        match c with
        | None => Unclosed
        | Some _ =>
            match p with
            | EmptyString => Unclosed
            | String c2 p2 =>
                if Ascii.eqb c2 "-" && negb (is_char "]" (peek p2)) then
                  match p2 with
                  | EmptyString => Failed
                  | String e p3 =>
                      let '(cend, p3) :=
                        if Ascii.eqb e "[" && is_char "." (peek p3)
                        then collating_symbol (advance p3) else (Some e, p3) in
                      let in_range :=
                        match cstart, cend with
                        | Some lo, Some hi => code_le lo test && code_le test hi
                        | _, _ => false
                        end in
                      if in_range then Matched p3
                      else match p3 with
                           | EmptyString => Unclosed
                           | String c3 p4 =>
                               if Ascii.eqb c3 "]" then Unmatched p4
                               else scan fuel' (Some c3) p4 test
                           end
                  end
                else if is_char test cstart then Matched p
                else if Ascii.eqb c2 "]" then Unmatched p2
                else scan fuel' (Some c2) p2 test
            end
        end in
      match c, p with
      | Some "["%char, String "="%char (String x (String "="%char (String "]"%char p4))) =>
          if Ascii.eqb x test then Matched p4 else continue_with p4 false
      | Some "["%char, String ":"%char p1 =>
          match until_close ":" p1 with
          | Some (name, rest) => if in_class name test then Matched rest else continue_with rest true
          | None => scan fuel' (Some ":"%char) p1 test
          end
      | Some "["%char, String "."%char p1 =>
          let '(cstart, rest) := collating_symbol p1 in item cstart rest
      | _, _ => item c p
      end
  end.

(** After a match: the rest of the bracket expression is passed over, up to
    its closing bracket.  [c] is the character read last and [brchr],
    once a class, an equivalence class or a collating symbol was opened,
    the character after its opening bracket. *)
Fixpoint skip_rest (fuel : nat) (p : string) (c : option ascii) (brchr : option ascii)
    : option string :=
  match fuel, c with
  | O, _ => None
  | _, None => None
  | S fuel', Some oc =>
      match p with
      | EmptyString => None
      | String c1 p1 =>
          if Ascii.eqb c1 "["
             && (is_char "=" (peek p1) || is_char ":" (peek p1) || is_char "." (peek p1))
          then match advance p1 with
               | EmptyString => None
               | String c2 _ as p2 => skip_rest fuel' p2 (Some c2) (peek p1)
               end
          else if Ascii.eqb c1 "]" && is_char oc brchr
          then skip_rest fuel' p1 (Some c1) None
          else if Ascii.eqb c1 "]" && negb (is_char "." brchr)
          then Some p1
          else skip_rest fuel' p1 (Some c1) brchr
      end
  end.

(** A bracket expression against [test]; [p] is the pattern after the
    opening bracket.  [Some rest]: the character is accepted and the pattern
    goes on with [rest]. *)
Definition bracket (p : string) (test : ascii) : option string :=
  let fuel := S (String.length p) in
  let negated := is_char "!" (peek p) || is_char "^" (peek p) in
  let q := if negated then advance p else p in
  let literally := if Ascii.eqb test "[" then Some p else None in
  match scan fuel (peek q) (advance q) test with
  | Unmatched rest => if negated then Some rest else None
  | Matched at_ =>
      match skip_rest fuel at_ (peek at_) None with
      | Some rest => if negated then None else Some rest
      | None => literally
      end
  | Unclosed => literally
  | Failed => None
  end.

(** The pattern against a name: [?] is any character, [*] any text, [[...]]
    a bracket expression, and every other character itself. *)
Fixpoint gmatch (fuel : nat) (p s : string) : bool :=
  match p with
  | EmptyString => match s with EmptyString => true | _ => false end
  | String c p' =>
      match fuel with
      | O => false
      | S fuel' =>
          if Ascii.eqb c "*" then
            (fix star (s : string) : bool :=
               gmatch fuel' p' s ||
               match s with
               | EmptyString => false
               | String _ s' => star s'
               end) s
          else
            match s with
            | EmptyString => false
            | String d s' =>
                if Ascii.eqb c "?" then gmatch fuel' p' s'
                else if Ascii.eqb c "[" then
                  match bracket p' d with
                  | Some rest => gmatch fuel' rest s'
                  | None => false
                  end
                else Ascii.eqb c d && gmatch fuel' p' s'
            end
      end
  end.

Definition glob_match (pattern name : string) : bool :=
  gmatch (String.length pattern) pattern name.



End Glob.

(** ** GitHub Actions: expressions, jobs and the platform's scheduling rule *)

Module Actions.

(** Values of the expression language. *)
Inductive value :=
| VNull
| VBool (b : bool)
| VStr (s : string).

(** Truthiness: [false], [null] and the empty string are falsy. *)
Definition truthy (v : value) : bool :=
  match v with
  | VNull => false
  | VBool b => b
  | VStr s => negb (String.eqb s "")
  end.

(** The expressions that occur in the workflows' [if:] fields. *)
Inductive expr :=
| EInput (name : string)                (* inputs.<name> *)
| ENeedsOutput (job output : string)    (* needs.<job>.outputs.<output> *)
| ELit (s : string)                     (* '<s>' *)
| ENot (e : expr)                       (* !e *)
| EAnd (e1 e2 : expr)                   (* e1 && e2 *)
| EEq (e1 e2 : expr).                   (* e1 == e2 *)

Definition lower_ascii (c : ascii) : ascii :=
  let n := nat_of_ascii c in
  if (65 <=? n)%nat && (n <=? 90)%nat then ascii_of_nat (n + 32) else c.

Fixpoint lower (s : string) : string :=
  match s with
  | EmptyString => EmptyString
  | String c s' => String (lower_ascii c) (lower s')
  end.

Definition digit_of (c : ascii) : option Z :=
  let n := nat_of_ascii c in
  if (48 <=? n)%nat && (n <=? 57)%nat then Some (Z.of_nat (n - 48)) else None.

Fixpoint parse_digits (acc : Z) (s : string) : option Z :=
  match s with
  | EmptyString => Some acc
  | String c s' =>
      match digit_of c with
      | Some d => parse_digits (10 * acc + d) s'
      | None => None
      end
  end.

(** Coercion to a number for [==] on operands of different types: [null] is
    0, booleans are 0 and 1, the empty string is 0, a decimal numeral is its
    value, and any other text is not a number ([None]). *)
Definition to_number (v : value) : option Z :=
  match v with
  | VNull => Some 0%Z
  | VBool b => Some (if b then 1 else 0)%Z
  | VStr s => parse_digits 0 s
  end.

(** [==]: loose equality; strings compare ignoring case. *)
Definition loose_eq (a b : value) : bool :=
  match a, b with
  | VStr x, VStr y => String.eqb (lower x) (lower y)
  | VBool x, VBool y => Bool.eqb x y
  | VNull, VNull => true
  | _, _ =>
      match to_number a, to_number b with
      | Some x, Some y => Z.eqb x y
      | _, _ => false
      end
  end.

(** What an expression can read: the workflow inputs, and the outputs of
    the jobs named in the job's [needs]. *)
Record context := {
  ctx_inputs : gmap string value;
  ctx_needs : list string;
  ctx_outputs : gmap (string * string) string
}.

Fixpoint eval (ctx : context) (e : expr) : value :=
  match e with
  | EInput n => default VNull (ctx_inputs ctx !! n)
  | ENeedsOutput j o =>
      if bool_decide (j ∈ ctx_needs ctx)
      then from_option VStr VNull (ctx_outputs ctx !! (j, o))
      else VNull
  | ELit s => VStr s
  | ENot e1 => VBool (negb (truthy (eval ctx e1)))
  | EAnd e1 e2 => let v := eval ctx e1 in if truthy v then eval ctx e2 else v
  | EEq e1 e2 => VBool (loose_eq (eval ctx e1) (eval ctx e2))
  end.

(** An absent [if:] is [true]. *)
Definition cond_holds (ctx : context) (c : option expr) : bool :=
  match c with
  | None => true
  | Some e => truthy (eval ctx e)
  end.

Inductive action :=
| Run (script : list string)
| Uses (ref : string).

Record step := {
  step_id : string;
  step_name : string;
  step_if : option expr;
  step_action : action;
  step_continue_on_error : bool
}.

Inductive body :=
| Steps (ss : list step)
| Reusable (path : string).

(** [job_outputs]: output name, then the step id and step output it reads. *)
Record job := {
  job_id : string;
  job_needs : list string;
  job_if : option expr;
  job_outputs : list (string * (string * string));
  job_body : body
}.

Record workflow := {
  wf_name : string;
  wf_jobs : list job
}.

Inductive conclusion := Success | Failure | Skipped.

#[global] Instance conclusion_eq_dec : EqDecision conclusion.
Proof. solve_decision. Defined.

(** What lies outside the workflow file: whether a step's command or action
    succeeds and which outputs it writes, and whether a called workflow
    succeeds. *)
Record step_result := {
  sr_ok : bool;
  sr_outputs : list (string * string)
}.

Record runner := {
  exec_step : string -> nat -> step_result;
  exec_call : string -> bool
}.

Inductive event :=
| StepRun (job : string) (name : string) (ok : bool)
| JobDone (job : string) (c : conclusion).

#[global] Instance event_eq_dec : EqDecision event.
Proof. solve_decision. Defined.

Definition step_outputs (s : step) (res : step_result) : list ((string * string) * string) :=
  map (fun kv => ((step_id s, fst kv), snd kv)) (sr_outputs res).

(** The steps of a job run in order.  A step runs when no earlier step has
    failed (the status check [success()] that every [if:] without a status
    function carries) and its [if:] holds.  A failing step fails the job
    unless it is marked continue-on-error. *)
Fixpoint run_steps (r : runner) (ctx : context) (j : string) (idx : nat)
    (ss : list step) : list event * bool * list ((string * string) * string) :=
  match ss with
  | [] => ([], true, [])
  | s :: rest =>
      if cond_holds ctx (step_if s) then
        let res := exec_step r j idx in
        if sr_ok res || step_continue_on_error s then
          let '(tr, ok, outs) := run_steps r ctx j (S idx) rest in
          (StepRun j (step_name s) (sr_ok res) :: tr, ok, (step_outputs s res ++ outs)%list)
        else ([StepRun j (step_name s) false], false, step_outputs s res)
      else run_steps r ctx j (S idx) rest
  end.

Record run_state := {
  results : gmap string conclusion;
  outputs : gmap (string * string) string;
  trace : list event
}.

Definition init_state : run_state :=
  {| results := ∅; outputs := ∅; trace := [] |}.

Definition lookup_assoc (k : string * string) (l : list ((string * string) * string)) : string :=
  match list_find (fun kv => fst kv = k) l with
  | Some (_, kv) => snd kv
  | None => ""
  end.

(** The outputs a job declares, read from its steps' outputs; an output no
    step has set is the empty string. *)
Definition declared_outputs (j : job) (outs : list ((string * string) * string))
    (m : gmap (string * string) string) : gmap (string * string) string :=
  foldr (fun d acc => <[(job_id j, fst d) := lookup_assoc (snd d) outs]> acc) m (job_outputs j).

Definition needs_succeeded (st : run_state) (j : job) : bool :=
  forallb (fun n => bool_decide (results st !! n = Some Success)) (job_needs j).

(** A job runs when all the jobs it needs have succeeded and its [if:]
    holds; otherwise it is skipped. *)
Definition run_job (r : runner) (inputs : gmap string value) (st : run_state) (j : job) : run_state :=
  let ctx := {| ctx_inputs := inputs; ctx_needs := job_needs j; ctx_outputs := outputs st |} in
  if needs_succeeded st j && cond_holds ctx (job_if j) then
    match job_body j with
    | Steps ss =>
        let '(tr, ok, outs) := run_steps r ctx (job_id j) 0 ss in
        let c := if ok then Success else Failure in
        {| results := <[job_id j := c]> (results st);
           outputs := declared_outputs j outs (outputs st);
           trace := (trace st ++ tr ++ [JobDone (job_id j) c])%list |}
    | Reusable _ =>
        let c := if exec_call r (job_id j) then Success else Failure in
        {| results := <[job_id j := c]> (results st);
           outputs := outputs st;
           trace := (trace st ++ [JobDone (job_id j) c])%list |}
    end
  else
    {| results := <[job_id j := Skipped]> (results st);
       outputs := outputs st;
       trace := (trace st ++ [JobDone (job_id j) Skipped])%list |}.

Definition run_jobs (r : runner) (inputs : gmap string value) (js : list job) (st : run_state) : run_state :=
  fold_left (run_job r inputs) js st.

Definition run_workflow (r : runner) (inputs : gmap string value) (wf : workflow) : run_state :=
  run_jobs r inputs (wf_jobs wf) init_state.

Definition ran (st : run_state) (j : string) : Prop :=
  results st !! j = Some Success \/ results st !! j = Some Failure.

(** Jobs are listed after the jobs they need, and ids are not reused. *)
Fixpoint well_ordered (seen : list string) (js : list job) : bool :=
  match js with
  | [] => true
  | j :: rest =>
      forallb (fun n => bool_decide (n ∈ seen)) (job_needs j)
      && bool_decide (job_id j ∉ seen)
      && well_ordered (job_id j :: seen) rest
  end.

(** [depends wf a b]: job [a] needs [b], directly or through other jobs. *)
Inductive depends (wf : workflow) : string -> string -> Prop :=
| depends_direct j b : j ∈ wf_jobs wf -> b ∈ job_needs j -> depends wf (job_id j) b
| depends_trans j m b : j ∈ wf_jobs wf -> m ∈ job_needs j -> depends wf m b -> depends wf (job_id j) b.

Definition steps_of (j : job) : list step :=
  match job_body j with
  | Steps ss => ss
  | Reusable _ => []
  end.

(** No step of the list is marked continue-on-error. *)
Definition strict (ss : list step) : Prop :=
  forall s, s ∈ ss -> step_continue_on_error s = false.

(** Every success on record has been reported in the trace. *)
Definition consistent (st : run_state) : Prop :=
  forall n, results st !! n = Some Success -> JobDone n Success ∈ trace st.

End Actions.

(** ** The two workflow files *)

Module Workflows.
Import Shell Actions.

Definition plain_step (name : string) (a : action) : step :=
  {| step_id := ""; step_name := name; step_if := None; step_action := a;
     step_continue_on_error := false |}.

(** The script of the step [compare] of the job [check-versions]. *)
Definition compare_script_text : list string :=
  [ "git fetch --tags --force";
    "previous_version=$(git describe --tags --abbrev=0 ${{ github.event.release.tag_name }}^)";
    "prev=$(cut -d '.' -f 1-2 <<< $previous_version) # remove patch number";
    "prev=${prev#v}                                  # remove optional " ++ dq ++ "v" ++ dq ++ " prefix";
    "next=$(cut -d '.' -f 1-2 <<< ${{ github.event.release.tag_name }})";
    "next=${next#v}";
    "";
    "echo " ++ dq ++ "Updating from version $previous_version to ${{ github.event.release.tag_name }}" ++ dq;
    "if [[ " ++ dq ++ "$prev" ++ dq ++ " == " ++ dq ++ "$next" ++ dq ++ " ]]; then";
    "  echo " ++ dq ++ "::warning::Major/Minor version was not changed. Skipping website & docs generation step." ++ dq;
    "else";
    "  echo major_minor_changed=true >> $GITHUB_OUTPUT";
    "fi" ].

(** Deploy On Release. *)
Definition tests_and_coverage : job :=
  {| job_id := "tests-and-coverage"; job_needs := []; job_if := None; job_outputs := [];
     job_body := Reusable "./.github/workflows/reusable_test.yml" |}.

Definition package_deploy_pypi : job :=
  {| job_id := "package-deploy-pypi"; job_needs := ["tests-and-coverage"]; job_if := None;
     job_outputs := [];
     job_body := Steps
       [ plain_step "actions/checkout@v4" (Uses "actions/checkout@v4");
         plain_step "Install uv" (Uses "astral-sh/setup-uv@v5");
         plain_step "Fetch all history for all tags and branches"
           (Run ["git fetch --prune --unshallow"]);
         plain_step "Set up Python" (Uses "actions/setup-python@v5");
         plain_step "Install dependencies"
           (Run ["uv pip install .[test]";
                 "uv pip install --upgrade build setuptools setuptools_scm wheel"]);
         plain_step "Build packages (wheel and source distribution)"
           (Run ["python -m build --sdist --wheel"]);
         plain_step "Verify packages" (Run ["./scripts/verify_py_packages.sh"]);
         plain_step "Deploy to PyPI" (Uses "pypa/gh-action-pypi-publish@release/v1") ] |}.

Definition check_versions : job :=
  {| job_id := "check-versions"; job_needs := ["package-deploy-pypi"]; job_if := None;
     job_outputs := [("major_minor_changed", ("compare", "major_minor_changed"))];
     job_body := Steps
       [ plain_step "actions/checkout@v4" (Uses "actions/checkout@v4");
         {| step_id := "compare"; step_name := "Check if major or minor version changed";
            step_if := None; step_action := Run compare_script_text;
            step_continue_on_error := false |} ] |}.

Definition version_and_publish_website : job :=
  {| job_id := "version-and-publish-website"; job_needs := ["check-versions"];
     job_if := Some (EEq (ENeedsOutput "check-versions" "major_minor_changed") (ELit "true"));
     job_outputs := [];
     job_body := Reusable "./.github/workflows/publish_website.yml" |}.

Definition deploy_on_release : workflow :=
  {| wf_name := "Deploy On Release";
     wf_jobs := [tests_and_coverage; package_deploy_pypi; check_versions;
                 version_and_publish_website] |}.

(** Publish Website. *)
Definition delete_script_text : list string :=
  [ "# Delete existing versions for same Major and Minor version numbers.";
    "# We do this to keep only the latest patch for a given major/minor version.";
    "MAJOR_MINOR_VERSION=$(cut -d '.' -f 1-2 <<< ${{ inputs.new_version }}) # remove patch number";
    "MAJOR_MINOR_VERSION=${MAJOR_MINOR_VERSION#v}                           # remove optional " ++ dq ++ "v" ++ dq ++ " prefix";
    "for dir in website/versioned_docs/version-$MAJOR_MINOR_VERSION.*; do";
    "    if [ -d " ++ dq ++ "$dir" ++ dq ++ " ]; then";
    "        OLD_VERSION=$(basename " ++ dq ++ "$dir" ++ dq ++ " | sed 's/^version-//') # remove " ++ dq ++ "version-" ++ dq ++ " prefix from the directory name";
    "        echo " ++ dq ++ "Deleting older version $OLD_VERSION with the same major and minor version numbers as $NEW_VERSION" ++ dq;
    "        # Delete version from the three locations Docusaurus uses:";
    "        #   - versioned_docs/version-X.Y.Z/";
    "        #   - versioned_sidebars/version-X.Y.Z-sidebars.json";
    "        #   - versions.json";
    "        # https://docusaurus.io/docs/versioning#deleting-an-existing-version";
    "        rm -rf " ++ dq ++ "$dir" ++ dq;
    "        rm " ++ dq ++ "website/versioned_sidebars/version-$OLD_VERSION-sidebars.json" ++ dq;
    "        sed -i " ++ dq ++ "/\" ++ dq ++ "$OLD_VERSION\" ++ dq ++ "/d" ++ dq ++ " website/versions.json";
    "    fi";
    "done" ].

Definition create_version_script_text : list string :=
  [ "python3 scripts/convert_ipynb_to_mdx.py --clean";
    "cd website";
    "yarn";
    "yarn docusaurus docs:version ${{ inputs.new_version }}";
    "";
    "git add versioned_docs/ versioned_sidebars/ versions.json";
    "git commit -m " ++ dq ++ "Create version ${{ inputs.new_version }} of site in Docusaurus" ++ dq;
    "git push --force origin HEAD:docusaurus-versions" ].

Definition build_website : job :=
  {| job_id := "build-website"; job_needs := []; job_if := None; job_outputs := [];
     job_body := Steps
       [ plain_step "actions/checkout@v4" (Uses "actions/checkout@v4");
         plain_step "Install uv" (Uses "astral-sh/setup-uv@v5");
         plain_step "Sync release branch with main"
           (Run ["git config --global user.name " ++ dq ++ "github-actions[bot]" ++ dq;
                 "git config --global user.email " ++ dq ++ "41898282+github-actions[bot]@users.noreply.github.com" ++ dq;
                 "git merge origin/main";
                 "# To avoid a large number of commits we don't push this sync commit to github until a new release."]);
         plain_step "Set up Python" (Uses "actions/setup-python@v5");
         {| step_id := ""; step_name := "Install latest GPyTorch and Linear Operator";
            step_if := Some (ENot (EInput "new_version"));
            step_action := Run ["uv pip install git+https://github.com/cornellius-gp/linear_operator.git";
                                "uv pip install git+https://github.com/cornellius-gp/gpytorch.git"];
            step_continue_on_error := false |};
         plain_step "Install dependencies"
           (Run ["uv pip install ." ++ dq ++ "[dev, tutorials]" ++ dq]);
         {| step_id := ""; step_name := "Delete existing similar versions from Docusaurus";
            step_if := Some (EInput "new_version");
            step_action := Run delete_script_text;
            step_continue_on_error := false |};
         {| step_id := ""; step_name := "Create new docusaurus version";
            step_if := Some (EAnd (EInput "new_version") (ENot (EInput "dry_run")));
            step_action := Run create_version_script_text;
            step_continue_on_error := false |};
         plain_step "Build website" (Run ["bash scripts/build_docs.sh -b"]);
         {| step_id := "deployment"; step_name := "Upload website build as artifact";
            step_if := None; step_action := Uses "actions/upload-pages-artifact@v3";
            step_continue_on_error := false |} ] |}.

Definition deploy_website : job :=
  {| job_id := "deploy-website"; job_needs := ["build-website"];
     job_if := Some (ENot (EInput "dry_run"));
     job_outputs := [];
     job_body := Steps
       [ {| step_id := "deployment"; step_name := "Deploy to GitHub Pages";
            step_if := None; step_action := Uses "actions/deploy-pages@v4";
            step_continue_on_error := false |} ] |}.

Definition publish_website : workflow :=
  {| wf_name := "Publish Website"; wf_jobs := [build_website; deploy_website] |}.

(** A step publishes when it pushes to the repository or deploys the pages
    artifact. *)
Definition pushes (s : step) : bool :=
  match step_action s with
  | Run script => existsb (contains "git push") script
  | Uses _ => false
  end.

Definition deploys_pages (s : step) : bool :=
  match step_action s with
  | Run _ => false
  | Uses ref => starts_with "actions/deploy-pages@" ref
  end.

Definition all_steps (wf : workflow) : list (string * step) :=
  flat_map (fun j => map (fun s => (job_id j, s)) (steps_of j)) (wf_jobs wf).

End Workflows.

(** ** What the shell scripts compute *)

Module Scripts.
Import Shell Actions.

Record script_result := {
  exit_ok : bool;
  stdout : list string;
  github_output : list (string * string)
}.

Definition aborted (out : list string) : script_result :=
  {| exit_ok := false; stdout := out; github_output := [] |}.

Definition warning_unchanged : string :=
  "::warning::Major/Minor version was not changed. Skipping website & docs generation step.".

(** The [compare] step.  The tag name is substituted into the script text;
    [fetch_ok] and [git_describe] stand for the two git commands (the
    previous tag, or a failure).  The script runs under [bash -e], so a
    failing command ends it. *)
Definition compare_script (fetch_ok : bool) (git_describe : option string)
    (tag_name : string) : script_result :=
  if fetch_ok then
    match git_describe with
    | None => aborted []
    | Some previous_version =>
        let prev := strip_v (cut_f1_2 previous_version) in
        let next := strip_v (cut_f1_2 tag_name) in
        let line := "Updating from version " ++ previous_version ++ " to " ++ tag_name in
        if String.eqb prev next
        then {| exit_ok := true; stdout := [line; warning_unchanged]; github_output := [] |}
        else {| exit_ok := true; stdout := [line];
                github_output := [("major_minor_changed", "true")] |}
    end
  else aborted [].

(** Lines of the log that are workflow commands raising a warning. *)
Definition warnings (r : script_result) : list string :=
  filter (fun l => starts_with "::warning::" l = true) (stdout r).

Definition as_step_result (r : script_result) : step_result :=
  {| sr_ok := exit_ok r; sr_outputs := github_output r |}.

(** The release that triggers Deploy On Release, and the runner in which
    the [compare] step (job [check-versions], second step) is the script
    above while everything else is left to [other]. *)
Record release := {
  tag_name : string;
  fetch_ok : bool;
  git_describe : option string
}.

Definition release_runner (rel : release) (other : runner) : runner :=
  {| exec_step := fun j idx =>
       if String.eqb j "check-versions" && Nat.eqb idx 1
       then as_step_result (compare_script (fetch_ok rel) (git_describe rel) (tag_name rel))
       else exec_step other j idx;
     exec_call := exec_call other |}.

(** The job output [major_minor_changed] as the job declares it. *)
Definition major_minor_changed (r : script_result) : string :=
  lookup_assoc ("compare", "major_minor_changed")
    (step_outputs
       {| step_id := "compare"; step_name := "Check if major or minor version changed";
          step_if := None; step_action := Run Workflows.compare_script_text;
          step_continue_on_error := false |}
       (as_step_result r)).

End Scripts.

Module Docusaurus.
Import Shell.

(** The part of the website checkout the delete step touches:
    the entries of [website/versioned_docs] (name, and whether the entry is
    a directory) in the order a glob lists them, the files of
    [website/versioned_sidebars], and the lines of [website/versions.json]. *)
Record site := {
  versioned_docs : list (string * bool);
  versioned_sidebars : list string;
  versions_json : list string
}.

(** A regular expression of [sed] in which [.] stands for any character and
    every other character for itself (version names carry no other special
    character), matched at the start of [s]. *)
Fixpoint match_here (pat s : string) : bool :=
  match pat, s with
  | EmptyString, _ => true
  | String p pat', String c s' => (Ascii.eqb p "." || Ascii.eqb p c) && match_here pat' s'
  | String _ _, EmptyString => false
  end.

Fixpoint line_matches (pat s : string) : bool :=
  match_here pat s ||
  match s with
  | EmptyString => false
  | String _ s' => line_matches pat s'
  end.

(** [sed -i "/pat/d"]: the lines that do not match. *)
Definition sed_delete (pat : string) (lines : list string) : list string :=
  filter (fun l => line_matches pat l = false) lines.

Definition remove_name (n : string) (l : list string) : list string :=
  filter (fun x => x ≠ n) l.

Definition remove_entry (n : string) (l : list (string * bool)) : list (string * bool) :=
  filter (fun e => fst e ≠ n) l.

Definition sidebar_of (old_version : string) : string :=
  "version-" ++ old_version ++ "-sidebars.json".

Definition deleting_line (old_version : string) : string :=
  "Deleting older version " ++ old_version
  ++ " with the same major and minor version numbers as ".

(** The loop over the entries the glob matched.  [rm] on a missing sidebar
    file fails and, under [bash -e], ends the script. *)
Fixpoint delete_loop (matched : list (string * bool)) (w : site) (out : list string)
    : site * bool * list string :=
  match matched with
  | [] => (w, true, out)
  | (name, is_dir) :: rest =>
      if is_dir then
        let old_version := drop_prefix "version-" name in
        let out1 := (out ++ [deleting_line old_version])%list in
        let w1 := {| versioned_docs := remove_entry name (versioned_docs w);
                     versioned_sidebars := versioned_sidebars w;
                     versions_json := versions_json w |} in
        if bool_decide (sidebar_of old_version ∈ versioned_sidebars w1) then
          delete_loop rest
            {| versioned_docs := versioned_docs w1;
               versioned_sidebars := remove_name (sidebar_of old_version) (versioned_sidebars w1);
               versions_json := sed_delete (dq ++ old_version ++ dq) (versions_json w1) |}
            out1
        else (w1, false, out1)
      else delete_loop rest w out
  end.

(** The word [website/versioned_docs/version-$MAJOR_MINOR_VERSION.*] after
    pathname expansion.  The variable is expanded without quotes, so [*],
    [?] and [[] in it are pattern characters like the [*] that ends the
    word.  When no entry matches, the shell leaves the word as it is and the
    loop runs once on it: [-d] then holds of a directory that has the
    pattern as its name.  [mm] holds no blank, slash or backslash. *)
Definition glob_versions (mm : string) (w : site) : list (string * bool) :=
  let pattern := "version-" ++ mm ++ ".*" in
  match filter (fun e => Glob.glob_match pattern (fst e) = true) (versioned_docs w) with
  | [] => filter (fun e => fst e = pattern) (versioned_docs w)
  | matched => matched
  end.

(** The step "Delete existing similar versions from Docusaurus". *)
Definition delete_similar_versions (new_version : string) (w : site) : site * bool * list string :=
  delete_loop (glob_versions (major_minor new_version) w) w [].


(** The website after the workflow published release v0.1.0: the create step
    ran [docusaurus docs:version v0.1.0] with the tag as it is. *)
Definition site_after_v0_1_0 : site :=
  {| versioned_docs := [("version-v0.1.0", true)];
     versioned_sidebars := ["version-v0.1.0-sidebars.json"];
     versions_json := ["["; "  " ++ dq ++ "v0.1.0" ++ dq; "]"] |}.

(** The same release line with tags that carry no "v", and another line. *)
Definition site_plain : site :=
  {| versioned_docs := [("version-0.1.0", true); ("version-0.2.0", true)];
     versioned_sidebars := ["version-0.1.0-sidebars.json"; "version-0.2.0-sidebars.json"];
     versions_json := ["["; "  " ++ dq ++ "0.2.0" ++ dq ++ ","; "  " ++ dq ++ "0.1.0" ++ dq; "]"] |}.

(** Three release lines, two of them with the same minor number. *)
Definition site_majors : site :=
  {| versioned_docs := [("version-0.1.0", true); ("version-0.2.0", true); ("version-2.1.0", true)];
     versioned_sidebars := ["version-0.1.0-sidebars.json"; "version-0.2.0-sidebars.json";
                            "version-2.1.0-sidebars.json"];
     versions_json := ["["; "  " ++ dq ++ "2.1.0" ++ dq ++ ","; "  " ++ dq ++ "0.2.0" ++ dq ++ ",";
                       "  " ++ dq ++ "0.1.0" ++ dq; "]"] |}.

End Docusaurus.

(** ** Notebook code as programs over library calls *)

Module Py.

(** A raised exception: its class and message. *)
Definition exn : Type := string.

(** A Python function body is a tree of library calls: [Call c k] performs
    the call [c] and continues with its result, [Raise e] is Python's
    [raise], [WithCM enter leave body k] is a [with] block over a context
    manager whose [__exit__] returns [None] (it never swallows an exception),
    as [torch.no_grad] does, and [TryExcept body handler k] is
    [try: body / except Exception as e: handler e], followed by [k].  The
    notebooks contain no [try]: that their functions lie in the fragment
    without [TryExcept] is what [handler_free] says of them. *)
Inductive prog (E : Type -> Type) : Type -> Type :=
| Ret {R : Type} (r : R) : prog E R
| Raise {R : Type} (e : exn) : prog E R
| Call {X R : Type} (c : E X) (k : X -> prog E R) : prog E R
| WithCM {Y R : Type} (enter leave : E unit) (body : prog E Y) (k : Y -> prog E R) : prog E R
| TryExcept {Y R : Type} (body : prog E Y) (handler : exn -> prog E Y) (k : Y -> prog E R)
    : prog E R.

Arguments Ret {E R} r.
Arguments Raise {E R} e.
Arguments Call {E X R} c k.
Arguments WithCM {E Y R} enter leave body k.
Arguments TryExcept {E Y R} body handler k.

Fixpoint bind {E : Type -> Type} {A B : Type} (p : prog E A) : (A -> prog E B) -> prog E B :=
  match p in prog _ T return (T -> prog E B) -> prog E B with
  | Ret r => fun f => f r
  | Raise e => fun _ => Raise e
  | Call c k => fun f => Call c (fun x => bind (k x) f)
  | WithCM enter leave body k => fun f => WithCM enter leave body (fun y => bind (k y) f)
  | TryExcept body handler k => fun f => TryExcept body handler (fun y => bind (k y) f)
  end.

Definition call {E : Type -> Type} {X : Type} (c : E X) : prog E X := Call c Ret.

(** How the library answers a call in a given state of the world (random
    number generator, fitted models, file system, output so far). *)
Definition library (E : Type -> Type) (W : Type) : Type :=
  forall X : Type, E X -> W -> (exn + X) * W.

(** The outcome of a run: the exception that reached the caller or the
    returned value, the exceptions the library raised on the way (oldest
    first), and the final world. *)
Record outcome (R W : Type) := {
  result : exn + R;
  raised : list exn;
  world : W
}.
Arguments result {R W} o.
Arguments raised {R W} o.
Arguments world {R W} o.

Fixpoint run {E : Type -> Type} {W R : Type} (lib : library E W) (p : prog E R) (w : W)
    : outcome R W :=
  match p with
  | Ret r => {| result := inr r; raised := []; world := w |}
  | Raise e => {| result := inl e; raised := []; world := w |}
  | Call c k =>
      match lib _ c w with
      | (inl e, w') => {| result := inl e; raised := [e]; world := w' |}
      | (inr x, w') => run lib (k x) w'
      end
  | WithCM enter leave body k =>
      match lib _ enter w with
      | (inl e, w') => {| result := inl e; raised := [e]; world := w' |}
      | (inr _, w') =>
          let ob := run lib body w' in
          match lib _ leave (world ob) with
          | (inl e, w'') =>
              {| result := inl e; raised := (raised ob ++ [e])%list; world := w'' |}
          | (inr _, w'') =>
              match result ob with
              | inl e => {| result := inl e; raised := raised ob; world := w'' |}
              | inr y =>
                  let ok := run lib (k y) w'' in
                  {| result := result ok; raised := (raised ob ++ raised ok)%list;
                     world := world ok |}
              end
          end
      end
  | TryExcept body handler k =>
      let ob := run lib body w in
      match result ob with
      | inr y =>
          let ok := run lib (k y) (world ob) in
          {| result := result ok; raised := (raised ob ++ raised ok)%list;
             world := world ok |}
      | inl e =>
          let oh := run lib (handler e) (world ob) in
          match result oh with
          | inl e' =>
              {| result := inl e'; raised := (raised ob ++ raised oh)%list;
                 world := world oh |}
          | inr y =>
              let ok := run lib (k y) (world oh) in
              {| result := result ok;
                 raised := (raised ob ++ raised oh ++ raised ok)%list;
                 world := world ok |}
          end
      end
  end.

(** The program has neither a [with] block nor a [try]. *)
Fixpoint straight {E : Type -> Type} {R : Type} (p : prog E R) : Prop :=
  match p with
  | Ret _ => True
  | Raise _ => True
  | Call c k => forall x, straight (k x)
  | WithCM _ _ _ _ => False
  | TryExcept _ _ _ => False
  end.

(** The program has no [try], and every [with] block of it leaves through a
    call that satisfies [leave_ok]. *)
Fixpoint handler_free {E : Type -> Type} {R : Type} (leave_ok : E unit -> Prop)
    (p : prog E R) : Prop :=
  match p with
  | Ret _ => True
  | Raise _ => True
  | Call c k => forall x, handler_free leave_ok (k x)
  | WithCM _ leave body k =>
      leave_ok leave /\ handler_free leave_ok body /\ forall y, handler_free leave_ok (k y)
  | TryExcept _ _ _ => False
  end.

(** The program has no [try]. *)
Definition try_free {E : Type -> Type} {R : Type} (p : prog E R) : Prop :=
  handler_free (fun _ => True) p.

(** The call [c] never raises. *)
Definition never_raises {E : Type -> Type} {W : Type} (lib : library E W) (c : E unit) : Prop :=
  forall w, exists w', lib unit c w = (inr tt, w').

(** The program contains no [raise] of its own. *)
Fixpoint raise_free {E : Type -> Type} {R : Type} (p : prog E R) : Prop :=
  match p with
  | Ret _ => True
  | Raise _ => False
  | Call c k => forall x, raise_free (k x)
  | WithCM _ _ body k => raise_free body /\ forall y, raise_free (k y)
  | TryExcept body handler k =>
      raise_free body /\ (forall e, raise_free (handler e)) /\ forall y, raise_free (k y)
  end.

(** An exception the library raises reaches the caller as it is, and it is
    the only one raised. *)
Definition unchanged {R W : Type} (o : outcome R W) : Prop :=
  forall e, e ∈ raised o -> result o = inl e /\ raised o = [e].

(** The exception that reaches the caller is the last one the library
    raised. *)
Definition last_reaches {R W : Type} (o : outcome R W) : Prop :=
  forall e, last (raised o) = Some e -> result o = inl e.

(** The run returns [v] and leaves the world [w']. *)
Definition returns {E : Type -> Type} {W R : Type} (lib : library E W) (p : prog E R)
    (w : W) (v : R) (w' : W) : Prop :=
  result (run lib p w) = inr v /\ world (run lib p w) = w' /\ raised (run lib p w) = [].

End Py.

#[global] Instance prog_ret {E} : MRet (Py.prog E) := fun _ x => Py.Ret x.
#[global] Instance prog_bind {E} : MBind (Py.prog E) := fun _ _ f p => Py.bind p f.

(** ** The discrete-fidelity knowledge-gradient tutorial *)

Module MFKG.
Import Py.

(** Tensor entries are rationals: the values the claims concern (0.25,
    0.5, 0.75, 1.0 and small sums of them) are exact in binary floating
    point, so nothing is lost on them. *)
Definition tensor1 : Type := list Qc.
Definition tensor2 : Type := list (list Qc).

Definition dec (n : Z) (d : positive) : Qc := Q2Qc (n # d).

(** Objects of the library, described by what they were built from. *)
Record problem_obj := { negate : bool; dim : nat }.

Record transform := { standardize_m : nat }.

Record model_obj := {
  train_X : tensor2;
  train_Y : tensor2;
  outcome_transform : transform;
  data_fidelities : list nat
}.

Record mll_obj := { mll_model : model_obj }.

Record cost_model_obj := {
  fidelity_weights : list (nat * Qc);
  fixed_cost : Qc
}.

Record utility_obj := { utility_cost_model : cost_model_obj }.

Inductive acqf :=
| PosteriorMeanOf (m : model_obj)
| FixedFeatureOf (a : acqf) (d : nat) (columns : list nat) (values : list Qc)
| MFKGOf (m : model_obj) (num_fantasies : nat) (current_value : Qc) (u : utility_obj)
    (project_target : list (nat * Qc))
| LogEIOf (m : model_obj) (best_f : Qc).

Record optimize_kwargs := {
  q : nat;
  num_restarts : nat;
  raw_samples : nat;
  batch_limit : nat;
  maxiter : nat
}.

(** The library calls the notebook makes. *)
Inductive libE : Type -> Type :=
| TorchRand (n m : nat) : libE tensor2
| TorchRandint (high n m : nat) : libE (list (list nat))
| TensorIndex (t : tensor1) (idx : list (list nat)) : libE tensor2
| TorchCat (ts : list tensor2) (axis : nat) : libE tensor2
| ProblemCall (p : problem_obj) (X : tensor2) : libE tensor1
| Unsqueeze (t : tensor1) : libE tensor2
| Standardize (m : nat) : libE transform
| SingleTaskMultiFidelityGP (train_x train_obj : tensor2) (tf : transform)
    (fidelity_columns : list nat) : libE model_obj
| ExactMarginalLogLikelihood (m : model_obj) : libE mll_obj
| FitGpytorchMll (mll : mll_obj) : libE unit
| ProjectToTargetFidelity (X : tensor2) (target : list (nat * Qc)) : libE tensor2
| PosteriorMean (m : model_obj) : libE acqf
| FixedFeatureAcquisitionFunction (a : acqf) (d : nat) (columns : list nat)
    (values : list Qc) : libE acqf
| DropLastColumn (t : tensor2) : libE tensor2
| OptimizeAcqf (a : acqf) (bounds : tensor2) (kw : optimize_kwargs) : libE (tensor2 * Qc)
| QMultiFidelityKnowledgeGradient (m : model_obj) (num_fantasies : nat)
    (current_value : Qc) (u : utility_obj) (project_target : list (nat * Qc)) : libE acqf
| OptimizeAcqfMixed (a : acqf) (bounds : tensor2)
    (fixed_features_list : list (list (nat * Qc))) (kw : optimize_kwargs)
    : libE (tensor2 * Qc)
| CostModelCall (cm : cost_model_obj) (X : tensor2) : libE tensor2
| TensorSum (t : tensor2) : libE Qc
| Detach (t : tensor2) : libE tensor2
| Print (items : list (string * tensor2)) : libE unit
| ConstructXFull (a : acqf) (X : tensor2) : libE tensor2
| QLogExpectedImprovement (m : model_obj) (best_f : Qc) : libE acqf
| TensorMax (t : tensor2) : libE Qc.

(** Python's [not x] for [x = os.environ.get(..)]: [None] and the empty
    string are falsy. *)
Definition py_not (x : option string) : bool :=
  match x with
  | None => true
  | Some s => String.eqb s ""
  end.

(** Module-level objects of the notebook. *)
Definition problem : problem_obj := {| negate := true; dim := 7 |}.
Definition fidelities : tensor1 := [dec 1 2; dec 3 4; dec 1 1].
Definition bounds : tensor2 := [replicate (dim problem) (dec 0 1); replicate (dim problem) (dec 1 1)].
Definition target_fidelities : list (nat * Qc) := [(6%nat, dec 1 1)].
Definition cost_model : cost_model_obj :=
  {| fidelity_weights := [(6%nat, dec 1 1)]; fixed_cost := dec 1 4 |}.
Definition cost_aware_utility : utility_obj := {| utility_cost_model := cost_model |}.
Definition BATCH_SIZE : nat := 4.

(** An n x m tensor. *)
Definition has_shape (n m : nat) (t : tensor2) : Prop :=
  length t = n /\ Forall (fun x => length x = m) t.

(** The fidelity coordinate of a point (column 6). *)
Definition fidelity (x : list Qc) : Qc := default (dec 0 1) (x !! 6%nat).

Definition qc_of_nat (n : nat) : Qc := Q2Qc (inject_Z (Z.of_nat n)).

Section Notebook.

(** [SMOKE_TEST = os.environ.get("SMOKE_TEST")]. *)
Variable environ : gmap string string.

Definition SMOKE_TEST : option string := environ !! "SMOKE_TEST".

Definition generate_initial_data (n : nat) : prog libE (tensor2 * tensor2) :=
  train_x ← call (TorchRand n 6);
  idx ← call (TorchRandint 3 n 1);
  train_f ← call (TensorIndex fidelities idx);
  train_x_full ← call (TorchCat [train_x; train_f] 1);
  y ← call (ProblemCall problem train_x_full);
  train_obj ← call (Unsqueeze y);
  mret (train_x_full, train_obj).

Definition initialize_model (train_x train_obj : tensor2) : prog libE (mll_obj * model_obj) :=
  tf ← call (Standardize 1);
  model ← call (SingleTaskMultiFidelityGP train_x train_obj tf [6%nat]);
  mll ← call (ExactMarginalLogLikelihood model);
  mret (mll, model).

Definition project (X : tensor2) : prog libE tensor2 :=
  call (ProjectToTargetFidelity X target_fidelities).

Definition get_mfkg_kwargs : optimize_kwargs :=
  {| q := 1;
     num_restarts := if py_not SMOKE_TEST then 10 else 2;
     raw_samples := if py_not SMOKE_TEST then 1024 else 4;
     batch_limit := 10; maxiter := 200 |}.

Definition get_mfkg_num_fantasies : nat := if py_not SMOKE_TEST then 128 else 2.

Definition get_mfkg (model : model_obj) : prog libE acqf :=
  pm ← call (PosteriorMean model);
  curr_val_acqf ← call (FixedFeatureAcquisitionFunction pm 7 [6%nat] [dec 1 1]);
  b ← call (DropLastColumn bounds);
  '(_, current_value) ← call (OptimizeAcqf curr_val_acqf b get_mfkg_kwargs);
  call (QMultiFidelityKnowledgeGradient model get_mfkg_num_fantasies current_value
          cost_aware_utility target_fidelities).

Definition NUM_RESTARTS : nat := if py_not SMOKE_TEST then 5 else 2.
Definition RAW_SAMPLES : nat := if py_not SMOKE_TEST then 128 else 4.

Definition optimize_mfkg_and_get_observation (mfkg_acqf : acqf)
    : prog libE (tensor2 * tensor2 * Qc) :=
  '(candidates, _) ← call (OptimizeAcqfMixed mfkg_acqf bounds
       [[(6%nat, dec 1 2)]; [(6%nat, dec 3 4)]; [(6%nat, dec 1 1)]]
       {| q := BATCH_SIZE; num_restarts := NUM_RESTARTS; raw_samples := RAW_SAMPLES;
          batch_limit := 5; maxiter := 200 |});
  c ← call (CostModelCall cost_model candidates);
  cost ← call (TensorSum c);
  new_x ← call (Detach candidates);
  y ← call (ProblemCall problem new_x);
  new_obj ← call (Unsqueeze y);
  _ ← call (Print [("candidates:", new_x)]);
  _ ← call (Print [("observations:", new_obj)]);
  mret (new_x, new_obj, cost).

Definition N_ITER : nat := if py_not SMOKE_TEST then 3 else 1.

(** The global names the loop cells update; [model] is unbound until the
    first iteration has run. *)
Record loop_state := {
  st_train_x : tensor2;
  st_train_obj : tensor2;
  st_cumulative_cost : Qc;
  st_model : option model_obj
}.

(** The loop's data after some iterations: [n] points of seven columns at
    the three fidelities, and their [n] observations. *)
Definition well_shaped (n : nat) (s : loop_state) : Prop :=
  has_shape n 7 (st_train_x s) /\ has_shape n 1 (st_train_obj s)
  /\ Forall (fun x => fidelity x ∈ fidelities) (st_train_x s).

Definition mfkg_iteration (s : loop_state) : prog libE loop_state :=
  '(mll, model) ← initialize_model (st_train_x s) (st_train_obj s);
  _ ← call (FitGpytorchMll mll);
  mfkg_acqf ← get_mfkg model;
  '(new_x, new_obj, cost) ← optimize_mfkg_and_get_observation mfkg_acqf;
  train_x ← call (TorchCat [st_train_x s; new_x] 0);
  train_obj ← call (TorchCat [st_train_obj s; new_obj] 0);
  mret {| st_train_x := train_x; st_train_obj := train_obj;
          st_cumulative_cost := (st_cumulative_cost s + cost)%Qc;
          st_model := Some model |}.

(** [for i in range(n): body]. *)
Fixpoint for_range (n : nat) (body : loop_state -> prog libE loop_state) (s : loop_state)
    : prog libE loop_state :=
  match n with
  | O => mret s
  | S n' => s' ← body s; for_range n' body s'
  end.

Definition initial_state (data : tensor2 * tensor2) (model : option model_obj) : loop_state :=
  {| st_train_x := fst data; st_train_obj := snd data;
     st_cumulative_cost := dec 0 1; st_model := model |}.

(** The data cell followed by the loop cell, for [n] iterations. *)
Definition mfkg_run (n : nat) : prog libE loop_state :=
  data ← generate_initial_data 16;
  for_range n mfkg_iteration (initial_state data None).

Definition mfkg_loop : prog libE loop_state := mfkg_run N_ITER.

Definition get_recommendation (model : model_obj) : prog libE tensor2 :=
  pm ← call (PosteriorMean model);
  rec_acqf ← call (FixedFeatureAcquisitionFunction pm 7 [6%nat] [dec 1 1]);
  b ← call (DropLastColumn bounds);
  '(final_rec, _) ← call (OptimizeAcqf rec_acqf b
       {| q := 1; num_restarts := 10; raw_samples := 512; batch_limit := 5; maxiter := 200 |});
  final_rec ← call (ConstructXFull rec_acqf final_rec);
  objective_value ← call (ProblemCall problem final_rec);
  _ ← call (Print [("recommended point:", final_rec); ("objective value:", [objective_value])]);
  mret final_rec.

Definition get_ei (model : model_obj) (best_f : Qc) : prog libE acqf :=
  ei ← call (QLogExpectedImprovement model best_f);
  call (FixedFeatureAcquisitionFunction ei 7 [6%nat] [dec 1 1]).

Definition optimize_ei_and_get_observation (ei_acqf : acqf)
    : prog libE (tensor2 * tensor2 * Qc) :=
  b ← call (DropLastColumn bounds);
  '(candidates, _) ← call (OptimizeAcqf ei_acqf b
       {| q := BATCH_SIZE; num_restarts := 10; raw_samples := 512;
          batch_limit := 5; maxiter := 200 |});
  candidates ← call (ConstructXFull ei_acqf candidates);
  c ← call (CostModelCall cost_model candidates);
  cost ← call (TensorSum c);
  new_x ← call (Detach candidates);
  y ← call (ProblemCall problem new_x);
  new_obj ← call (Unsqueeze y);
  _ ← call (Print [("candidates:", new_x)]);
  _ ← call (Print [("observations:", new_obj)]);
  mret (new_x, new_obj, cost).

Definition ei_iteration (s : loop_state) : prog libE loop_state :=
  '(mll, model) ← initialize_model (st_train_x s) (st_train_obj s);
  _ ← call (FitGpytorchMll mll);
  best_f ← call (TensorMax (st_train_obj s));
  ei_acqf ← get_ei model best_f;
  '(new_x, new_obj, cost) ← optimize_ei_and_get_observation ei_acqf;
  train_x ← call (TorchCat [st_train_x s; new_x] 0);
  train_obj ← call (TorchCat [st_train_obj s; new_obj] 0);
  mret {| st_train_x := train_x; st_train_obj := train_obj;
          st_cumulative_cost := (st_cumulative_cost s + cost)%Qc;
          st_model := Some model |}.

Definition ei_loop (model : option model_obj) : prog libE loop_state :=
  data ← generate_initial_data 16;
  for_range N_ITER ei_iteration (initial_state data model).

(** [final_rec = get_recommendation(model)] and the print of the total. *)
Definition recommend (s : loop_state) : prog libE tensor2 :=
  match st_model s with
  | Some model =>
      final_rec ← get_recommendation model;
      _ ← call (Print [("total cost:", [[st_cumulative_cost s]])]);
      mret final_rec
  | None => Raise "NameError: name 'model' is not defined"
  end.

(** The cells in order: the MFKG run and its recommendation, then the EI
    run and its recommendation. *)
Definition notebook : prog libE (tensor2 * tensor2) :=
  s1 ← mfkg_loop;
  r1 ← recommend s1;
  s2 ← ei_loop (st_model s1);
  r2 ← recommend s2;
  mret (r1, r2).

End Notebook.

(** The notebook with the six numbers the smoke-test flag selects taken as
    parameters, and nothing else left to vary: the reading of the flag the
    notebook is compared with. *)
Module SmokeSpec.

Record smoke_params := {
  mfkg_num_restarts : nat;
  mfkg_raw_samples : nat;
  mfkg_num_fantasies : nat;
  n_iter : nat;
  loop_num_restarts : nat;
  loop_raw_samples : nat
}.

Definition reduced : smoke_params :=
  {| mfkg_num_restarts := 2; mfkg_raw_samples := 4; mfkg_num_fantasies := 2;
     n_iter := 1; loop_num_restarts := 2; loop_raw_samples := 4 |}.

Definition full : smoke_params :=
  {| mfkg_num_restarts := 10; mfkg_raw_samples := 1024; mfkg_num_fantasies := 128;
     n_iter := 3; loop_num_restarts := 5; loop_raw_samples := 128 |}.

Definition select (flag : option string) : smoke_params :=
  match flag with
  | Some (String _ _) => reduced
  | _ => full
  end.

Section With.
Variable p : smoke_params.

Definition get_mfkg_with (model : model_obj) : prog libE acqf :=
  pm ← call (PosteriorMean model);
  curr_val_acqf ← call (FixedFeatureAcquisitionFunction pm 7 [6%nat] [dec 1 1]);
  b ← call (DropLastColumn bounds);
  '(_, current_value) ← call (OptimizeAcqf curr_val_acqf b
       {| q := 1; num_restarts := mfkg_num_restarts p; raw_samples := mfkg_raw_samples p;
          batch_limit := 10; maxiter := 200 |});
  call (QMultiFidelityKnowledgeGradient model (mfkg_num_fantasies p) current_value
          cost_aware_utility target_fidelities).

Definition optimize_mfkg_with (mfkg_acqf : acqf) : prog libE (tensor2 * tensor2 * Qc) :=
  '(candidates, _) ← call (OptimizeAcqfMixed mfkg_acqf bounds
       [[(6%nat, dec 1 2)]; [(6%nat, dec 3 4)]; [(6%nat, dec 1 1)]]
       {| q := 4; num_restarts := loop_num_restarts p; raw_samples := loop_raw_samples p;
          batch_limit := 5; maxiter := 200 |});
  c ← call (CostModelCall cost_model candidates);
  cost ← call (TensorSum c);
  new_x ← call (Detach candidates);
  y ← call (ProblemCall problem new_x);
  new_obj ← call (Unsqueeze y);
  _ ← call (Print [("candidates:", new_x)]);
  _ ← call (Print [("observations:", new_obj)]);
  mret (new_x, new_obj, cost).

Definition mfkg_iteration_with (s : loop_state) : prog libE loop_state :=
  '(mll, model) ← initialize_model (st_train_x s) (st_train_obj s);
  _ ← call (FitGpytorchMll mll);
  mfkg_acqf ← get_mfkg_with model;
  '(new_x, new_obj, cost) ← optimize_mfkg_with mfkg_acqf;
  train_x ← call (TorchCat [st_train_x s; new_x] 0);
  train_obj ← call (TorchCat [st_train_obj s; new_obj] 0);
  mret {| st_train_x := train_x; st_train_obj := train_obj;
          st_cumulative_cost := (st_cumulative_cost s + cost)%Qc;
          st_model := Some model |}.

Definition notebook_with : prog libE (tensor2 * tensor2) :=
  s1 ← (data ← generate_initial_data 16;
        for_range (n_iter p) mfkg_iteration_with (initial_state data None));
  r1 ← recommend s1;
  s2 ← (data ← generate_initial_data 16;
        for_range (n_iter p) ei_iteration (initial_state data (st_model s1)));
  r2 ← recommend s2;
  mret (r1, r2).

End With.
End SmokeSpec.

End MFKG.

(** ** A model of the library the tutorial calls *)

Module Botorch.
Import Py MFKG.

(** The state of the world the model needs: how many random draws have been
    consumed, and what has been printed. *)
Record world := {
  draws : nat;
  printed : list (list (string * tensor2))
}.

Definition advance (n : nat) (w : world) : world :=
  {| draws := draws w + n; printed := printed w |}.

Definition ok {X : Type} (x : X) (w : world) : (exn + X) * world := (inr x, w).
Definition fails {X : Type} (e : exn) (w : world) : (exn + X) * world := (inl e, w).

Definition sum_list (l : list Qc) : Qc := foldr Qcplus (dec 0 1) l.

Definition clamp (lo hi x : Qc) : Qc :=
  if Qle_bool x lo then lo else if Qle_bool hi x then hi else x.

(** Setting the fixed features [{column: value}] in a point; a column
    outside the point is left alone. *)
Definition fix_features (ff : list (nat * Qc)) (x : list Qc) : list Qc :=
  foldr (fun cv acc => <[fst cv := snd cv]> acc) x ff.

(** [torch.cat]: along axis 0 the rows follow one another and must agree in
    width; along axis 1 the rows are joined pairwise and the tensors must
    agree in height. *)
Definition same_width (rows : tensor2) : bool :=
  match rows with
  | [] => true
  | r :: rest => forallb (fun r' => Nat.eqb (length r') (length r)) rest
  end.

Fixpoint cat_columns (ts : list tensor2) : option tensor2 :=
  match ts with
  | [] => None
  | [t] => Some t
  | t :: rest =>
      match cat_columns rest with
      | Some t' => if Nat.eqb (length t) (length t') then Some (zip_with app t t') else None
      | None => None
      end
  end.

Definition torch_cat (ts : list tensor2) (axis : nat) : exn + tensor2 :=
  match axis with
  | 0%nat =>
      if same_width (concat ts) then inr (concat ts)
      else inl "RuntimeError: Sizes of tensors must match except in dimension 0"
  | 1%nat =>
      match cat_columns ts with
      | Some t => inr t
      | None => inl "RuntimeError: Sizes of tensors must match except in dimension 1"
      end
  | _ => inl "IndexError: Dimension out of range"
  end.

(** [t[idx]] for a one-dimensional [t] and an index tensor. *)
Definition tensor_index (t : tensor1) (idx : list (list nat)) : exn + tensor2 :=
  match mapM (mapM (fun i => t !! i)) idx with
  | Some r => inr r
  | None => inl "IndexError: index out of range in self"
  end.

Definition drop_last_column (t : tensor2) : tensor2 := map (fun x : list Qc => removelast x) t.

Definition tensor_sum (t : tensor2) : Qc := sum_list (concat t).

Definition qc_max (a b : Qc) : Qc := if Qle_bool a b then b else a.

Definition tensor_max (t : tensor2) : exn + Qc :=
  match concat t with
  | [] => inl "RuntimeError: max(): Expected reduction dim to be specified for input.numel() == 0"
  | x :: rest => inr (foldr qc_max x rest)
  end.

(** Modelled from the spec: [AffineFidelityCostModel.forward] belongs to the
    library and is not among the sources at hand.  By its name, its
    arguments at the call site (fidelity weights and a fixed cost) and the
    notebook's text ("the cost function takes the form 0.25 + s"), the cost
    of a point is the fixed cost plus the weighted sum of its fidelity
    columns; a batch of q points yields a q x 1 tensor. *)
Definition affine_cost (cm : cost_model_obj) (x : list Qc) : option Qc :=
  terms ← mapM (fun jw => v ← x !! fst jw; Some (snd jw * v)%Qc) (fidelity_weights cm);
  Some (fixed_cost cm + sum_list terms)%Qc.

Definition cost_model_forward (cm : cost_model_obj) (X : tensor2) : exn + tensor2 :=
  match mapM (fun x => c ← affine_cost cm x; Some [c]) X with
  | Some r => inr r
  | None => inl "IndexError: index is out of bounds"
  end.

(** Modelled from the spec: [FixedFeatureAcquisitionFunction._construct_X_full]
    belongs to the library and is not among the sources at hand.  It rebuilds
    a point of [d] columns from the free columns, kept in their order, and
    the fixed values, put back at the fixed columns; a point whose width
    plus the number of fixed values is not [d] is refused. *)
Fixpoint selector (columns : list nat) (i n idx_X idx_f : nat) : list nat :=
  match n with
  | O => []
  | S n' =>
      if bool_decide (i ∈ columns)
      then idx_f :: selector columns (S i) n' idx_X (S idx_f)
      else idx_X :: selector columns (S i) n' (S idx_X) idx_f
  end.

Definition construct_row (d : nat) (columns : list nat) (values x : list Qc) : option (list Qc) :=
  if Nat.eqb (length x + length values) d
  then mapM (fun s => (x ++ values)%list !! s) (selector columns 0 d 0 (d - length values))
  else None.

Definition construct_X_full (a : acqf) (X : tensor2) : exn + tensor2 :=
  match a with
  | FixedFeatureOf _ d columns values =>
      match mapM (construct_row d columns values) X with
      | Some r => inr r
      | None => inl "ValueError: Feature dimension d' (6) of input must be d - d_f"
      end
  | _ => inl "AttributeError: object has no attribute '_construct_X_full'"
  end.

Section Oracles.

(** What the model leaves open: the random numbers and the points and
    values the numerical optimizer arrives at ([noise], [pick]), and the
    test function ([objective]). *)
Variable noise : nat -> Qc.
Variable pick : nat -> nat.
Variable objective : list Qc -> Qc.

Definition torch_rand (n m k : nat) : tensor2 :=
  map (fun i => map (fun j => noise (k + i * m + j)) (seq 0 m)) (seq 0 n).

Definition torch_randint (high n m k : nat) : list (list nat) :=
  map (fun i => map (fun j => pick (k + i * m + j) mod high) (seq 0 m)) (seq 0 n).

Definition problem_forward (p : problem_obj) (X : tensor2) : exn + tensor1 :=
  if forallb (fun x => Nat.eqb (length x) (dim p)) X
  then inr (map (fun x => if negate p then (- objective x)%Qc else objective x) X)
  else inl "IndexError: index out of range"
.

(** A point inside the box [bounds], as the optimizer's [k]-th answer. *)
Definition raw_point (lo hi : list Qc) (k : nat) : list Qc :=
  imap (fun j lh => clamp (fst lh) (snd lh) (noise (k + j))) (zip lo hi).

(** Modelled from the spec: [optimize_acqf] belongs to the library and is
    not among the sources at hand.  It returns [q] points inside the 2 x d
    box [bounds] and the acquisition value; which points is left to the
    oracle. *)
Definition optimize_acqf (bounds : tensor2) (kw : optimize_kwargs) (k : nat)
    : exn + (tensor2 * Qc) :=
  match bounds with
  | [lo; hi] =>
      if Nat.eqb (length lo) (length hi)
      then inr (map (fun i => raw_point lo hi (k + i * length lo)) (seq 0 (q kw)),
                noise (k + q kw * length lo))
      else inl "ValueError: bounds must be a 2 x d tensor"
  | _ => inl "ValueError: bounds must be a 2 x d tensor"
  end.

(** Modelled from the spec: [optimize_acqf_mixed] belongs to the library and
    is not among the sources at hand.  Following the notebook's text ("the
    function optimize_acqf_mixed sequentially optimizes the acquisition
    function over x for each value of the fidelity"), a single point is found
    by one optimization per entry of [fixed_features_list], each with that
    entry's columns fixed to its values, keeping the point of best
    acquisition value; a batch of [q] points is built greedily, one such
    point after the other.  An empty list is refused. *)
Fixpoint best_fixed (lo hi : list Qc) (ffl : list (list (nat * Qc))) (k : nat)
    : option (list Qc * Qc) :=
  match ffl with
  | [] => None
  | ff :: rest =>
      let x := fix_features ff (raw_point lo hi k) in
      let v := noise (k + length lo) in
      match best_fixed lo hi rest (k + length lo + 1) with
      | Some (x', v') => if Qle_bool v' v then Some (x, v) else Some (x', v')
      | None => Some (x, v)
      end
  end.

Definition mixed_stride (lo : list Qc) (ffl : list (list (nat * Qc))) : nat :=
  length ffl * (length lo + 1).

Fixpoint greedy (n : nat) (lo hi : list Qc) (ffl : list (list (nat * Qc))) (k : nat)
    : option tensor2 :=
  match n with
  | O => Some []
  | S n' =>
      match best_fixed lo hi ffl k with
      | Some (x, _) =>
          match greedy n' lo hi ffl (k + mixed_stride lo ffl) with
          | Some xs => Some (x :: xs)
          | None => None
          end
      | None => None
      end
  end.

Definition optimize_acqf_mixed (bounds : tensor2) (ffl : list (list (nat * Qc)))
    (kw : optimize_kwargs) (k : nat) : exn + (tensor2 * Qc) :=
  match bounds with
  | [lo; hi] =>
      if Nat.eqb (length lo) (length hi) then
        match greedy (q kw) lo hi ffl k with
        | Some xs => inr (xs, noise (k + q kw * mixed_stride lo ffl))
        | None => inl "ValueError: fixed_features_list must be non-empty."
        end
      else inl "ValueError: bounds must be a 2 x d tensor"
  | _ => inl "ValueError: bounds must be a 2 x d tensor"
  end.

(** How the modelled library answers each call. *)
Definition botorch : library libE world :=
  fun X c =>
    match c in libE T return world -> (exn + T) * world with
    | TorchRand n m => fun w => ok (torch_rand n m (draws w)) (advance (n * m) w)
    | TorchRandint high n m => fun w => ok (torch_randint high n m (draws w)) (advance (n * m) w)
    | TensorIndex t idx => fun w => (tensor_index t idx, w)
    | TorchCat ts axis => fun w => (torch_cat ts axis, w)
    | ProblemCall p X => fun w => (problem_forward p X, w)
    | Unsqueeze t => fun w => ok (map (fun v => [v]) t) w
    | Standardize m => fun w => ok {| standardize_m := m |} w
    | SingleTaskMultiFidelityGP tx ty tf cols => fun w =>
        if Nat.eqb (length tx) (length ty)
        then ok {| train_X := tx; train_Y := ty; outcome_transform := tf;
                   data_fidelities := cols |} w
        else fails "ValueError: Expected X and Y to have the same number of rows" w
    | ExactMarginalLogLikelihood m => fun w => ok {| mll_model := m |} w
    | FitGpytorchMll _ => fun w => ok tt w
    | ProjectToTargetFidelity X target => fun w => ok (map (fix_features target) X) w
    | PosteriorMean m => fun w => ok (PosteriorMeanOf m) w
    | FixedFeatureAcquisitionFunction a d columns values => fun w =>
        ok (FixedFeatureOf a d columns values) w
    | DropLastColumn t => fun w => ok (drop_last_column t) w
    | OptimizeAcqf a b kw => fun w =>
        (optimize_acqf b kw (draws w), advance (q kw * length (default [] (head b)) + 1) w)
    | QMultiFidelityKnowledgeGradient m nf cv u target => fun w => ok (MFKGOf m nf cv u target) w
    | OptimizeAcqfMixed a b ffl kw => fun w =>
        (optimize_acqf_mixed b ffl kw (draws w),
         advance (q kw * mixed_stride (default [] (head b)) ffl + 1) w)
    | CostModelCall cm X => fun w => (cost_model_forward cm X, w)
    | TensorSum t => fun w => ok (tensor_sum t) w
    | Detach t => fun w => ok t w
    | Print items => fun w => ok tt {| draws := draws w; printed := (printed w ++ [items])%list |}
    | ConstructXFull a X => fun w => (construct_X_full a X, w)
    | QLogExpectedImprovement m best_f => fun w => ok (LogEIOf m best_f) w
    | TensorMax t => fun w => (tensor_max t, w)
    end.

End Oracles.

End Botorch.

(** ** The VAE/MNIST tutorial: its classes and helper functions *)

Module VaeMnist.
Import Py.

(** Library objects (tensors, modules, state dictionaries) are opaque. *)
Inductive obj := Handle (n : nat).

Inductive arg :=
| AObj (o : obj)
| AInt (z : Z)
| ANum (x : Qc)
| AStr (s : string)
| AKw (name : string) (a : arg).

(** Library calls by name, sorted by what the notebook does with the
    result. *)
Inductive libE : Type -> Type :=
| Lib (f : string) (args : list arg) : libE obj
| LibPair (f : string) (args : list arg) : libE (obj * obj)
| LibStr (f : string) (args : list arg) : libE string
| LibBool (f : string) (args : list arg) : libE bool
| LibNum (f : string) (args : list arg) : libE Qc
| LibUnit (f : string) (args : list arg) : libE unit.

Definition lib (f : string) (args : list arg) : prog libE obj := call (Lib f args).

(** [self.name] and [self.name = v] on an [nn.Module]. *)
Definition getattr (self : obj) (name : string) : prog libE obj :=
  lib "nn.Module.__getattr__" [AObj self; AStr name].
Definition setattr (self : obj) (name : string) (v : obj) : prog libE unit :=
  call (LibUnit "nn.Module.__setattr__" [AObj self; AStr name; AObj v]).
(** [self.name(x)]. *)
Definition apply_layer (self : obj) (name : string) (x : obj) : prog libE obj :=
  layer ← getattr self name;
  lib "nn.Module.__call__" [AObj layer; AObj x].

Definition Net_init (self : obj) : prog libE unit :=
  _ ← call (LibUnit "nn.Module.__init__" [AObj self]);
  c1 ← lib "nn.Conv2d" [AInt 1; AInt 20; AInt 5; AInt 1];
  _ ← setattr self "conv1" c1;
  c2 ← lib "nn.Conv2d" [AInt 20; AInt 50; AInt 5; AInt 1];
  _ ← setattr self "conv2" c2;
  f1 ← lib "nn.Linear" [AInt (4 * 4 * 50); AInt 500];
  _ ← setattr self "fc1" f1;
  f2 ← lib "nn.Linear" [AInt 500; AInt 10];
  setattr self "fc2" f2.

Definition Net_forward (self x : obj) : prog libE obj :=
  x ← apply_layer self "conv1" x;
  x ← lib "F.relu" [AObj x];
  x ← lib "F.max_pool2d" [AObj x; AInt 2; AInt 2];
  x ← apply_layer self "conv2" x;
  x ← lib "F.relu" [AObj x];
  x ← lib "F.max_pool2d" [AObj x; AInt 2; AInt 2];
  x ← lib "Tensor.view" [AObj x; AInt (-1); AInt (4 * 4 * 50)];
  x ← apply_layer self "fc1" x;
  x ← lib "F.relu" [AObj x];
  x ← apply_layer self "fc2" x;
  lib "F.log_softmax" [AObj x; AKw "dim" (AInt 1)].

Definition get_pretrained_dir : prog libE string :=
  present ← call (LibBool "os.environ.keys.__contains__" [AStr "PRETRAINED_LOCATION"]);
  if (present : bool) then call (LibStr "os.environ.__getitem__" [AStr "PRETRAINED_LOCATION"])
  else
    cwd ← call (LibStr "os.getcwd" []);
    folder ← call (LibStr "os.path.basename" [AStr cwd]);
    if String.eqb folder "botorch"
    then call (LibStr "os.path.join" [AStr cwd; AStr "tutorials/pretrained_models/"])
    else if String.eqb folder "tutorials"
    then call (LibStr "os.path.join" [AStr cwd; AStr "pretrained_models/"])
    else Raise "FileNotFoundError: Could not figure out location of pretrained models.".

Definition VAE_init (self : obj) : prog libE unit :=
  _ ← call (LibUnit "nn.Module.__init__" [AObj self]);
  l ← lib "nn.Linear" [AInt 784; AInt 400];
  _ ← setattr self "fc1" l;
  l ← lib "nn.Linear" [AInt 400; AInt 20];
  _ ← setattr self "fc21" l;
  l ← lib "nn.Linear" [AInt 400; AInt 20];
  _ ← setattr self "fc22" l;
  l ← lib "nn.Linear" [AInt 20; AInt 400];
  _ ← setattr self "fc3" l;
  l ← lib "nn.Linear" [AInt 400; AInt 784];
  setattr self "fc4" l.

Definition VAE_encode (self x : obj) : prog libE (obj * obj) :=
  h ← apply_layer self "fc1" x;
  h1 ← lib "F.relu" [AObj h];
  a ← apply_layer self "fc21" h1;
  b ← apply_layer self "fc22" h1;
  mret (a, b).

Definition VAE_reparameterize (mu logvar : obj) : prog libE obj :=
  s ← lib "Tensor.__rmul__" [AObj logvar; ANum (Q2Qc (1 # 2))];
  std ← lib "torch.exp" [AObj s];
  eps ← lib "torch.randn_like" [AObj std];
  t ← lib "Tensor.__mul__" [AObj eps; AObj std];
  lib "Tensor.__add__" [AObj mu; AObj t].

Definition VAE_decode (self z : obj) : prog libE obj :=
  h ← apply_layer self "fc3" z;
  h3 ← lib "F.relu" [AObj h];
  y ← apply_layer self "fc4" h3;
  lib "torch.sigmoid" [AObj y].

Definition VAE_forward (self x : obj) : prog libE (obj * obj * obj) :=
  v ← lib "Tensor.view" [AObj x; AInt (-1); AInt 784];
  '(mu, logvar) ← VAE_encode self v;
  z ← VAE_reparameterize mu logvar;
  y ← VAE_decode self z;
  mret (y, mu, logvar).

Definition score (y : obj) : prog libE obj :=
  a ← lib "Tensor.__sub__" [AObj y; AInt 3];
  b ← lib "Tensor.__pow__" [AObj a; AInt 2];
  c ← lib "Tensor.__rmul__" [AObj b; AInt (-2)];
  lib "torch.exp" [AObj c].

Definition d : Z := 20.

Section Notebook.

(** Module-level names: the two loaded networks, the device and dtype, the
    search box, and the smoke-test flag
    ([os.environ.get("SMOKE_TEST", False)]). *)
Variables cnn_model vae_model device dtype bounds : obj.
Variable SMOKE_TEST : option string.

Definition tkwargs : list arg := [AKw "device" (AObj device); AKw "dtype" (AObj dtype)].

(** [with torch.no_grad(): body]. *)
Definition with_no_grad {Y R : Type} (body : prog libE Y) (k : Y -> prog libE R) : prog libE R :=
  cm ← lib "torch.no_grad" [];
  WithCM (LibUnit "__enter__" [AObj cm]) (LibUnit "__exit__" [AObj cm]) body k.

Definition score_image (x : obj) : prog libE obj :=
  with_no_grad
    (o ← Net_forward cnn_model x;
     probs ← lib "torch.exp" [AObj o];
     digits ← lib "torch.arange" (AInt 10 :: tkwargs);
     s ← score digits;
     shape ← lib "Tensor.shape" [AObj probs];
     scores ← lib "Tensor.expand" [AObj s; AObj shape];
     mret (probs, scores))
    (fun ps =>
       m ← lib "Tensor.__mul__" [AObj (fst ps); AObj (snd ps)];
       lib "Tensor.sum" [AObj m; AKw "dim" (AInt 1)]).

Definition decode (train_x : obj) : prog libE obj :=
  with_no_grad (VAE_decode vae_model train_x)
    (fun decoded =>
       n ← lib "Tensor.shape.__getitem__" [AObj train_x; AInt 0];
       lib "Tensor.view" [AObj decoded; AObj n; AInt 1; AInt 28; AInt 28]).

Definition gen_initial_data (n : Z) : prog libE (obj * obj * Qc) :=
  r ← lib "torch.rand" (AInt n :: AInt d :: tkwargs);
  train_x ← lib "unnormalize" [AObj r; AKw "bounds" (AObj bounds)];
  img ← decode train_x;
  s ← score_image img;
  train_obj ← lib "Tensor.unsqueeze" [AObj s; AInt (-1)];
  m ← lib "Tensor.max" [AObj train_obj];
  best_observed_value ← call (LibNum "Tensor.item" [AObj m]);
  mret (train_x, train_obj, best_observed_value).

Definition get_fitted_model (train_x train_obj : obj) (state_dict : option obj) : prog libE obj :=
  nx ← lib "normalize" [AObj train_x; AObj bounds];
  tf ← lib "Standardize" [AKw "m" (AInt 1)];
  model ← lib "SingleTaskGP"
    [AKw "train_X" (AObj nx); AKw "train_Y" (AObj train_obj); AKw "outcome_transform" (AObj tf)];
  _ ← match state_dict with
      | Some sd => _ ← lib "load_state_dict" [AObj model; AObj sd]; mret tt
      | None => mret tt
      end;
  lik ← lib "getattr" [AObj model; AStr "likelihood"];
  mll ← lib "ExactMarginalLogLikelihood" [AObj lik; AObj model];
  _ ← lib "MarginalLogLikelihood.to" [AObj mll; AObj train_x];
  _ ← lib "fit_gpytorch_mll" [AObj mll];
  mret model.

Definition py_truthy (x : option string) : bool :=
  match x with
  | None => false
  | Some s => negb (String.eqb s "")
  end.

Definition BATCH_SIZE : Z := if negb (py_truthy SMOKE_TEST) then 3 else 2.
Definition NUM_RESTARTS : Z := if negb (py_truthy SMOKE_TEST) then 10 else 2.
Definition RAW_SAMPLES : Z := if negb (py_truthy SMOKE_TEST) then 256 else 4.

Definition optimize_acqf_and_get_observation (acq_func : obj) : prog libE (obj * obj) :=
  z ← lib "torch.zeros" (AInt d :: [AKw "dtype" (AObj dtype); AKw "device" (AObj device)]);
  o ← lib "torch.ones" (AInt d :: [AKw "dtype" (AObj dtype); AKw "device" (AObj device)]);
  b ← lib "torch.stack" [AObj z; AObj o];
  '(candidates, _) ← call (LibPair "optimize_acqf"
      [AKw "acq_function" (AObj acq_func); AKw "bounds" (AObj b); AKw "q" (AInt BATCH_SIZE);
       AKw "num_restarts" (AInt NUM_RESTARTS); AKw "raw_samples" (AInt RAW_SAMPLES)]);
  c ← lib "Tensor.detach" [AObj candidates];
  new_x ← lib "unnormalize" [AObj c; AKw "bounds" (AObj bounds)];
  img ← decode new_x;
  s ← score_image img;
  new_obj ← lib "Tensor.unsqueeze" [AObj s; AInt (-1)];
  mret (new_x, new_obj).

End Notebook.

End VaeMnist.

(** ** The minimum-version script of Test against stable *)

Module MinReq.
Import Shell.

Definition is_digit (c : ascii) : bool :=
  let n := nat_of_ascii c in (48 <=? n)%nat && (n <=? 57)%nat.

(** Word constituents, for [\b]: letters, digits and the underscore. *)
Definition is_word_char (c : ascii) : bool :=
  let n := nat_of_ascii c in
  is_digit c || ((65 <=? n)%nat && (n <=? 90)%nat) || ((97 <=? n)%nat && (n <=? 122)%nat)
  || (n =? 95)%nat.

Definition next_is_word (s : string) : bool :=
  match s with
  | EmptyString => false
  | String c _ => is_word_char c
  end.

(** The pattern [\b<name>[>=]=] matched at the start of [s]; [prev_word]
    tells whether the character before [s] is a word constituent.  The names
    in the script hold no character that is special in a pattern. *)
Definition match_requirement_here (name : string) (prev_word : bool) (s : string) : bool :=
  xorb prev_word (next_is_word s) && starts_with name s &&
  match skip (String.length name) s with
  | String c (String "=" _) => Ascii.eqb c ">" || Ascii.eqb c "="
  | _ => false
  end.

Fixpoint grep_from (name : string) (prev_word : bool) (s : string) : bool :=
  match_requirement_here name prev_word s ||
  match s with
  | EmptyString => false
  | String c s' => grep_from name (is_word_char c) s'
  end.

(** [grep '\b<name>[>=]=']: whether a line is selected. *)
Definition grep_requirement (name line : string) : bool := grep_from name false line.

(** [sed 's/[^0-9.]//g']: only digits and dots are kept. *)
Fixpoint keep_version_chars (s : string) : string :=
  match s with
  | EmptyString => EmptyString
  | String c s' =>
      if is_digit c || Ascii.eqb c "."
      then String c (keep_version_chars s')
      else keep_version_chars s'
  end.

Definition newline : string := String (ascii_of_nat 10) EmptyString.

(** [$(grep '\b<name>[>=]=' ${req_txt} | sed 's/[^0-9.]//g')]: the selected
    lines, reduced, one per line; the substitution drops the last newline.
    The step runs under [bash -e] without [pipefail], so a [grep] that
    selects nothing does not end the script: the value is empty. *)
Definition min_version (name : string) (requires_txt : list string) : string :=
  String.concat newline
    (map keep_version_chars (filter (fun l => grep_requirement name l = true) requires_txt)).

(** The three arguments of the [uv pip install] of the minimum versions; on
    Python 3.13 the PyTorch version is 2.6.0 whatever the file says. *)
Definition min_req_arguments (python_3_13 : bool) (requires_txt : list string) : list string :=
  let min_torch_version := min_version "torch" requires_txt in
  let min_torch_version := if python_3_13 then "2.6.0" else min_torch_version in
  let min_gpytorch_version := min_version "gpytorch" requires_txt in
  let min_linear_operator_version := min_version "linear_operator" requires_txt in
  [ "torch==" ++ min_torch_version;
    "gpytorch==" ++ min_gpytorch_version;
    "linear_operator==" ++ min_linear_operator_version ].

(** A version number: digits and dots only. *)
Fixpoint version_text (s : string) : bool :=
  match s with
  | EmptyString => true
  | String c s' => (is_digit c || Ascii.eqb c ".") && version_text s'
  end.

(** A package name as the script uses them: word constituents that are not
    digits, the first one included. *)
Fixpoint name_text (s : string) : bool :=
  match s with
  | EmptyString => true
  | String c s' => is_word_char c && negb (is_digit c) && name_text s'
  end.

(** A text of word constituents: letters, digits and underscores. *)
Fixpoint word_text (s : string) : bool :=
  match s with
  | EmptyString => true
  | String c s' => is_word_char c && word_text s'
  end.

(** The file holds one line that the pattern of [name] selects, and it is
    the requirement [name>=v] or [name==v]. *)
Definition only_requirement (name v : string) (requires_txt : list string) : Prop :=
  exists pre post op,
    requires_txt = (pre ++ (name ++ String op (String "=" v))%string :: post)%list
    /\ (op = ">"%char \/ op = "="%char)
    /\ Forall (fun l => grep_requirement name l = false) (pre ++ post)%list.

End MinReq.

(** ** The workflow files without the version check and the dry run *)

Module GithubWorkflows.
Import Shell Actions Workflows.

(** [.github/workflows/deploy_on_release.yml]: the test and package jobs are
    those of the file above; the website job needs the package job and has
    no [if:]. *)
Definition version_and_publish_website : job :=
  {| job_id := "version-and-publish-website"; job_needs := ["package-deploy-pypi"];
     job_if := None; job_outputs := [];
     job_body := Reusable "./.github/workflows/publish_website.yml" |}.

Definition deploy_on_release : workflow :=
  {| wf_name := "Deploy On Release";
     wf_jobs := [tests_and_coverage; package_deploy_pypi; version_and_publish_website] |}.

(** [.github/workflows/publish_website.yml]. *)
Definition build_website : job :=
  {| job_id := "build-website"; job_needs := []; job_if := None; job_outputs := [];
     job_body := Steps
       [ plain_step "actions/checkout@v4" (Uses "actions/checkout@v4");
         plain_step "Install uv" (Uses "astral-sh/setup-uv@v5");
         plain_step "Sync release branch with main"
           (Run ["git config --global user.name " ++ dq ++ "github-actions[bot]" ++ dq;
                 "git config --global user.email " ++ dq ++ "41898282+github-actions[bot]@users.noreply.github.com" ++ dq;
                 "git merge origin/main";
                 "# To avoid a large number of commits we don't push this sync commit to github until a new release."]);
         plain_step "Set up Python" (Uses "actions/setup-python@v5");
         {| step_id := ""; step_name := "Install latest GPyTorch and Linear Operator";
            step_if := Some (ENot (EInput "new_version"));
            step_action := Run ["uv pip install git+https://github.com/cornellius-gp/linear_operator.git";
                                "uv pip install git+https://github.com/cornellius-gp/gpytorch.git"];
            step_continue_on_error := false |};
         plain_step "Install dependencies"
           (Run ["uv pip install ." ++ dq ++ "[dev, tutorials]" ++ dq]);
         {| step_id := ""; step_name := "Create new docusaurus version";
            step_if := Some (EInput "new_version");
            step_action := Run create_version_script_text;
            step_continue_on_error := false |};
         plain_step "Build website" (Run ["bash scripts/build_docs.sh -b"]);
         {| step_id := "deployment"; step_name := "Upload website build as artifact";
            step_if := None; step_action := Uses "actions/upload-pages-artifact@v3";
            step_continue_on_error := false |} ] |}.

Definition deploy_website : job :=
  {| job_id := "deploy-website"; job_needs := ["build-website"]; job_if := None;
     job_outputs := [];
     job_body := Steps
       [ {| step_id := "deployment"; step_name := "Deploy to GitHub Pages";
            step_if := None; step_action := Uses "actions/deploy-pages@v4";
            step_continue_on_error := false |} ] |}.

Definition publish_website : workflow :=
  {| wf_name := "Publish Website"; wf_jobs := [build_website; deploy_website] |}.

End GithubWorkflows.

(** * Properties *)

(** ** Programs over library calls *)

Module PyFacts.
Import Py.

Section Run.
Context {E : Type -> Type} {W : Type}.
Variable lib : library E W.

(** Running [p] and then [f] on its value. *)
Lemma run_bind {A B : Type} (p : prog E A) (f : A -> prog E B) (w : W) :
  run lib (bind p f) w =
  match result (run lib p w) with
  | inl e => {| result := inl e; raised := raised (run lib p w); world := world (run lib p w) |}
  | inr x =>
      let o := run lib (f x) (world (run lib p w)) in
      {| result := result o; raised := (raised (run lib p w) ++ raised o)%list; world := world o |}
  end.
Proof.
  revert B f w.
  induction p as [R r|R e|X R c k IH|Y R en lv body IHb k IHk|Y R body IHb h IHh k IHk];
    intros B f w; simpl.
  - by destruct (run lib (f r) w).
  - done.
  - destruct (lib X c w) as [[e|x] w']; simpl; [done|]. apply IH.
  - destruct (lib unit en w) as [[e|[]] w']; simpl; [done|].
    destruct (lib unit lv (world (run lib body w'))) as [[e|[]] w'']; simpl; [done|].
    destruct (result (run lib body w')) as [e|y]; simpl; [done|].
    rewrite IHk. destruct (result (run lib (k y) w'')); simpl; [done|].
    by rewrite (assoc_L (++)).
  - destruct (result (run lib body w)) as [e|y]; simpl.
    + destruct (result (run lib (h e) (world (run lib body w)))) as [e'|y]; simpl; [done|].
      rewrite IHk. destruct (result (run lib (k y) _)); simpl; [done|].
      by rewrite !(assoc_L (++)).
    + rewrite IHk. destruct (result (run lib (k y) _)); simpl; [done|].
      by rewrite (assoc_L (++)).
Qed.

(** Without a [try], the exception the library raised last is the one that
    reaches the caller. *)
Lemma last_raised_reaches {R : Type} (p : prog E R) (w : W) (e : exn) :
  try_free p ->
  last (raised (run lib p w)) = Some e -> result (run lib p w) = inl e.
Proof.
  unfold try_free. revert w.
  induction p as [R r|R e0|X R c k IH|Y R en lv body IHb k IHk|Y R body IHb h IHh k IHk];
    intros w Hp; simpl in *.
  - done.
  - done.
  - destruct (lib X c w) as [[e'|x] w']; simpl.
    + by intros [= ->].
    + by apply IH.
  - destruct Hp as (_ & Hbody & Hk).
    destruct (lib unit en w) as [[e'|[]] w']; simpl; [by intros [= ->]|].
    destruct (lib unit lv (world (run lib body w'))) as [[e'|[]] w'']; simpl.
    + rewrite last_snoc. by intros [= ->].
    + destruct (result (run lib body w')) as [e0|y] eqn:Hb; simpl.
      * intros Hl. apply IHb in Hl; [congruence|done].
      * rewrite last_app. destruct (last (raised (run lib (k y) w''))) as [e1|] eqn:Hl1.
        -- intros [= ->]. by apply IHk.
        -- intros Hl. apply IHb in Hl; [congruence|done].
  - done.
Qed.

(** Without a [try], and with [with] blocks whose exit never raises, the
    first exception ends the run: at most one exception is raised, and it
    is the result. *)
Lemma handler_free_one_exception {R : Type} (p : prog E R) (w : W) :
  handler_free (never_raises lib) p ->
  forall e, e ∈ raised (run lib p w) ->
    result (run lib p w) = inl e /\ raised (run lib p w) = [e].
Proof.
  revert w.
  induction p as [R r|R e0|X R c k IH|Y R en lv body IHb k IHk|Y R body IHb h IHh k IHk];
    intros w Hp e; simpl in *.
  - by intros ?%elem_of_nil.
  - by intros ?%elem_of_nil.
  - destruct (lib X c w) as [[e'|x] w']; simpl.
    + by intros ->%list_elem_of_singleton.
    + by apply IH.
  - destruct Hp as (Hlv & Hbody & Hk).
    destruct (lib unit en w) as [[e'|[]] w']; simpl.
    { by intros ->%list_elem_of_singleton. }
    destruct (Hlv (world (run lib body w'))) as [w'' ->]. simpl.
    pose proof (IHb w' Hbody) as Hb.
    destruct (result (run lib body w')) as [e0|y] eqn:Hres; simpl.
    + intros He. destruct (Hb e He) as [[= ->] Hr]. by split.
    + assert (raised (run lib body w') = []) as Hnil.
      { destruct (raised (run lib body w')) as [|e1 l]; [done|].
        destruct (Hb e1) as [[=] _]. by left. }
      rewrite Hnil. simpl. by apply IHk.
  - done.
Qed.

(** A program with neither [with] nor [try] is handler-free, whatever is
    asked of the exits. *)
Lemma straight_handler_free {R : Type} (leave_ok : E unit -> Prop) (p : prog E R) :
  straight p -> handler_free leave_ok p.
Proof.
  induction p as [R r|R e0|X R c k IH|Y R en lv body IHb k IHk|Y R body IHb h IHh k IHk];
    simpl; try done.
  intros Hs x. by apply IH.
Qed.

(** Without [with] and [try] the first exception ends the run. *)
Lemma straight_one_exception {R : Type} (p : prog E R) (w : W) :
  straight p ->
  forall e, e ∈ raised (run lib p w) ->
    result (run lib p w) = inl e /\ raised (run lib p w) = [e].
Proof.
  intros Hs. apply handler_free_one_exception. by apply straight_handler_free.
Qed.

(** A program without [raise] of its own fails only with an exception the
    library raised. *)
Lemma raise_free_from_library {R : Type} (p : prog E R) (w : W) (e : exn) :
  raise_free p -> result (run lib p w) = inl e -> e ∈ raised (run lib p w).
Proof.
  revert w e.
  induction p as [R r|R e0|X R c k IH|Y R en lv body IHb k IHk|Y R body IHb h IHh k IHk];
    intros w e Hf; simpl in *.
  - done.
  - done.
  - destruct (lib X c w) as [[e'|x] w']; simpl.
    + intros [= ->]. apply list_elem_of_singleton. done.
    + by apply IH.
  - destruct Hf as [Hfb Hfk].
    destruct (lib unit en w) as [[e'|[]] w']; simpl.
    { intros [= ->]. by apply list_elem_of_singleton. }
    destruct (lib unit lv (world (run lib body w'))) as [[e'|[]] w'']; simpl.
    { intros [= ->]. apply elem_of_app. right. by apply list_elem_of_singleton. }
    destruct (result (run lib body w')) as [e0|y] eqn:Hb; simpl.
    + intros [= ->]. by apply IHb.
    + intros Hr. apply elem_of_app. right. by apply IHk.
  - destruct Hf as (Hfb & Hfh & Hfk).
    destruct (result (run lib body w)) as [e0|y] eqn:Hb; simpl.
    + destruct (result (run lib (h e0) (world (run lib body w)))) as [e'|y] eqn:Hh; simpl.
      * intros [= ->]. apply elem_of_app. right. by apply IHh.
      * intros Hr. apply elem_of_app. right. apply elem_of_app. right. by apply IHk.
    + intros Hr. apply elem_of_app. right. by apply IHk.
Qed.

(** The property is one of the functions, not of the language: a handler
    that returns a fallback value swallows the exception of the call it
    guards. *)
Lemma try_except_swallows {X : Type} (c : E X) (fallback : X) (w w' : W) (e : exn) :
  lib X c w = (inl e, w') ->
  ¬ unchanged (run lib (TryExcept (call c) (fun _ => Ret fallback) Ret) w)
  /\ ¬ last_reaches (run lib (TryExcept (call c) (fun _ => Ret fallback) Ret) w).
Proof.
  intros Hc. unfold unchanged, last_reaches. simpl. rewrite Hc. simpl. split.
  - intros H. destruct (H e) as [[=] _]. by left.
  - intros H. by specialize (H e eq_refl).
Qed.

End Run.

Lemma straight_bind {E : Type -> Type} {A B : Type} (p : prog E A) (f : A -> prog E B) :
  straight p -> (forall x, straight (f x)) -> straight (bind p f).
Proof.
  revert B f.
  induction p as [R r|R e0|X R c k IH|Y R en lv body IHb k IHk|Y R body IHb h IHh k IHk];
    intros B f Hp Hf; simpl in *.
  - apply Hf.
  - done.
  - intros x. by apply IH.
  - done.
  - done.
Qed.

Lemma handler_free_bind {E : Type -> Type} {A B : Type} (leave_ok : E unit -> Prop)
    (p : prog E A) (f : A -> prog E B) :
  handler_free leave_ok p -> (forall x, handler_free leave_ok (f x)) ->
  handler_free leave_ok (bind p f).
Proof.
  revert B f.
  induction p as [R r|R e0|X R c k IH|Y R en lv body IHb k IHk|Y R body IHb h IHh k IHk];
    intros B f Hp Hf; simpl in *.
  - apply Hf.
  - done.
  - intros x. by apply IH.
  - destruct Hp as (Hlv & Hb & Hk). split_and!; [done|done|]. intros y. by apply IHk.
  - done.
Qed.

Lemma raise_free_bind {E : Type -> Type} {A B : Type} (p : prog E A) (f : A -> prog E B) :
  raise_free p -> (forall x, raise_free (f x)) -> raise_free (bind p f).
Proof.
  revert B f.
  induction p as [R r|R e0|X R c k IH|Y R en lv body IHb k IHk|Y R body IHb h IHh k IHk];
    intros B f Hp Hf; simpl in *.
  - apply Hf.
  - done.
  - intros x. by apply IH.
  - destruct Hp as [Hb Hk]. split; [done|]. intros y. by apply IHk.
  - destruct Hp as (Hb & Hh & Hk). split_and!; [done|done|]. intros y. by apply IHk.
Qed.

End PyFacts.

(** Closes goals [straight p], [handler_free ok p] and [raise_free p] for a
    program written with the bind notation. *)
Ltac prog_shape :=
  repeat first
    [ progress (unfold mbind, prog_bind, mret, prog_ret, Py.call, Py.try_free)
    | apply PyFacts.straight_bind
    | apply PyFacts.handler_free_bind
    | apply PyFacts.raise_free_bind
    | exact I
    | assumption
    | progress intros
    | progress simpl
    | match goal with
      | |- context [match ?x with _ => _ end] => destruct x
      | |- context [if ?b then _ else _] => destruct b
      | |- _ /\ _ => split
      end ].

(** ** Tags and their reduction *)

Module ShellFacts.
Import Shell.

Lemma fields_nonempty (d : ascii) (s : string) : fields d s ≠ [].
Proof.
  destruct s as [|c s]; simpl; [done|].
  destruct (Ascii.eqb c d); [done|]. by destruct (fields d s).
Qed.

(** Every field [cut] sees is free of the delimiter. *)
Lemma fields_dotless (s : string) : Forall (fun f => dotless f = true) (fields "." s).
Proof.
  induction s as [|c s IH]; simpl.
  { by repeat constructor. }
  destruct (Ascii.eqb c ".") eqn:Hc.
  - constructor; [done|done].
  - destruct (fields "." s) as [|w ws].
    { constructor; [simpl; by rewrite Hc|constructor]. }
    apply Forall_cons_1 in IH as [Hw Hws]. constructor; [|done].
    simpl. by rewrite Hc, Hw.
Qed.


Lemma fields_dotless_app (a : string) (rest : string) :
  dotless a = true ->
  fields "." (a ++ String "." rest) = a :: fields "." rest.
Proof.
  induction a as [|c a IH]; simpl; [done|].
  intros [Hc Ha]%andb_true_iff. apply negb_true_iff in Hc. rewrite Hc.
  by rewrite (IH Ha).
Qed.

Lemma fields_dotless_one (a : string) : dotless a = true -> fields "." a = [a].
Proof.
  induction a as [|c a IH]; simpl; [done|].
  intros [Hc Ha]%andb_true_iff. apply negb_true_iff in Hc. rewrite Hc.
  by rewrite (IH Ha).
Qed.

(** Splitting a joined list of dot-free fields gives the list back. *)
Lemma fields_concat (l : list string) :
  l ≠ [] -> Forall (fun f => dotless f = true) l ->
  fields "." (String.concat "." l) = l.
Proof.
  induction l as [|a l IH]; [done|]. intros _ Hall.
  apply Forall_cons_1 in Hall as [Ha Hl].
  destruct l as [|b l].
  { by apply fields_dotless_one. }
  change (String.concat "." (a :: b :: l))
    with (a ++ String "." (String.concat "." (b :: l))).
  rewrite fields_dotless_app by done. f_equal. by apply IH.
Qed.

(** Cutting twice is cutting once. *)
Lemma cut_f1_2_idempotent (s : string) : cut_f1_2 (cut_f1_2 s) = cut_f1_2 s.
Proof.
  unfold cut_f1_2. rewrite fields_concat.
  - by rewrite take_take, Nat.min_id.
  - pose proof (fields_nonempty "." s). by destruct (fields "." s).
  - apply Forall_take, fields_dotless.
Qed.

(** A version of three fields is cut to its first two. *)
Lemma cut_f1_2_patch (a b p : string) :
  dotless a = true -> dotless b = true ->
  cut_f1_2 (a ++ "." ++ b ++ "." ++ p) = a ++ "." ++ b.
Proof.
  intros Ha Hb. unfold cut_f1_2.
  change (a ++ "." ++ b ++ "." ++ p) with (a ++ String "." (b ++ String "." p)).
  rewrite (fields_dotless_app a) by done.
  rewrite (fields_dotless_app b) by done.
  pose proof (fields_nonempty "." p). by destruct (fields "." p).
Qed.

(** A version of two fields, or of one, is left as it is. *)
Lemma cut_f1_2_two (a b : string) :
  dotless a = true -> dotless b = true -> cut_f1_2 (a ++ "." ++ b) = a ++ "." ++ b.
Proof.
  intros Ha Hb. unfold cut_f1_2.
  change (a ++ "." ++ b) with (a ++ String "." b).
  rewrite (fields_dotless_app a) by done. by rewrite (fields_dotless_one b).
Qed.

Lemma cut_f1_2_one (a : string) : dotless a = true -> cut_f1_2 a = a.
Proof. intros Ha. unfold cut_f1_2. by rewrite (fields_dotless_one a). Qed.

(** Without a leading "v" nothing is stripped. *)
Lemma strip_v_plain (s : string) : starts_with "v" s = false -> strip_v s = s.
Proof.
  destruct s as [|c s]; [done|]. cbn [starts_with]. rewrite andb_true_r.
  intros Hc. destruct c as [[] [] [] [] [] [] [] []]; try reflexivity. discriminate Hc.
Qed.

(** A leading "v" goes through the cut. *)
Lemma cut_f1_2_v (s : string) : cut_f1_2 (String "v" s) = String "v" (cut_f1_2 s).
Proof.
  unfold cut_f1_2. simpl.
  pose proof (fields_nonempty "." s) as Hne.
  destruct (fields "." s) as [|w ws]; [done|]. simpl.
  destruct ws as [|w' ws]; simpl; [done|]. done.
Qed.

Lemma append_assoc (a b c : string) : (a ++ b) ++ c = a ++ (b ++ c).
Proof.
  induction a as [|x a IH]; [done|].
  change ((String x a ++ b) ++ c) with (String x ((a ++ b) ++ c)).
  change (String x a ++ (b ++ c)) with (String x (a ++ (b ++ c))). by rewrite IH.
Qed.

End ShellFacts.

(** ** The scheduling rule *)

Module ActionsFacts.
Import Actions.

Section Engine.
Variable r : runner.
Variable inputs : gmap string value.

Lemma run_jobs_cons (j : job) (js : list job) (st : run_state) :
  run_jobs r inputs (j :: js) st = run_jobs r inputs js (run_job r inputs st j).
Proof. reflexivity. Qed.

(** A job records its own conclusion and touches no other. *)
Lemma run_job_other (st : run_state) (j : job) (k : string) :
  k ≠ job_id j -> (results (run_job r inputs st j) !! k = results st !! k).
Proof.
  intros Hk. unfold run_job.
  destruct (needs_succeeded st j && cond_holds _ (job_if j)); simpl.
  - destruct (job_body j) as [ss|path]; simpl.
    + destruct (run_steps r _ (job_id j) 0 ss) as [[tr ok] outs]. simpl.
      by rewrite lookup_insert_ne.
    + by rewrite lookup_insert_ne.
  - by rewrite lookup_insert_ne.
Qed.

Lemma run_job_self (st : run_state) (j : job) :
  exists c, results (run_job r inputs st j) !! job_id j = Some c
    /\ (c ≠ Skipped ->
        needs_succeeded st j = true
        /\ cond_holds {| ctx_inputs := inputs; ctx_needs := job_needs j;
                         ctx_outputs := outputs st |} (job_if j) = true).
Proof.
  unfold run_job.
  destruct (needs_succeeded st j) eqn:Hn, (cond_holds _ (job_if j)) eqn:Hc; simpl;
    try (exists Skipped; rewrite lookup_insert_eq; by split).
  destruct (job_body j) as [ss|path]; simpl.
  - destruct (run_steps r _ (job_id j) 0 ss) as [[tr ok] outs]. simpl.
    eexists. rewrite lookup_insert_eq. by split.
  - eexists. rewrite lookup_insert_eq. by split.
Qed.

Lemma needs_succeeded_spec (st : run_state) (j : job) (n : string) :
  needs_succeeded st j = true -> n ∈ job_needs j -> results st !! n = Some Success.
Proof.
  unfold needs_succeeded. rewrite forallb_forall. intros H Hn.
  apply list_elem_of_In in Hn. apply H in Hn. by apply bool_decide_eq_true in Hn.
Qed.

Lemma well_ordered_cons (seen : list string) (j : job) (js : list job) :
  well_ordered seen (j :: js) = true ->
  (forall n, n ∈ job_needs j -> n ∈ seen) /\ (job_id j ∉ seen)
  /\ well_ordered (job_id j :: seen) js = true.
Proof.
  simpl. rewrite !andb_true_iff, forallb_forall, bool_decide_eq_true.
  intros [[Hn Hid] Hw]. split_and!; [|done..].
  intros n Hin. apply list_elem_of_In in Hin. apply Hn in Hin.
  by apply bool_decide_eq_true in Hin.
Qed.

(** Once a job has concluded, later jobs leave its conclusion alone. *)
Lemma results_stable (js : list job) (seen : list string) (st : run_state) (k : string) :
  well_ordered seen js = true -> k ∈ seen ->
  results (run_jobs r inputs js st) !! k = results st !! k.
Proof.
  revert seen st. induction js as [|j js IH]; intros seen st Hw Hk; [done|].
  apply well_ordered_cons in Hw as (_ & Hid & Hw).
  rewrite run_jobs_cons, (IH (job_id j :: seen)); [|done|set_solver].
  apply run_job_other. intros ->. done.
Qed.

(** Every job of the workflow concludes. *)
Lemma job_concludes (js : list job) (seen : list string) (st : run_state) (j : job) :
  well_ordered seen js = true -> j ∈ js ->
  exists c, results (run_jobs r inputs js st) !! job_id j = Some c.
Proof.
  revert seen st. induction js as [|j0 js IH]; intros seen st Hw Hj.
  { by apply elem_of_nil in Hj. }
  pose proof Hw as Hw0.
  apply well_ordered_cons in Hw as (_ & Hid & Hw).
  rewrite run_jobs_cons. apply elem_of_cons in Hj as [->|Hj].
  - rewrite (results_stable js (job_id j0 :: seen)); [|done|set_solver].
    destruct (run_job_self st j0) as (c & Hc & _). eauto.
  - by eapply IH.
Qed.

(** A job that ran did so with every job it needs concluded in success. *)
Lemma needs_respected (js : list job) (seen : list string) (st : run_state) (j : job) (n : string) :
  well_ordered seen js = true -> j ∈ js -> n ∈ job_needs j ->
  ran (run_jobs r inputs js st) (job_id j) ->
  results (run_jobs r inputs js st) !! n = Some Success.
Proof.
  revert seen st. induction js as [|j0 js IH]; intros seen st Hw Hj Hn Hran.
  { by apply elem_of_nil in Hj. }
  pose proof Hw as Hw0.
  apply well_ordered_cons in Hw as (Hneeds & Hid & Hw).
  apply elem_of_cons in Hj as [->|Hj]; [|by eapply IH].
  assert (forall k, k ∈ job_id j0 :: seen ->
    results (run_jobs r inputs js (run_job r inputs st j0)) !! k
    = results (run_job r inputs st j0) !! k) as Hst
    by (intros; by eapply results_stable).
  destruct (run_job_self st j0) as (c & Hc & Hrun).
  assert (results (run_jobs r inputs (j0 :: js) st) !! job_id j0 = Some c) as Hfin.
  { rewrite run_jobs_cons, Hst; [done|]. apply elem_of_cons. by left. }
  assert (c ≠ Skipped) as Hne by (destruct Hran as [Hr|Hr]; congruence).
  rewrite run_jobs_cons, Hst.
  2:{ apply elem_of_cons. right. by apply Hneeds. }
  destruct (Hrun Hne) as [Hns _].
  rewrite run_job_other.
  - by eapply needs_succeeded_spec.
  - intros ->. apply Hid. by apply Hneeds.
Qed.

(** A job that did not run was skipped. *)
Lemma not_ran_skipped (js : list job) (seen : list string) (st : run_state) (j : job) :
  well_ordered seen js = true -> j ∈ js ->
  ¬ ran (run_jobs r inputs js st) (job_id j) ->
  results (run_jobs r inputs js st) !! job_id j = Some Skipped.
Proof.
  intros Hw Hj Hnr. destruct (job_concludes js seen st j Hw Hj) as [c Hc].
  rewrite Hc. unfold ran in Hnr. rewrite Hc in Hnr.
  destruct c; [exfalso; apply Hnr; by left|exfalso; apply Hnr; by right|done].
Qed.

End Engine.

(** Whatever a job depends on, directly or not: unless that job concluded
    in success, the dependent job is skipped. *)
Lemma dependents_skipped (r : runner) (inputs : gmap string value) (wf : workflow) (a b : string) :
  well_ordered [] (wf_jobs wf) = true ->
  depends wf a b ->
  results (run_workflow r inputs wf) !! b ≠ Some Success ->
  results (run_workflow r inputs wf) !! a = Some Skipped.
Proof.
  intros Hw Hd. induction Hd as [j b Hj Hb|j m b Hj Hm Hd IH]; intros Hfail.
  - apply (not_ran_skipped r inputs _ [] _ j Hw Hj). intros Hran.
    apply Hfail. by eapply needs_respected.
  - apply (not_ran_skipped r inputs _ [] _ j Hw Hj). intros Hran.
    specialize (IH Hfail).
    pose proof (needs_respected r inputs _ [] init_state j m Hw Hj Hm Hran) as Hs.
    unfold run_workflow in IH. congruence.
Qed.

End ActionsFacts.

Module TraceFacts.
Import Actions ActionsFacts.

Section Steps.
Variable r : runner.
Variable ctx : context.
Variable j : string.

(** Every event of a job's steps is a step of that job whose [if:] held. *)
Lemma run_steps_events (ss : list step) (idx : nat) (e : event) :
  e ∈ (run_steps r ctx j idx ss).1.1 ->
  exists s ok, e = StepRun j (step_name s) ok /\ s ∈ ss
    /\ cond_holds ctx (step_if s) = true.
Proof.
  revert idx. induction ss as [|s ss IH]; intros idx; simpl.
  { by intros ?%elem_of_nil. }
  destruct (cond_holds ctx (step_if s)) eqn:Hc.
  - destruct (sr_ok (exec_step r j idx) || step_continue_on_error s).
    + specialize (IH (S idx)).
      destruct (run_steps r ctx j (S idx) ss) as [[tr ok] outs]. simpl in *.
      intros [->|He]%elem_of_cons.
      * exists s, (sr_ok (exec_step r j idx)). split_and!; [done| |done]. by left.
      * destruct (IH He) as (s' & ok' & -> & Hs' & Hc'). exists s', ok'.
        split_and!; [done| |done]. by right.
    + simpl. intros ->%list_elem_of_singleton. exists s, false.
      split_and!; [done| |done]. by left.
  - intros He. destruct (IH _ He) as (s' & ok' & -> & Hs' & Hc'). exists s', ok'.
    split_and!; [done| |done]. by right.
Qed.

(** When no step is marked continue-on-error, a failed step is the last
    event of the job's steps and the job has failed. *)
Lemma run_steps_strict (ss : list step) (idx i : nat) (n : string) :
  strict ss ->
  (run_steps r ctx j idx ss).1.1 !! i = Some (StepRun j n false) ->
  (run_steps r ctx j idx ss).1.2 = false
  /\ length (run_steps r ctx j idx ss).1.1 = S i.
Proof.
  revert idx i. induction ss as [|s ss IH]; intros idx i Hs; simpl.
  { done. }
  assert (strict ss) as Hs' by (intros s' ?; apply Hs; by right).
  assert (step_continue_on_error s = false) as Hcs by (apply Hs; by left).
  destruct (cond_holds ctx (step_if s)) eqn:Hc; [|by apply IH].
  rewrite Hcs, orb_false_r.
  destruct (sr_ok (exec_step r j idx)) eqn:Hok.
  - specialize (IH (S idx)).
    destruct (run_steps r ctx j (S idx) ss) as [[tr ok] outs]. simpl in *.
    destruct i as [|i]; simpl; [done|].
    intros Hi. destruct (IH i Hs' Hi) as [-> ->]. done.
  - simpl. destruct i as [|i]; simpl; [done|]. done.
Qed.

(** A step that succeeded, or the conclusion: the flag follows the trace. *)
Lemma run_steps_ok_false (ss : list step) (idx : nat) :
  (run_steps r ctx j idx ss).1.2 = false ->
  exists n, last (run_steps r ctx j idx ss).1.1 = Some (StepRun j n false).
Proof.
  revert idx. induction ss as [|s ss IH]; intros idx; simpl; [done|].
  destruct (cond_holds ctx (step_if s)); [|by apply IH].
  destruct (sr_ok (exec_step r j idx) || step_continue_on_error s).
  - specialize (IH (S idx)).
    destruct (run_steps r ctx j (S idx) ss) as [[tr ok] outs]. simpl in *.
    intros Hok. destruct (IH Hok) as [n Hn]. exists n.
    destruct tr; [done|]. done.
  - simpl. eauto.
Qed.

End Steps.

Section Jobs.
Variable r : runner.
Variable inputs : gmap string value.

(** What one job adds to the trace. *)
Lemma run_job_trace (st : run_state) (j : job) :
  exists seg c,
    trace (run_job r inputs st j) = (trace st ++ seg ++ [JobDone (job_id j) c])%list
    /\ results (run_job r inputs st j) !! job_id j = Some c
    /\ (forall i k n ok, seg !! i = Some (StepRun k n ok) ->
          k = job_id j
          /\ needs_succeeded st j = true
          /\ (exists s outs, s ∈ steps_of j /\ step_name s = n
                /\ cond_holds {| ctx_inputs := inputs; ctx_needs := job_needs j;
                                 ctx_outputs := outs |} (step_if s) = true)
          /\ (ok = false -> strict (steps_of j) -> c = Failure /\ length seg = S i))
    /\ (forall e, e ∈ seg -> exists k n ok, e = StepRun k n ok)
    /\ (c ≠ Skipped -> needs_succeeded st j = true).
Proof.
  unfold run_job.
  set (ctx := {| ctx_inputs := inputs; ctx_needs := job_needs j; ctx_outputs := outputs st |}).
  destruct (needs_succeeded st j) eqn:Hn, (cond_holds ctx (job_if j)) eqn:Hc; simpl;
    try (exists [], Skipped; simpl; rewrite lookup_insert_eq; split_and!; try done;
         by intros ? ?%elem_of_nil).
  unfold steps_of. destruct (job_body j) as [ss|path]; simpl.
  - pose proof (run_steps_events r ctx (job_id j) ss 0) as Hev.
    pose proof (run_steps_strict r ctx (job_id j) ss 0) as Hst.
    destruct (run_steps r ctx (job_id j) 0 ss) as [[tr ok] outs]. simpl in *.
    exists tr, (if ok then Success else Failure). rewrite lookup_insert_eq.
    split_and!; try done.
    + intros i k n okk Hi.
      destruct (Hev (StepRun k n okk)) as (s & ok' & [= -> -> ->] & Hs & Hcs).
      { by eapply list_elem_of_lookup_2. }
      split_and!; try done.
      * exists s, (outputs st). done.
      * intros -> Hstrict. destruct (Hst i (step_name s) Hstrict Hi) as [-> Hlen]. done.
    + intros e He. destruct (Hev e He) as (s & ok' & -> & _). eauto.
  - exists [], (if exec_call r (job_id j) then Success else Failure).
    simpl. rewrite lookup_insert_eq. split_and!; try done.
    by intros ? ?%elem_of_nil.
Qed.

Lemma run_job_consistent (st : run_state) (j : job) :
  consistent st -> consistent (run_job r inputs st j).
Proof.
  intros Hcons n Hn.
  destruct (run_job_trace st j) as (seg & c & Htr & Hc & _).
  rewrite Htr. destruct (decide (n = job_id j)) as [->|Hne].
  - rewrite Hc in Hn. injection Hn as ->. rewrite !elem_of_app. right. right.
    by apply list_elem_of_singleton.
  - rewrite run_job_other in Hn by done. apply elem_of_app. left. by apply Hcons.
Qed.


(** The trace of a run: every step event belongs to a job of the workflow
    whose needed jobs are reported done, in success, earlier in the trace;
    the step's [if:] held; and a failed step of a job without
    continue-on-error is followed at once by the job's failure. *)
Lemma run_jobs_trace (js : list job) (seen : list string) (st : run_state) :
  well_ordered seen js = true -> consistent st ->
  exists seg,
    trace (run_jobs r inputs js st) = (trace st ++ seg)%list
    /\ consistent (run_jobs r inputs js st)
    /\ forall i k n ok, seg !! i = Some (StepRun k n ok) ->
        exists j, j ∈ js /\ job_id j = k
          /\ (forall need, need ∈ job_needs j ->
                JobDone need Success ∈ (trace st ++ take i seg)%list)
          /\ (exists s outs, s ∈ steps_of j /\ step_name s = n
                /\ cond_holds {| ctx_inputs := inputs; ctx_needs := job_needs j;
                                 ctx_outputs := outs |} (step_if s) = true)
          /\ (ok = false -> strict (steps_of j) ->
                results (run_jobs r inputs js st) !! k = Some Failure
                /\ seg !! S i = Some (JobDone k Failure)).
Proof.
  revert seen st. induction js as [|j0 js IH]; intros seen st Hw Hcons.
  { exists []. simpl. rewrite app_nil_r. split_and!; [done..|]. by intros. }
  pose proof Hw as Hw0.
  apply well_ordered_cons in Hw as (Hneeds & Hid & Hw).
  destruct (run_job_trace st j0) as (seg0 & c & Htr0 & Hc & Hsteps & Hkind & Hactive).
  destruct (IH (job_id j0 :: seen) (run_job r inputs st j0) Hw
              (run_job_consistent st j0 Hcons)) as (seg' & Htr' & Hcons' & Hev').
  exists ((seg0 ++ [JobDone (job_id j0) c]) ++ seg')%list.
  rewrite run_jobs_cons. split_and!.
  - rewrite Htr', Htr0. by rewrite !(assoc_L (++)).
  - done.
  - intros i k n ok Hi. apply lookup_app_Some in Hi as [Hi|[Hlen Hi]].
    + apply lookup_app_Some in Hi as [Hi|[Hlen Hi]].
      2:{ apply list_lookup_singleton_Some in Hi as [_ [=]]. }
      destruct (Hsteps i k n ok Hi) as (-> & Hns & Hs & Hfail).
      exists j0. split_and!; [by left|done| |done|].
      * intros need Hneed. apply elem_of_app. left. apply Hcons.
        by eapply needs_succeeded_spec.
      * intros -> Hstrict. destruct (Hfail eq_refl Hstrict) as [-> Hlen].
        split.
        -- rewrite (results_stable r inputs js (job_id j0 :: seen)); [done|done|by left].
        -- rewrite lookup_app_l by (rewrite length_app; simpl; lia).
           rewrite lookup_app_r by lia. by rewrite Hlen, Nat.sub_diag.
    + destruct (Hev' _ k n ok Hi) as (j & Hj & <- & Hn & Hs & Hfail).
      exists j. split_and!; [by right|done| |done|].
      * intros need Hneed. specialize (Hn need Hneed).
        rewrite Htr0 in Hn. rewrite take_app_ge by done.
        by rewrite !(assoc_L (++)) in *.
      * intros -> Hstrict. destruct (Hfail eq_refl Hstrict) as [Hres Hnext].
        split; [done|].
        rewrite lookup_app_r by lia.
        by replace (S i - length (seg0 ++ [JobDone (job_id j0) c])%list)%nat
          with (S (i - length (seg0 ++ [JobDone (job_id j0) c])%list)) by lia.
Qed.

(** A job's conclusion, when it is not a skip, comes after the success of
    every job it needs. *)
Lemma run_jobs_done (js : list job) (seen : list string) (st : run_state) (seg : list event) :
  well_ordered seen js = true -> consistent st ->
  trace (run_jobs r inputs js st) = (trace st ++ seg)%list ->
  forall i k c, seg !! i = Some (JobDone k c) -> c ≠ Skipped ->
    exists j, j ∈ js /\ job_id j = k
      /\ forall need, need ∈ job_needs j ->
           JobDone need Success ∈ (trace st ++ take i seg)%list.
Proof.
  revert seen st seg. induction js as [|j0 js IH]; intros seen st seg Hw Hcons Hseg i k c Hi Hne.
  { simpl in Hseg. rewrite <- (app_nil_r (trace st)) in Hseg at 1.
    apply app_inv_head in Hseg as <-. done. }
  pose proof Hw as Hw0.
  apply well_ordered_cons in Hw as (Hneeds & Hid & Hw).
  destruct (run_job_trace st j0) as (seg0 & c0 & Htr0 & Hc & Hsteps & Hkind & Hactive).
  destruct (run_jobs_trace js (job_id j0 :: seen) (run_job r inputs st j0) Hw
              (run_job_consistent st j0 Hcons)) as (seg' & Htr' & _).
  rewrite run_jobs_cons, Htr', Htr0, <- !(assoc_L (++)) in Hseg.
  apply app_inv_head in Hseg as <-.
  apply lookup_app_Some in Hi as [Hi|[Hlen Hi]].
  - apply list_elem_of_lookup_2, Hkind in Hi as (? & ? & ? & [=]).
  - apply lookup_app_Some in Hi as [Hi|[Hlen' Hi]].
    + apply list_lookup_singleton_Some in Hi as [_ [= <- <-]].
      exists j0. split_and!; [by left|done|].
      intros need Hneed. apply elem_of_app. left. apply Hcons.
      eapply needs_succeeded_spec; [by apply Hactive|done].
    + simpl in Hlen', Hi.
      destruct (IH (job_id j0 :: seen) (run_job r inputs st j0) seg' Hw
                  (run_job_consistent st j0 Hcons) Htr' _ k c Hi Hne)
        as (j & Hj & <- & Hn).
      exists j. split_and!; [by right|done|].
      intros need Hneed. specialize (Hn need Hneed). rewrite Htr0 in Hn.
      rewrite take_app_ge by lia. rewrite take_app_ge by (simpl; lia).
      simpl. by rewrite <- !(assoc_L (++)) in Hn.
Qed.

Lemma init_consistent : consistent init_state.
Proof. intros n Hn. simpl in Hn. by rewrite lookup_empty in Hn. Qed.

End Jobs.

(** A skipped job adds nothing but its conclusion to the trace. *)
Lemma run_job_skipped_trace (r : runner) (inputs : gmap string value) (st : run_state) (j : job) :
  results (run_job r inputs st j) !! job_id j = Some Skipped ->
  trace (run_job r inputs st j) = (trace st ++ [JobDone (job_id j) Skipped])%list.
Proof.
  unfold run_job.
  destruct (needs_succeeded st j && cond_holds _ (job_if j)); [|done].
  destruct (job_body j) as [ss|path].
  - destruct (run_steps r _ (job_id j) 0 ss) as [[tr ok] outs]. cbn [results trace].
    rewrite lookup_insert_eq. by destruct ok.
  - cbn [results trace]. rewrite lookup_insert_eq. by destruct (exec_call r (job_id j)).
Qed.

(** A step in the trace belongs to a job that ran, and whose [if:] held. *)
Lemma run_jobs_step_ran (r : runner) (inputs : gmap string value)
    (js : list job) (seen : list string) (st : run_state) (seg : list event) :
  well_ordered seen js = true ->
  trace (run_jobs r inputs js st) = (trace st ++ seg)%list ->
  forall i k n ok, seg !! i = Some (StepRun k n ok) ->
    exists j, j ∈ js /\ job_id j = k
      /\ ran (run_jobs r inputs js st) k
      /\ exists outs, cond_holds {| ctx_inputs := inputs; ctx_needs := job_needs j;
                                    ctx_outputs := outs |} (job_if j) = true.
Proof.
  revert seen st seg. induction js as [|j0 js IH]; intros seen st seg Hw Hseg i k n ok Hi.
  { simpl in Hseg. rewrite <- (app_nil_r (trace st)) in Hseg at 1.
    apply app_inv_head in Hseg as <-. done. }
  pose proof Hw as Hw0.
  apply well_ordered_cons in Hw as (Hneeds & Hid & Hw).
  destruct (run_job_trace r inputs st j0) as (seg0 & c & Htr0 & Hc & Hsteps & Hkind & Hactive).
  assert (exists seg', trace (run_jobs r inputs js (run_job r inputs st j0))
                       = (trace (run_job r inputs st j0) ++ seg')%list) as [seg' Htr'].
  { clear. generalize (run_job r inputs st j0). induction js as [|j js IHjs]; intros s.
    - exists []. by rewrite app_nil_r.
    - rewrite run_jobs_cons. destruct (IHjs (run_job r inputs s j)) as [seg' ->].
      destruct (run_job_trace r inputs s j) as (sg & c & -> & _).
      eexists. by rewrite <- !(assoc_L (++)). }
  rewrite run_jobs_cons, Htr', Htr0, <- !(assoc_L (++)) in Hseg.
  apply app_inv_head in Hseg as <-.
  apply lookup_app_Some in Hi as [Hi|[Hlen Hi]].
  - destruct (Hsteps i k n ok Hi) as (-> & _).
    assert (c ≠ Skipped) as Hne.
    { intros ->. pose proof (run_job_skipped_trace r inputs st j0 Hc) as Hsk.
      rewrite Htr0 in Hsk. apply app_inv_head in Hsk.
      destruct seg0; [done|]. destruct seg0; done. }
    destruct (run_job_self r inputs st j0) as (c' & Hc' & Hrun).
    assert (c' = c) as -> by congruence.
    destruct (Hrun Hne) as [_ Hcond].
    exists j0. split_and!; [by left|done| |by eexists].
    unfold ran. rewrite run_jobs_cons.
    rewrite (results_stable r inputs js (job_id j0 :: seen)); [|done|by left].
    rewrite Hc. destruct c; [by left|by right|done].
  - apply lookup_app_Some in Hi as [Hi|[Hlen' Hi]].
    { apply list_lookup_singleton_Some in Hi as [_ [=]]. }
    destruct (IH (job_id j0 :: seen) (run_job r inputs st j0) seg' Hw Htr' _ k n ok Hi)
      as (j & Hj & <- & Hran & Hcond).
    exists j. split_and!; [by right|done|by rewrite run_jobs_cons|done].
Qed.
End TraceFacts.

(** ** The Deploy On Release and Publish Website workflows *)

Module WorkflowFacts.
Import Shell Actions ActionsFacts TraceFacts Workflows Scripts.

Lemma deploy_on_release_well_ordered : well_ordered [] (wf_jobs deploy_on_release) = true.
Proof. reflexivity. Qed.

Lemma publish_website_well_ordered : well_ordered [] (wf_jobs publish_website) = true.
Proof. reflexivity. Qed.

(** Outputs a step wrote under another id are not the ones looked up. *)
Lemma lookup_assoc_other (s : step) (res : step_result) (k : string * string)
    (l : list ((string * string) * string)) :
  step_id s ≠ fst k -> lookup_assoc k (step_outputs s res ++ l) = lookup_assoc k l.
Proof.
  intros Hne. unfold lookup_assoc, step_outputs.
  induction (sr_outputs res) as [|kv kvs IH]; simpl; [done|].
  destruct (decide (_ = k)) as [Heq|_].
  { destruct k. simpl in *. congruence. }
  destruct (list_find _ (_ ++ l)) as [[i kv']|] eqn:Hf; simpl in *.
  - destruct (list_find _ l) as [[i' kv'']|]; simpl in *; congruence.
  - destruct (list_find _ l) as [[i' kv'']|]; simpl in *; congruence.
Qed.

Lemma run_job_outputs_reusable (r : runner) (inputs : gmap string value) (st : run_state) (j : job) :
  job_outputs j = [] -> outputs (run_job r inputs st j) = outputs st.
Proof.
  intros Ho. unfold run_job.
  destruct (needs_succeeded st j && cond_holds _ (job_if j)); [|done].
  destruct (job_body j) as [ss|p]; [|done].
  destruct (run_steps r _ (job_id j) 0 ss) as [[tr ok] outs]. simpl.
  unfold declared_outputs. by rewrite Ho.
Qed.

Lemma check_versions_declared (outs : list ((string * string) * string))
    (m : gmap (string * string) string) :
  declared_outputs check_versions outs m !! ("check-versions", "major_minor_changed")
  = Some (lookup_assoc ("compare", "major_minor_changed") outs).
Proof. unfold declared_outputs. simpl. by rewrite lookup_insert_eq. Qed.

(** What the steps of [check-versions] leave in the step output the job
    reads: nothing, or "true" and then the two reduced tags differ. *)
Lemma check_versions_steps (rel : release) (other : runner) (ctx : context) :
  let outs := (run_steps (release_runner rel other) ctx "check-versions" 0
                 (steps_of check_versions)).2 in
  lookup_assoc ("compare", "major_minor_changed") outs = ""
  \/ (lookup_assoc ("compare", "major_minor_changed") outs = "true"
      /\ exists previous_version, git_describe rel = Some previous_version
         /\ major_minor previous_version ≠ major_minor (tag_name rel)).
Proof.
  assert (forall res l, lookup_assoc ("compare", "major_minor_changed")
            (step_outputs (plain_step "actions/checkout@v4" (Uses "actions/checkout@v4")) res ++ l)
          = lookup_assoc ("compare", "major_minor_changed") l) as Hskip
    by (intros; by apply lookup_assoc_other).
  assert (forall res, lookup_assoc ("compare", "major_minor_changed")
            (step_outputs (plain_step "actions/checkout@v4" (Uses "actions/checkout@v4")) res)
          = "") as Hskip0.
  { intros res. rewrite <- (app_nil_r (step_outputs _ _)). by rewrite Hskip. }
  simpl. rewrite !orb_false_r.
  destruct (sr_ok (exec_step other "check-versions" 0)); simpl; [|left; apply Hskip0].
  unfold compare_script.
  destruct (fetch_ok rel); simpl; [|left; by rewrite Hskip].
  destruct (git_describe rel) as [previous_version|]; simpl; [|left; by rewrite Hskip].
  destruct (String.eqb_spec (strip_v (cut_f1_2 previous_version))
              (strip_v (cut_f1_2 (tag_name rel)))) as [Heq|Hne]; simpl.
  - left. by rewrite Hskip.
  - right. split; [by rewrite Hskip|]. by exists previous_version.
Qed.

(** The output of [check-versions], once the job has been scheduled: unset
    (absent or empty), or "true" and then the two reduced tags differ. *)
Lemma check_versions_output (rel : release) (other : runner) (inputs : gmap string value)
    (st : run_state) :
  outputs st !! ("check-versions", "major_minor_changed") = None ->
  let st' := run_job (release_runner rel other) inputs st check_versions in
  outputs st' !! ("check-versions", "major_minor_changed") = None
  \/ outputs st' !! ("check-versions", "major_minor_changed") = Some ""
  \/ (outputs st' !! ("check-versions", "major_minor_changed") = Some "true"
      /\ exists previous_version, git_describe rel = Some previous_version
         /\ major_minor previous_version ≠ major_minor (tag_name rel)).
Proof.
  intros Hnone st'. subst st'. unfold run_job.
  destruct (needs_succeeded st check_versions && cond_holds _ (job_if check_versions));
    [|by left].
  change (job_body check_versions) with (Steps (steps_of check_versions)).
  cbv iota beta.
  pose proof (check_versions_steps rel other
    {| ctx_inputs := inputs; ctx_needs := job_needs check_versions;
       ctx_outputs := outputs st |}) as Hsteps.
  change (job_id check_versions) with "check-versions".
  destruct (run_steps _ _ "check-versions" 0 (steps_of check_versions)) as [[tr ok] outs].
  cbn [outputs]. rewrite check_versions_declared. simpl in Hsteps.
  destruct Hsteps as [->|[-> Hd]]; [by right; left|by right; right].
Qed.



(** Membership of a listed element. *)
Ltac in_list := repeat first [apply list_elem_of_here | apply list_elem_of_further].

(** Picks the job of a concrete workflow that carries a given id. *)
Ltac pick_job Hj Hid :=
  cbn [wf_jobs deploy_on_release publish_website] in Hj;
  repeat (apply elem_of_cons in Hj as [->|Hj];
          [try solve [exfalso; vm_compute in Hid; discriminate Hid]|]);
  try (by apply elem_of_nil in Hj).

(** C3 -- Deploy On Release orders its jobs by [needs] alone: the package
    job runs only after the test job succeeded, [check-versions] only after
    the package job succeeded, and the website job only after
    [check-versions] succeeded with its output [major_minor_changed] equal
    to "true"; every step of the package job, "Deploy to PyPI" among them,
    comes after the test job's success in the trace. *)
Theorem deploy_on_release_ordering (rel : release) (other : runner)
    (inputs : gmap string value) :
  let st := run_workflow (release_runner rel other) inputs deploy_on_release in
  map (fun j => (job_id j, job_needs j, job_if j)) (wf_jobs deploy_on_release)
  = [ ("tests-and-coverage", [], None);
      ("package-deploy-pypi", ["tests-and-coverage"], None);
      ("check-versions", ["package-deploy-pypi"], None);
      ("version-and-publish-website", ["check-versions"],
       Some (EEq (ENeedsOutput "check-versions" "major_minor_changed") (ELit "true"))) ]
  /\ (ran st "package-deploy-pypi" -> results st !! "tests-and-coverage" = Some Success)
  /\ (ran st "check-versions" -> results st !! "package-deploy-pypi" = Some Success)
  /\ (ran st "version-and-publish-website" ->
        results st !! "check-versions" = Some Success
        /\ outputs st !! ("check-versions", "major_minor_changed") = Some "true"
        /\ exists previous_version, git_describe rel = Some previous_version
             /\ major_minor previous_version ≠ major_minor (tag_name rel))
  /\ (forall i n ok, trace st !! i = Some (StepRun "package-deploy-pypi" n ok) ->
        JobDone "tests-and-coverage" Success ∈ take i (trace st))
  /\ (forall i n ok, trace st !! i = Some (StepRun "check-versions" n ok) ->
        JobDone "package-deploy-pypi" Success ∈ take i (trace st))
  /\ (forall i c, trace st !! i = Some (JobDone "version-and-publish-website" c) ->
        c ≠ Skipped -> JobDone "check-versions" Success ∈ take i (trace st)).
Proof.
  intros st. set (r := release_runner rel other) in *.
  pose proof deploy_on_release_well_ordered as Hwo.
  assert (forall j n, j ∈ wf_jobs deploy_on_release -> n ∈ job_needs j ->
            ran st (job_id j) -> results st !! n = Some Success) as Hneeds.
  { intros j n Hj Hn Hran. by eapply (needs_respected r inputs _ [] init_state j n). }
  destruct (run_jobs_trace r inputs _ [] init_state Hwo init_consistent)
    as (seg & Htr & _ & Hsteps).
  pose proof (run_jobs_done r inputs _ [] init_state seg Hwo init_consistent Htr) as Hdone.
  change (trace init_state ++ seg)%list with seg in Htr, Hsteps, Hdone.
  change (trace (run_jobs r inputs (wf_jobs deploy_on_release) init_state))
    with (trace st) in Htr.
  set (st2 := run_job r inputs (run_job r inputs init_state tests_and_coverage)
                package_deploy_pypi).
  set (st3 := run_job r inputs st2 check_versions).
  assert (st = run_job r inputs st3 version_and_publish_website) as Hst by reflexivity.
  clearbody st.
  split_and!.
  - reflexivity.
  - apply (Hneeds package_deploy_pypi); in_list.
  - apply (Hneeds check_versions); in_list.
  - intros Hran. split.
    { apply (Hneeds version_and_publish_website); [in_list|in_list|done]. }
    destruct (run_job_self r inputs st3 version_and_publish_website) as (c & Hc & Hrun).
    rewrite <- Hst in Hc.
    change (job_id version_and_publish_website) with "version-and-publish-website" in Hc.
    destruct Hrun as [_ Hcond].
    { unfold ran in Hran. rewrite Hc in Hran. destruct Hran as [Hr|Hr]; congruence. }
    rewrite Hst, run_job_outputs_reusable by done.
    assert (outputs st2 !! ("check-versions", "major_minor_changed") = None) as Hnone.
    { unfold st2. rewrite !run_job_outputs_reusable by done. apply lookup_empty. }
    change (job_if version_and_publish_website)
      with (Some (EEq (ENeedsOutput "check-versions" "major_minor_changed") (ELit "true")))
      in Hcond.
    cbn [cond_holds eval ctx_needs ctx_outputs job_needs version_and_publish_website] in Hcond.
    rewrite bool_decide_eq_true_2 in Hcond by in_list.
    destruct (check_versions_output rel other inputs st2 Hnone) as [Ho|[Ho|[Ho Hd]]];
      fold r in Ho; fold st3 in Ho; rewrite Ho in Hcond.
    + vm_compute in Hcond. discriminate Hcond.
    + vm_compute in Hcond. discriminate Hcond.
    + done.
  - intros i n ok Hi. rewrite Htr in Hi |- *.
    destruct (Hsteps i _ n ok Hi) as (j & Hj & Hid & Hn & _).
    pick_job Hj Hid. apply (Hn "tests-and-coverage"). in_list.
  - intros i n ok Hi. rewrite Htr in Hi |- *.
    destruct (Hsteps i _ n ok Hi) as (j & Hj & Hid & Hn & _).
    pick_job Hj Hid. apply (Hn "package-deploy-pypi"). in_list.
  - intros i c Hi Hc. rewrite Htr in Hi |- *.
    destruct (Hdone i _ c Hi Hc) as (j & Hj & Hid & Hn).
    pick_job Hj Hid. apply (Hn "check-versions"). in_list.
Qed.

End WorkflowFacts.

Module WorkflowClaims.
Import Shell Actions ActionsFacts TraceFacts Workflows Scripts WorkflowFacts.

(** When every step of [check-versions] succeeded, the step output the job
    reads is the one the compare script wrote. *)
Lemma check_versions_steps_ok (rel : release) (other : runner) (ctx : context) :
  (run_steps (release_runner rel other) ctx "check-versions" 0 (steps_of check_versions)).1.2
    = true ->
  lookup_assoc ("compare", "major_minor_changed")
    (run_steps (release_runner rel other) ctx "check-versions" 0 (steps_of check_versions)).2
  = major_minor_changed (compare_script (fetch_ok rel) (git_describe rel) (tag_name rel)).
Proof.
  simpl. rewrite !orb_false_r.
  destruct (sr_ok (exec_step other "check-versions" 0)); simpl; [|done].
  destruct (exit_ok (compare_script (fetch_ok rel) (git_describe rel) (tag_name rel)));
    simpl; [|done].
  intros _. rewrite lookup_assoc_other by done. unfold major_minor_changed.
  by rewrite app_nil_r.
Qed.

(** At job level: when [check-versions] concluded in success, its output
    is what the compare script wrote. *)
Lemma check_versions_job_output (rel : release) (other : runner) (inputs : gmap string value) :
  let st := run_workflow (release_runner rel other) inputs deploy_on_release in
  results st !! "check-versions" = Some Success ->
  outputs st !! ("check-versions", "major_minor_changed")
  = Some (major_minor_changed (compare_script (fetch_ok rel) (git_describe rel) (tag_name rel))).
Proof.
  intros st. set (r := release_runner rel other) in *.
  set (st2 := run_job r inputs (run_job r inputs init_state tests_and_coverage)
                package_deploy_pypi).
  set (st3 := run_job r inputs st2 check_versions).
  assert (st = run_job r inputs st3 version_and_publish_website) as -> by reflexivity.
  rewrite run_job_other by done. rewrite run_job_outputs_reusable by done.
  unfold st3, run_job.
  destruct (needs_succeeded st2 check_versions && cond_holds _ (job_if check_versions)).
  2:{ cbn [results]. rewrite lookup_insert_eq. done. }
  change (job_body check_versions) with (Steps (steps_of check_versions)).
  cbv iota beta. change (job_id check_versions) with "check-versions".
  pose proof (check_versions_steps_ok rel other
    {| ctx_inputs := inputs; ctx_needs := job_needs check_versions;
       ctx_outputs := outputs st2 |}) as Hok.
  fold r in Hok.
  destruct (run_steps r _ "check-versions" 0 (steps_of check_versions)) as [[tr ok] outs].
  cbn [results outputs]. rewrite lookup_insert_eq, check_versions_declared.
  destruct ok; [|done]. intros _. f_equal. by apply Hok.
Qed.

(** C1 -- the [compare] step of [check-versions] writes
    [major_minor_changed=true] exactly when the previous tag and the release
    tag, each reduced, differ as strings; when they are equal it writes no
    output and only prints the warning; the job's output is what the step
    wrote.  The reduction keeps the first two dot-separated fields -- a tag
    a.b.p becomes a.b, whatever follows the second dot, and a tag of one or
    two fields stays -- and then removes one leading "v".  The release tag
    is written into the script, so it is taken to be a plain text. *)
Theorem check_versions_major_minor_changed (previous_version tag : string) :
  plain_text tag = true ->
  let res := compare_script true (Some previous_version) tag in
  exit_ok res = true
  /\ (major_minor_changed res = "true"
      <-> major_minor previous_version ≠ major_minor tag)
  /\ (major_minor previous_version ≠ major_minor tag ->
        github_output res = [("major_minor_changed", "true")] /\ warnings res = [])
  /\ (major_minor previous_version = major_minor tag ->
        github_output res = [] /\ major_minor_changed res = ""
        /\ warnings res = [warning_unchanged]
        /\ stdout res = ["Updating from version " ++ previous_version ++ " to " ++ tag;
                         warning_unchanged])
  /\ (forall (other : runner) (inputs : gmap string value),
        let rel := {| tag_name := tag; fetch_ok := true;
                      git_describe := Some previous_version |} in
        let st := run_workflow (release_runner rel other) inputs deploy_on_release in
        results st !! "check-versions" = Some Success ->
        outputs st !! ("check-versions", "major_minor_changed")
        = Some (major_minor_changed res))
  /\ (forall a b p, dotless a = true -> dotless b = true ->
        major_minor (a ++ "." ++ b ++ "." ++ p) = strip_v (a ++ "." ++ b))
  /\ (forall a b, dotless a = true -> dotless b = true ->
        major_minor (a ++ "." ++ b) = strip_v (a ++ "." ++ b))
  /\ (forall a, dotless a = true -> major_minor a = strip_v a)
  /\ (forall s, strip_v (String "v" s) = s)
  /\ (forall s, starts_with "v" s = false -> strip_v s = s).
Proof.
  intros _ res.
  assert (forall (other : runner) (inputs : gmap string value),
        let rel := {| tag_name := tag; fetch_ok := true;
                      git_describe := Some previous_version |} in
        let st := run_workflow (release_runner rel other) inputs deploy_on_release in
        results st !! "check-versions" = Some Success ->
        outputs st !! ("check-versions", "major_minor_changed")
        = Some (major_minor_changed res)) as Hjob.
  { intros other inputs rel st Hs.
    by apply (check_versions_job_output rel other inputs). }
  assert ((forall a b p, dotless a = true -> dotless b = true ->
             major_minor (a ++ "." ++ b ++ "." ++ p) = strip_v (a ++ "." ++ b))
          /\ (forall a b, dotless a = true -> dotless b = true ->
                major_minor (a ++ "." ++ b) = strip_v (a ++ "." ++ b))
          /\ (forall a, dotless a = true -> major_minor a = strip_v a)
          /\ (forall s, strip_v (String "v" s) = s)
          /\ (forall s, starts_with "v" s = false -> strip_v s = s)) as Hred.
  { unfold major_minor. split_and!.
    - intros a b p Ha Hb. by rewrite ShellFacts.cut_f1_2_patch.
    - intros a b Ha Hb. by rewrite ShellFacts.cut_f1_2_two.
    - intros a Ha. by rewrite ShellFacts.cut_f1_2_one.
    - done.
    - apply ShellFacts.strip_v_plain. }
  destruct Hred as (P1 & P2 & P3 & P4 & P5).
  revert Hjob. subst res. unfold compare_script, major_minor in *.
  destruct (String.eqb_spec (strip_v (cut_f1_2 previous_version)) (strip_v (cut_f1_2 tag)))
    as [Heq|Hne]; intros Hjob.
  - split_and!; [done| |done| |done|exact P1|exact P2|exact P3|exact P4|exact P5].
    + split; [|done]. intros Hx. vm_compute in Hx. discriminate Hx.
    + intros _. split_and!; reflexivity.
  - split_and!; [done| |by intros _|done|done|exact P1|exact P2|exact P3|exact P4|exact P5].
    split; [done|]. intros _. reflexivity.
Qed.

Lemma check_versions_major_minor_changed_witness :
  major_minor_changed (compare_script true (Some "v0.12.4") "v0.13.0") = "true"
  /\ major_minor_changed (compare_script true (Some "v0.12.4") "v0.12.5") = "".
Proof.
  split.
  - destruct (check_versions_major_minor_changed "v0.12.4" "v0.13.0" eq_refl)
      as (_ & [_ Hchanged] & _).
    apply Hchanged. vm_compute. discriminate.
  - destruct (check_versions_major_minor_changed "v0.12.4" "v0.12.5" eq_refl)
      as (_ & _ & _ & Hsame & _).
    destruct (Hsame eq_refl) as (_ & Hout & _). exact Hout.
Defined.

(** Picks the step of a concrete job that carries a given name. *)
Ltac pick_step Hs Hname :=
  cbn [steps_of job_body build_website deploy_website package_deploy_pypi check_versions] in Hs;
  repeat (apply elem_of_cons in Hs as [->|Hs];
          [try solve [exfalso; vm_compute in Hname; discriminate Hname]|]);
  try (by apply elem_of_nil in Hs).

(** C2 -- in Publish Website, the step "Create new docusaurus version" is
    the only one that pushes and runs only with a non-empty [new_version]
    and a false [dry_run]; with [dry_run] true it never runs, the job
    [deploy-website] (the only one that deploys the pages) is skipped and
    none of its steps runs. *)
Theorem publish_website_dry_run (r : runner) (inputs : gmap string value) :
  let st := run_workflow r inputs publish_website in
  let dry_run := default VNull (inputs !! "dry_run") in
  let new_version := default VNull (inputs !! "new_version") in
  map (fun js => (js.1, step_name js.2))
      (filter (fun js => pushes js.2 = true) (all_steps publish_website))
    = [("build-website", "Create new docusaurus version")]
  /\ map (fun js => (js.1, step_name js.2))
        (filter (fun js => deploys_pages js.2 = true) (all_steps publish_website))
    = [("deploy-website", "Deploy to GitHub Pages")]
  /\ (forall i ok,
        trace st !! i = Some (StepRun "build-website" "Create new docusaurus version" ok) ->
        truthy new_version = true /\ truthy dry_run = false)
  /\ (truthy dry_run = true ->
        (forall i ok,
           trace st !! i ≠ Some (StepRun "build-website" "Create new docusaurus version" ok))
        /\ results st !! "deploy-website" = Some Skipped
        /\ (forall i n ok, trace st !! i ≠ Some (StepRun "deploy-website" n ok))).
Proof.
  intros st dry_run new_version.
  pose proof publish_website_well_ordered as Hwo.
  destruct (run_jobs_trace r inputs _ [] init_state Hwo init_consistent)
    as (seg & Htr & _ & Hsteps).
  pose proof (run_jobs_step_ran r inputs _ [] init_state seg Hwo Htr) as Hran.
  change (trace init_state ++ seg)%list with seg in Htr, Hsteps.
  change (trace (run_jobs r inputs (wf_jobs publish_website) init_state))
    with (trace st) in Htr.
  assert (forall i ok,
        trace st !! i = Some (StepRun "build-website" "Create new docusaurus version" ok) ->
        truthy new_version = true /\ truthy dry_run = false) as Hcreate.
  { intros i ok Hi. rewrite Htr in Hi.
    destruct (Hsteps i _ _ ok Hi) as (j & Hj & Hid & _ & (s & outs & Hs & Hname & Hcond) & _).
    pick_job Hj Hid. pick_step Hs Hname.
    cbn [cond_holds step_if eval ctx_inputs] in Hcond.
    fold new_version dry_run in Hcond.
    destruct (truthy new_version) eqn:Hnv; [|by rewrite Hnv in Hcond].
    cbn [truthy] in Hcond. by apply negb_true_iff in Hcond. }
  assert (truthy dry_run = true ->
          forall i n ok, trace st !! i ≠ Some (StepRun "deploy-website" n ok)) as Hdeploy.
  { intros Hdry i n ok Hi. rewrite Htr in Hi.
    destruct (Hran i _ n ok Hi) as (j & Hj & Hid & _ & outs & Hcond).
    pick_job Hj Hid.
    cbn [cond_holds job_if deploy_website eval ctx_inputs] in Hcond.
    fold dry_run in Hcond. rewrite Hdry in Hcond. done. }
  split_and!; [reflexivity|reflexivity|done|].
  intros Hdry. split_and!.
  - intros i ok Hi. destruct (Hcreate i ok Hi) as [_ Hf]. congruence.
  - apply (not_ran_skipped r inputs _ [] init_state deploy_website Hwo); [in_list|].
    intros Hr.
    assert (st = run_job r inputs (run_job r inputs init_state build_website) deploy_website)
      as Hst by reflexivity.
    destruct (run_job_self r inputs (run_job r inputs init_state build_website) deploy_website)
      as (c & Hc & Hrun).
    rewrite <- Hst in Hc. change (ran st "deploy-website") in Hr. unfold ran in Hr.
    change (job_id deploy_website) with "deploy-website" in Hc.
    destruct Hrun as [_ Hcond]. { rewrite Hc in Hr. destruct Hr; congruence. }
    cbn [cond_holds job_if deploy_website eval ctx_inputs] in Hcond.
    fold dry_run in Hcond. rewrite Hdry in Hcond. done.
  - by apply Hdeploy.
Qed.

End WorkflowClaims.

Module ErrorClaims.
Import Py PyFacts Actions ActionsFacts TraceFacts Workflows WorkflowFacts.

(** The steps of Deploy On Release: none is marked continue-on-error. *)
Lemma deploy_on_release_strict (j : job) :
  j ∈ wf_jobs deploy_on_release -> strict (steps_of j).
Proof.
  intros Hj s Hs. cbn [wf_jobs deploy_on_release] in Hj.
  repeat (apply elem_of_cons in Hj as [->|Hj];
          [cbn [steps_of job_body tests_and_coverage package_deploy_pypi check_versions
                version_and_publish_website] in Hs;
           repeat (apply elem_of_cons in Hs as [->|Hs]; [reflexivity|]);
           by apply elem_of_nil in Hs|]).
  by apply elem_of_nil in Hj.
Qed.

(** A failing step fails its job at once, and every job that depends on a
    job that did not succeed is skipped. *)
Lemma deploy_on_release_failure (r : runner) (inputs : gmap string value) :
  let st := run_workflow r inputs deploy_on_release in
  (forall i k n, trace st !! i = Some (StepRun k n false) ->
     results st !! k = Some Failure
     /\ trace st !! S i = Some (JobDone k Failure)
     /\ forall a, depends deploy_on_release a k -> results st !! a = Some Skipped)
  /\ (forall a b, depends deploy_on_release a b -> results st !! b ≠ Some Success ->
        results st !! a = Some Skipped).
Proof.
  intros st.
  pose proof deploy_on_release_well_ordered as Hwo.
  destruct (run_jobs_trace r inputs _ [] init_state Hwo init_consistent)
    as (seg & Htr & _ & Hsteps).
  change (trace init_state ++ seg)%list with seg in Htr, Hsteps.
  change (trace (run_jobs r inputs (wf_jobs deploy_on_release) init_state))
    with (trace st) in Htr.
  assert (forall a b, depends deploy_on_release a b -> results st !! b ≠ Some Success ->
            results st !! a = Some Skipped) as Hdep.
  { intros a b Hd Hb. by apply (dependents_skipped r inputs deploy_on_release a b). }
  split; [|done].
  intros i k n Hi. rewrite Htr in Hi |- *.
  destruct (Hsteps i k n false Hi) as (j & Hj & <- & _ & _ & Hfail).
  destruct (Hfail eq_refl (deploy_on_release_strict j Hj)) as [Hres Hnext].
  change (run_jobs r inputs (wf_jobs deploy_on_release) init_state) with st in Hres.
  split_and!; [done|done|].
  intros a Hd. apply (Hdep a (job_id j) Hd). by rewrite Hres.
Qed.

Section Helpers.
Context {W : Type}.

(** The helper functions of the discrete-fidelity tutorial and its loop
    cells contain neither [try] nor [with]. *)
Lemma mfkg_helpers_straight (environ : gmap string string) :
  (forall n, straight (MFKG.generate_initial_data n))
  /\ (forall tx ty, straight (MFKG.initialize_model tx ty))
  /\ (forall X, straight (MFKG.project X))
  /\ (forall m, straight (MFKG.get_mfkg environ m))
  /\ (forall a, straight (MFKG.optimize_mfkg_and_get_observation environ a))
  /\ (forall m, straight (MFKG.get_recommendation m))
  /\ (forall m b, straight (MFKG.get_ei m b))
  /\ (forall a, straight (MFKG.optimize_ei_and_get_observation a))
  /\ (forall s, straight (MFKG.mfkg_iteration environ s))
  /\ (forall s, straight (MFKG.ei_iteration s)).
Proof.
  split_and!; intros;
    unfold MFKG.generate_initial_data, MFKG.initialize_model, MFKG.project, MFKG.get_mfkg,
      MFKG.optimize_mfkg_and_get_observation, MFKG.get_recommendation, MFKG.get_ei,
      MFKG.optimize_ei_and_get_observation, MFKG.mfkg_iteration, MFKG.ei_iteration,
      MFKG.initialize_model, MFKG.get_mfkg, MFKG.get_ei;
    prog_shape.
Qed.

(** So an exception of a library call ends them, and reaches the caller as
    it was raised. *)
Lemma mfkg_helpers_unchanged (lib : library MFKG.libE W) (w : W) (environ : gmap string string) :
  (forall n, unchanged (run lib (MFKG.generate_initial_data n) w))
  /\ (forall tx ty, unchanged (run lib (MFKG.initialize_model tx ty) w))
  /\ (forall X, unchanged (run lib (MFKG.project X) w))
  /\ (forall m, unchanged (run lib (MFKG.get_mfkg environ m) w))
  /\ (forall a, unchanged (run lib (MFKG.optimize_mfkg_and_get_observation environ a) w))
  /\ (forall m, unchanged (run lib (MFKG.get_recommendation m) w))
  /\ (forall m b, unchanged (run lib (MFKG.get_ei m b) w))
  /\ (forall a, unchanged (run lib (MFKG.optimize_ei_and_get_observation a) w))
  /\ (forall s, unchanged (run lib (MFKG.mfkg_iteration environ s) w))
  /\ (forall s, unchanged (run lib (MFKG.ei_iteration s) w)).
Proof.
  destruct (mfkg_helpers_straight environ)
    as (H1 & H2 & H3 & H4 & H5 & H6 & H7 & H8 & H9 & H10).
  split_and!; intros; intros e He; by apply straight_one_exception.
Qed.

(** The classes and helper functions of the VAE tutorial that have no
    [with] block contain no [try] either. *)
Lemma vae_helpers_straight (bounds : VaeMnist.obj) :
  (forall self, straight (VaeMnist.Net_init self))
  /\ (forall self x, straight (VaeMnist.Net_forward self x))
  /\ straight VaeMnist.get_pretrained_dir
  /\ (forall self, straight (VaeMnist.VAE_init self))
  /\ (forall self x, straight (VaeMnist.VAE_encode self x))
  /\ (forall mu logvar, straight (VaeMnist.VAE_reparameterize mu logvar))
  /\ (forall self z, straight (VaeMnist.VAE_decode self z))
  /\ (forall self x, straight (VaeMnist.VAE_forward self x))
  /\ (forall y, straight (VaeMnist.score y))
  /\ (forall tx ty sd, straight (VaeMnist.get_fitted_model bounds tx ty sd)).
Proof.
  split_and!; intros;
    unfold VaeMnist.Net_init, VaeMnist.Net_forward, VaeMnist.get_pretrained_dir,
      VaeMnist.VAE_init, VaeMnist.VAE_forward, VaeMnist.VAE_encode,
      VaeMnist.VAE_reparameterize, VaeMnist.VAE_decode,
      VaeMnist.score, VaeMnist.get_fitted_model, VaeMnist.apply_layer, VaeMnist.getattr,
      VaeMnist.setattr, VaeMnist.lib;
    prog_shape.
Qed.

(** The four functions that run under [with torch.no_grad()] contain no
    [try], and their [with] blocks leave through the [__exit__] of the
    context manager. *)
Lemma vae_with_helpers_handler_free (leave_ok : VaeMnist.libE unit -> Prop)
    (cnn_model vae_model device dtype bounds : VaeMnist.obj) (SMOKE_TEST : option string) :
  (forall cm, leave_ok (VaeMnist.LibUnit "__exit__" [VaeMnist.AObj cm])) ->
  (forall x, handler_free leave_ok (VaeMnist.score_image cnn_model device dtype x))
  /\ (forall x, handler_free leave_ok (VaeMnist.decode vae_model x))
  /\ (forall n, handler_free leave_ok
         (VaeMnist.gen_initial_data cnn_model vae_model device dtype bounds n))
  /\ (forall a, handler_free leave_ok
         (VaeMnist.optimize_acqf_and_get_observation cnn_model vae_model device dtype
            bounds SMOKE_TEST a)).
Proof.
  intros Hleave.
  assert (forall x, handler_free leave_ok (VaeMnist.score_image cnn_model device dtype x))
    as Hscore.
  { intros x. unfold VaeMnist.score_image, VaeMnist.with_no_grad, VaeMnist.Net_forward,
      VaeMnist.score, VaeMnist.apply_layer, VaeMnist.getattr, VaeMnist.lib.
    unfold mbind, prog_bind, mret, prog_ret, call. cbn [bind handler_free].
    intros cm. split_and!; [apply Hleave| |]; by intros. }
  assert (forall x, handler_free leave_ok (VaeMnist.decode vae_model x)) as Hdecode.
  { intros x. unfold VaeMnist.decode, VaeMnist.with_no_grad, VaeMnist.VAE_decode,
      VaeMnist.apply_layer, VaeMnist.getattr, VaeMnist.lib.
    unfold mbind, prog_bind, mret, prog_ret, call. cbn [bind handler_free].
    intros cm. split_and!; [apply Hleave| |]; by intros. }
  split_and!; [done|done| |].
  - intros n. unfold VaeMnist.gen_initial_data, VaeMnist.lib.
    unfold mbind, prog_bind, mret, prog_ret, call. cbn [bind handler_free]. intros r tx.
    apply handler_free_bind; [apply Hdecode|]. intros img.
    apply handler_free_bind; [apply Hscore|]. by intros.
  - intros a. unfold VaeMnist.optimize_acqf_and_get_observation, VaeMnist.lib.
    unfold mbind, prog_bind, mret, prog_ret, call. cbn [bind handler_free].
    intros z o b [cands v] c nx.
    apply handler_free_bind; [apply Hdecode|]. intros img.
    apply handler_free_bind; [apply Hscore|]. by intros.
Qed.

(** What follows for the VAE tutorial: without a [with] block an exception
    of a library call reaches the caller as it was raised; through a
    [with torch.no_grad()] block the exception that reaches the caller is the
    last one raised, and when [__exit__] does not raise it is the only one. *)
Lemma vae_helpers_propagate (lib : library VaeMnist.libE W) (w : W)
    (cnn_model vae_model device dtype bounds : VaeMnist.obj) (SMOKE_TEST : option string) :
  (forall self, unchanged (run lib (VaeMnist.Net_init self) w))
  /\ (forall self x, unchanged (run lib (VaeMnist.Net_forward self x) w))
  /\ unchanged (run lib VaeMnist.get_pretrained_dir w)
  /\ (forall self, unchanged (run lib (VaeMnist.VAE_init self) w))
  /\ (forall self x, unchanged (run lib (VaeMnist.VAE_encode self x) w))
  /\ (forall mu logvar, unchanged (run lib (VaeMnist.VAE_reparameterize mu logvar) w))
  /\ (forall self z, unchanged (run lib (VaeMnist.VAE_decode self z) w))
  /\ (forall self x, unchanged (run lib (VaeMnist.VAE_forward self x) w))
  /\ (forall y, unchanged (run lib (VaeMnist.score y) w))
  /\ (forall tx ty sd, unchanged (run lib (VaeMnist.get_fitted_model bounds tx ty sd) w))
  /\ (forall x, last_reaches (run lib (VaeMnist.score_image cnn_model device dtype x) w))
  /\ (forall x, last_reaches (run lib (VaeMnist.decode vae_model x) w))
  /\ (forall n, last_reaches
        (run lib (VaeMnist.gen_initial_data cnn_model vae_model device dtype bounds n) w))
  /\ (forall a, last_reaches
        (run lib (VaeMnist.optimize_acqf_and_get_observation cnn_model vae_model device dtype
                    bounds SMOKE_TEST a) w))
  /\ ((forall cm, never_raises lib (VaeMnist.LibUnit "__exit__" [VaeMnist.AObj cm])) ->
      (forall x, unchanged (run lib (VaeMnist.score_image cnn_model device dtype x) w))
      /\ (forall x, unchanged (run lib (VaeMnist.decode vae_model x) w))
      /\ (forall n, unchanged
            (run lib (VaeMnist.gen_initial_data cnn_model vae_model device dtype bounds n) w))
      /\ (forall a, unchanged
            (run lib (VaeMnist.optimize_acqf_and_get_observation cnn_model vae_model device
                        dtype bounds SMOKE_TEST a) w))).
Proof.
  destruct (vae_helpers_straight bounds)
    as (H1 & H2 & H3 & H4 & H5 & H6 & H7 & H8 & H9 & H10).
  destruct (vae_with_helpers_handler_free (fun _ => True) cnn_model vae_model device dtype
              bounds SMOKE_TEST (fun _ => I)) as (T1 & T2 & T3 & T4).
  split_and!.
  1-10: intros; intros e He; by apply straight_one_exception.
  - intros x e He. apply last_raised_reaches; [exact (T1 x)|exact He].
  - intros x e He. apply last_raised_reaches; [exact (T2 x)|exact He].
  - intros n e He. apply last_raised_reaches; [exact (T3 n)|exact He].
  - intros a e He. apply last_raised_reaches; [exact (T4 a)|exact He].
  - intros Hquiet.
    destruct (vae_with_helpers_handler_free (never_raises lib) cnn_model vae_model device
                dtype bounds SMOKE_TEST Hquiet) as (Q1 & Q2 & Q3 & Q4).
    split_and!.
    + intros x e He. apply handler_free_one_exception; [exact (Q1 x)|exact He].
    + intros x e He. apply handler_free_one_exception; [exact (Q2 x)|exact He].
    + intros n e He. apply handler_free_one_exception; [exact (Q3 n)|exact He].
    + intros a e He. apply handler_free_one_exception; [exact (Q4 a)|exact He].
Qed.

End Helpers.

(** C7 -- no error handling is authored.  The helper functions of the two
    tutorials contain no [try] (their embeddings lie in the fragment without
    it), so an exception raised by a library call reaches the caller as it
    was raised and is the only one raised; this holds of the functions that
    run under [with torch.no_grad()] when [__exit__] does not raise, and
    otherwise the exception that reaches the caller is the last one raised.
    In Deploy On Release no step continues on error, so a failing step fails
    its job at once and every job depending on it is skipped. *)
Theorem no_error_handling :
  (forall (environ : gmap string string),
     (forall n, try_free (MFKG.generate_initial_data n))
     /\ (forall tx ty, try_free (MFKG.initialize_model tx ty))
     /\ (forall X, try_free (MFKG.project X))
     /\ (forall m, try_free (MFKG.get_mfkg environ m))
     /\ (forall a, try_free (MFKG.optimize_mfkg_and_get_observation environ a))
     /\ (forall m, try_free (MFKG.get_recommendation m))
     /\ (forall m b, try_free (MFKG.get_ei m b))
     /\ (forall a, try_free (MFKG.optimize_ei_and_get_observation a))
     /\ (forall s, try_free (MFKG.mfkg_iteration environ s))
     /\ (forall s, try_free (MFKG.ei_iteration s)))
  /\ (forall (W : Type) (lib : library MFKG.libE W) (w : W) (environ : gmap string string),
     (forall n, unchanged (run lib (MFKG.generate_initial_data n) w))
     /\ (forall tx ty, unchanged (run lib (MFKG.initialize_model tx ty) w))
     /\ (forall X, unchanged (run lib (MFKG.project X) w))
     /\ (forall m, unchanged (run lib (MFKG.get_mfkg environ m) w))
     /\ (forall a, unchanged (run lib (MFKG.optimize_mfkg_and_get_observation environ a) w))
     /\ (forall m, unchanged (run lib (MFKG.get_recommendation m) w))
     /\ (forall m b, unchanged (run lib (MFKG.get_ei m b) w))
     /\ (forall a, unchanged (run lib (MFKG.optimize_ei_and_get_observation a) w))
     /\ (forall s, unchanged (run lib (MFKG.mfkg_iteration environ s) w))
     /\ (forall s, unchanged (run lib (MFKG.ei_iteration s) w)))
  /\ (forall (cnn_model vae_model device dtype bounds : VaeMnist.obj)
        (SMOKE_TEST : option string),
     (forall self, try_free (VaeMnist.Net_init self))
     /\ (forall self x, try_free (VaeMnist.Net_forward self x))
     /\ try_free VaeMnist.get_pretrained_dir
     /\ (forall self, try_free (VaeMnist.VAE_init self))
     /\ (forall self x, try_free (VaeMnist.VAE_encode self x))
     /\ (forall mu logvar, try_free (VaeMnist.VAE_reparameterize mu logvar))
     /\ (forall self z, try_free (VaeMnist.VAE_decode self z))
     /\ (forall self x, try_free (VaeMnist.VAE_forward self x))
     /\ (forall y, try_free (VaeMnist.score y))
     /\ (forall tx ty sd, try_free (VaeMnist.get_fitted_model bounds tx ty sd))
     /\ (forall x, try_free (VaeMnist.score_image cnn_model device dtype x))
     /\ (forall x, try_free (VaeMnist.decode vae_model x))
     /\ (forall n, try_free
           (VaeMnist.gen_initial_data cnn_model vae_model device dtype bounds n))
     /\ (forall a, try_free
           (VaeMnist.optimize_acqf_and_get_observation cnn_model vae_model device dtype
              bounds SMOKE_TEST a)))
  /\ (forall (W : Type) (lib : library VaeMnist.libE W) (w : W)
        (cnn_model vae_model device dtype bounds : VaeMnist.obj) (SMOKE_TEST : option string),
     (forall self, unchanged (run lib (VaeMnist.Net_init self) w))
     /\ (forall self x, unchanged (run lib (VaeMnist.Net_forward self x) w))
     /\ unchanged (run lib VaeMnist.get_pretrained_dir w)
     /\ (forall self, unchanged (run lib (VaeMnist.VAE_init self) w))
     /\ (forall self x, unchanged (run lib (VaeMnist.VAE_encode self x) w))
     /\ (forall mu logvar, unchanged (run lib (VaeMnist.VAE_reparameterize mu logvar) w))
     /\ (forall self z, unchanged (run lib (VaeMnist.VAE_decode self z) w))
     /\ (forall self x, unchanged (run lib (VaeMnist.VAE_forward self x) w))
     /\ (forall y, unchanged (run lib (VaeMnist.score y) w))
     /\ (forall tx ty sd, unchanged (run lib (VaeMnist.get_fitted_model bounds tx ty sd) w))
     /\ (forall x, last_reaches (run lib (VaeMnist.score_image cnn_model device dtype x) w))
     /\ (forall x, last_reaches (run lib (VaeMnist.decode vae_model x) w))
     /\ (forall n, last_reaches
           (run lib (VaeMnist.gen_initial_data cnn_model vae_model device dtype bounds n) w))
     /\ (forall a, last_reaches
           (run lib (VaeMnist.optimize_acqf_and_get_observation cnn_model vae_model device
                       dtype bounds SMOKE_TEST a) w))
     /\ ((forall cm, never_raises lib (VaeMnist.LibUnit "__exit__" [VaeMnist.AObj cm])) ->
         (forall x, unchanged (run lib (VaeMnist.score_image cnn_model device dtype x) w))
         /\ (forall x, unchanged (run lib (VaeMnist.decode vae_model x) w))
         /\ (forall n, unchanged
               (run lib (VaeMnist.gen_initial_data cnn_model vae_model device dtype
                           bounds n) w))
         /\ (forall a, unchanged
               (run lib (VaeMnist.optimize_acqf_and_get_observation cnn_model vae_model
                           device dtype bounds SMOKE_TEST a) w))))
  /\ (forall (r : runner) (inputs : gmap string value),
        let st := run_workflow r inputs deploy_on_release in
        (forall j, j ∈ wf_jobs deploy_on_release -> strict (steps_of j))
        /\ (forall i k n, trace st !! i = Some (StepRun k n false) ->
              results st !! k = Some Failure
              /\ trace st !! S i = Some (JobDone k Failure)
              /\ forall a, depends deploy_on_release a k -> results st !! a = Some Skipped)
        /\ (forall a b, depends deploy_on_release a b -> results st !! b ≠ Some Success ->
              results st !! a = Some Skipped)).
Proof.
  split_and!.
  - intros environ.
    destruct (mfkg_helpers_straight environ)
      as (H1 & H2 & H3 & H4 & H5 & H6 & H7 & H8 & H9 & H10).
    split_and!; intros; by apply straight_handler_free.
  - intros W lib w environ. apply mfkg_helpers_unchanged.
  - intros cnn_model vae_model device dtype bounds SMOKE_TEST.
    destruct (vae_helpers_straight bounds)
      as (H1 & H2 & H3 & H4 & H5 & H6 & H7 & H8 & H9 & H10).
    destruct (vae_with_helpers_handler_free (fun _ => True) cnn_model vae_model device dtype
                bounds SMOKE_TEST (fun _ => I)) as (T1 & T2 & T3 & T4).
    split_and!; [ | | | | | | | | | |exact T1|exact T2|exact T3|exact T4];
      intros; by apply straight_handler_free.
  - intros W lib w cnn_model vae_model device dtype bounds SMOKE_TEST.
    apply vae_helpers_propagate.
  - intros r inputs st. split; [apply deploy_on_release_strict|].
    apply deploy_on_release_failure.
Qed.

End ErrorClaims.

(** ** Running programs to a value *)

Module RunFacts.
Import Py PyFacts.

Section Returns.
Context {E : Type -> Type} {W : Type}.
Variable lib : library E W.

Lemma returns_ret {R : Type} (v : R) (w : W) : returns lib (Ret v) w v w.
Proof. done. Qed.

Lemma returns_call {X : Type} (c : E X) (w : W) (v : X) (w' : W) :
  lib X c w = (inr v, w') -> returns lib (call c) w v w'.
Proof. intros H. unfold returns, call. simpl. by rewrite H. Qed.

Lemma returns_bind {A B : Type} (p : prog E A) (f : A -> prog E B) (w : W)
    (v : A) (w' : W) (v2 : B) (w2 : W) :
  returns lib p w v w' -> returns lib (f v) w' v2 w2 -> returns lib (bind p f) w v2 w2.
Proof.
  intros (Hr & Hw & Hx) (Hr2 & Hw2 & Hx2). unfold returns.
  rewrite run_bind, Hr. simpl. rewrite Hw, Hr2, Hw2, Hx, Hx2. done.
Qed.

Lemma returns_inj {R : Type} (p : prog E R) (w : W) (v v' : R) (w1 w2 : W) :
  returns lib p w v w1 -> returns lib p w v' w2 -> v = v' /\ w1 = w2.
Proof. intros (Hr & Hw & _) (Hr2 & Hw2 & _). split; congruence. Qed.

End Returns.
End RunFacts.

(** Steps through a program: each call is answered by the library. *)
Ltac step_call :=
  unfold mbind, prog_bind, mret, prog_ret;
  eapply RunFacts.returns_bind; [apply RunFacts.returns_call; cbn; reflexivity|cbn beta].

(** ** The modelled library *)

Module BotorchFacts.
Import Py PyFacts MFKG Botorch.

Lemma length_fix_features (ff : list (nat * Qc)) (x : list Qc) :
  length (fix_features ff x) = length x.
Proof.
  unfold fix_features. induction ff as [|[i v] ff IH]; simpl; [done|].
  by rewrite length_insert.
Qed.

(** A single fixed feature is found at its column. *)
Lemma fix_features_single (i : nat) (v : Qc) (x : list Qc) :
  (i < length x)%nat -> fix_features [(i, v)] x !! i = Some v.
Proof. intros Hi. simpl. by apply list_lookup_insert_eq. Qed.

(** Columns that are not fixed keep their value. *)
Lemma fix_features_other (ff : list (nat * Qc)) (x : list Qc) (j : nat) :
  j ∉ ff.*1 -> fix_features ff x !! j = x !! j.
Proof.
  unfold fix_features. induction ff as [|[i v] ff IH]; simpl; [done|].
  intros [Hne Hj]%not_elem_of_cons. simpl in Hne.
  rewrite list_lookup_insert_ne by done. by apply IH.
Qed.

Section Oracles.
Variable noise : nat -> Qc.
Variable pick : nat -> nat.
Variable objective : list Qc -> Qc.

Lemma length_raw_point (lo hi : list Qc) (k : nat) :
  length (raw_point noise lo hi k) = Nat.min (length lo) (length hi).
Proof. unfold raw_point. by rewrite length_imap, length_zip. Qed.

(** The point kept among the fixed-feature optimizations is one of them. *)
Lemma best_fixed_in (lo hi : list Qc) (ffl : list (list (nat * Qc))) (k : nat)
    (x : list Qc) (v : Qc) :
  best_fixed noise lo hi ffl k = Some (x, v) ->
  exists ff k', ff ∈ ffl /\ x = fix_features ff (raw_point noise lo hi k').
Proof.
  revert k x v. induction ffl as [|ff ffl IH]; intros k x v; simpl; [done|].
  destruct (best_fixed noise lo hi ffl (k + length lo + 1)) as [[x' v']|] eqn:Hb.
  - destruct (Qle_bool v' (noise (k + length lo))).
    + intros [= <- <-]. exists ff, k. split; [by left|done].
    + intros [= <- <-]. destruct (IH _ _ _ Hb) as (ff' & k' & Hin & ->).
      exists ff', k'. split; [by right|done].
  - intros [= <- <-]. exists ff, k. split; [by left|done].
Qed.

Lemma best_fixed_some (lo hi : list Qc) (ffl : list (list (nat * Qc))) (k : nat) :
  ffl ≠ [] -> is_Some (best_fixed noise lo hi ffl k).
Proof.
  destruct ffl as [|ff ffl]; [done|]. intros _. simpl.
  destruct (best_fixed noise lo hi ffl (k + length lo + 1)) as [[x' v']|]; [|done].
  by destruct (Qle_bool v' (noise (k + length lo))).
Qed.

(** The greedy batch: [n] points, each from one of the fixed-feature
    optimizations. *)
Lemma greedy_rows (n : nat) (lo hi : list Qc) (ffl : list (list (nat * Qc))) (k : nat)
    (xs : tensor2) :
  greedy noise n lo hi ffl k = Some xs ->
  length xs = n
  /\ Forall (fun x => exists ff k', ff ∈ ffl /\ x = fix_features ff (raw_point noise lo hi k')) xs.
Proof.
  revert k xs. induction n as [|n IH]; intros k xs; simpl.
  { intros [= <-]. done. }
  destruct (best_fixed noise lo hi ffl k) as [[x v]|] eqn:Hb; [|done].
  destruct (greedy noise n lo hi ffl (k + mixed_stride lo ffl)) as [xs'|] eqn:Hg; [|done].
  intros [= <-]. destruct (IH _ _ Hg) as [Hlen Hall]. split; [simpl; lia|].
  constructor; [by eapply best_fixed_in|done].
Qed.

Lemma greedy_some (n : nat) (lo hi : list Qc) (ffl : list (list (nat * Qc))) (k : nat) :
  ffl ≠ [] -> is_Some (greedy noise n lo hi ffl k).
Proof.
  intros Hne. revert k. induction n as [|n IH]; intros k; simpl; [done|].
  destruct (best_fixed_some lo hi ffl k Hne) as [[x v] ->].
  destruct (IH (k + mixed_stride lo ffl)) as [xs ->]. done.
Qed.

(** With an empty list of fixed features the call is refused for every
    positive batch size. *)
Lemma greedy_none (n : nat) (lo hi : list Qc) (k : nat) :
  greedy noise (S n) lo hi [] k = None.
Proof. done. Qed.


(** The test function answers every batch of full-width points, one value
    per point. *)
Lemma problem_forward_ok (p : problem_obj) (X : tensor2) :
  Forall (fun x => length x = dim p) X ->
  problem_forward objective p X
  = inr (map (fun x => if negate p then (- objective x)%Qc else objective x) X).
Proof.
  intros HX. unfold problem_forward.
  replace (forallb _ X) with true; [done|]. symmetry. apply forallb_forall.
  intros x Hx. apply Nat.eqb_eq. rewrite Forall_forall in HX. apply HX.
  by apply list_elem_of_In.
Qed.

(** A point that lacks a column is refused. *)
Lemma problem_forward_short (p : problem_obj) (X : tensor2) (x : list Qc) :
  x ∈ X -> length x ≠ dim p -> exists e, problem_forward objective p X = inl e.
Proof.
  intros Hx Hlen. unfold problem_forward.
  destruct (forallb _ X) eqn:Hf; [|eauto].
  rewrite forallb_forall in Hf. apply list_elem_of_In, Hf, Nat.eqb_eq in Hx. done.
Qed.

End Oracles.

Lemma qc_of_nat_S (n : nat) : qc_of_nat (S n) = (1 + qc_of_nat n)%Qc.
Proof.
  unfold qc_of_nat. apply Qc_is_canon. rewrite Nat2Z.inj_succ.
  unfold Qcplus, Q2Qc. cbn [this]. rewrite !Qred_correct.
  unfold Z.succ. rewrite inject_Z_plus. ring.
Qed.

(** The affine cost of a point: the fixed cost 0.25 plus its fidelity. *)
Lemma affine_cost_point (x : list Qc) (v : Qc) :
  x !! 6%nat = Some v -> affine_cost cost_model x = Some (dec 1 4 + v)%Qc.
Proof.
  intros Hv. unfold affine_cost. simpl. rewrite Hv. simpl. f_equal.
  unfold sum_list. simpl. change (dec 1 1) with 1%Qc. change (dec 0 1) with 0%Qc. ring.
Qed.

Lemma affine_cost_short (x : list Qc) :
  (length x <= 6)%nat -> affine_cost cost_model x = None.
Proof.
  intros Hx. unfold affine_cost. simpl. by rewrite (lookup_ge_None_2 x 6).
Qed.

Lemma fidelity_lookup (x : list Qc) :
  (6 < length x)%nat -> x !! 6%nat = Some (fidelity x).
Proof.
  intros Hx. unfold fidelity. destruct (lookup_lt_is_Some_2 x 6 Hx) as [v ->]. done.
Qed.

Lemma cost_model_forward_ok (X : tensor2) :
  Forall (fun x => (6 < length x)%nat) X ->
  cost_model_forward cost_model X = inr (map (fun x => [(dec 1 4 + fidelity x)%Qc]) X).
Proof.
  intros HX. unfold cost_model_forward.
  replace (mapM _ X) with (Some (map (fun x => [(dec 1 4 + fidelity x)%Qc]) X)); [done|].
  symmetry. apply mapM_Some. induction HX as [|x X Hx HX IH]; simpl; constructor; [|done].
  by rewrite (affine_cost_point x (fidelity x)) by by apply fidelity_lookup.
Qed.

(** The summed cost of a batch: 0.25 per point plus the fidelities. *)
Lemma batch_cost (X : tensor2) :
  tensor_sum (map (fun x => [(dec 1 4 + fidelity x)%Qc]) X)
  = (dec 1 4 * qc_of_nat (length X) + sum_list (map fidelity X))%Qc.
Proof.
  unfold tensor_sum. induction X as [|x X IH]; simpl.
  { unfold sum_list. simpl. change (qc_of_nat 0) with 0%Qc. change (dec 0 1) with 0%Qc. ring. }
  rewrite qc_of_nat_S. unfold sum_list in *. simpl. rewrite IH. ring.
Qed.

End BotorchFacts.

(** ** The tutorial run against the modelled library *)

Module TutorialFacts.
Import Py PyFacts RunFacts MFKG Botorch BotorchFacts.

(** Answers one call of a program run against the modelled library. *)
Ltac answer H :=
  unfold mbind, prog_bind, mret, prog_ret;
  eapply returns_bind;
  [apply returns_call; unfold botorch; cbv beta iota; rewrite ?H; reflexivity
  |cbv beta iota].

Section Model.
Variable noise : nat -> Qc.
Variable pick : nat -> nat.
Variable objective : list Qc -> Qc.

(** What [optimize_acqf_mixed] returns for the tutorial's box and its three
    fidelities: a batch of the asked size, seven columns wide, each point at
    one of the three fidelities. *)
Lemma mixed_candidates (kw : optimize_kwargs) (k : nat) :
  exists xs v,
    optimize_acqf_mixed noise bounds
      [[(6%nat, dec 1 2)]; [(6%nat, dec 3 4)]; [(6%nat, dec 1 1)]] kw k = inr (xs, v)
    /\ has_shape (q kw) 7 xs
    /\ Forall (fun x => fidelity x ∈ fidelities) xs.
Proof.
  unfold optimize_acqf_mixed, bounds. cbn [dim problem].
  set (lo := replicate 7 (dec 0 1)). set (hi := replicate 7 (dec 1 1)).
  set (ffl := [[(6%nat, dec 1 2)]; [(6%nat, dec 3 4)]; [(6%nat, dec 1 1)]]).
  replace (length lo =? length hi)%nat with true by reflexivity.
  destruct (greedy_some noise (q kw) lo hi ffl k) as [xs Hxs]; [done|].
  rewrite Hxs. exists xs, (noise (k + q kw * mixed_stride lo ffl)).
  destruct (greedy_rows noise _ _ _ _ _ _ Hxs) as [Hlen Hall].
  split; [done|].
  assert (Forall (fun x => length x = 7%nat /\ fidelity x ∈ fidelities) xs) as Hboth.
  { eapply Forall_impl; [exact Hall|]. intros x (ff & k' & Hff & ->).
    assert (length (raw_point noise lo hi k') = 7%nat) as Hraw
      by (rewrite length_raw_point; reflexivity).
    split; [by rewrite length_fix_features|].
    unfold fidelity, fidelities, ffl in *.
    repeat (apply elem_of_cons in Hff as [->|Hff];
            [rewrite fix_features_single by lia; simpl; set_solver|]).
    by apply elem_of_nil in Hff. }
  split; [split; [done|]|]; eapply Forall_impl; try exact Hboth; by intros x [? ?].
Qed.

(** The BO step returns: four new points of seven columns at the three
    fidelities, their four observations, and the affine cost of the batch. *)
Lemma optimize_mfkg_returns (environ : gmap string string) (a : acqf) (w : world) :
  exists new_x new_obj w',
    returns (botorch noise pick objective)
      (optimize_mfkg_and_get_observation environ a) w
      (new_x, new_obj,
       (dec 1 4 * qc_of_nat (length new_x) + sum_list (map fidelity new_x))%Qc) w'
    /\ has_shape 4 7 new_x
    /\ has_shape 4 1 new_obj
    /\ Forall (fun x => fidelity x ∈ fidelities) new_x.
Proof.
  destruct (mixed_candidates
              {| q := BATCH_SIZE; num_restarts := NUM_RESTARTS environ;
                 raw_samples := RAW_SAMPLES environ; batch_limit := 5; maxiter := 200 |}
              (draws w)) as (xs & v & Hmixed & [Hlen Hwidth] & Hfid).
  cbn [q] in Hlen.
  assert (Forall (fun x => (6 < length x)%nat) xs) as Hwide
    by (eapply Forall_impl; [exact Hwidth|]; simpl; intros; lia).
  pose proof (cost_model_forward_ok xs Hwide) as Hcost.
  pose proof (problem_forward_ok objective problem xs Hwidth) as Hprob.
  eexists xs, _, _. split_and!.
  - unfold optimize_mfkg_and_get_observation.
    answer Hmixed. answer Hcost. answer Hcost. answer Hcost. answer Hprob.
    answer Hcost. answer Hcost. answer Hcost.
    rewrite batch_cost. apply returns_ret.
  - done.
  - split; [by rewrite !length_map|].
    rewrite !List.Forall_map. by apply Forall_true.
  - done.
Qed.


Lemma same_width_shape (m : nat) (rows : tensor2) :
  Forall (fun x => length x = m) rows -> same_width rows = true.
Proof.
  intros H. destruct rows as [|r rows]; [done|]. simpl.
  apply Forall_cons_1 in H as [Hr H]. apply forallb_forall. intros x Hx.
  apply Nat.eqb_eq. rewrite Forall_forall in H. apply list_elem_of_In in Hx.
  rewrite (H x Hx). done.
Qed.

(** [torch.cat] of two tensors of equal width along axis 0. *)
Lemma torch_cat_rows (m : nat) (a b : tensor2) :
  Forall (fun x => length x = m) a -> Forall (fun x => length x = m) b ->
  torch_cat [a; b] 0 = inr (a ++ b)%list.
Proof.
  intros Ha Hb. unfold torch_cat. simpl. rewrite app_nil_r.
  rewrite (same_width_shape m); [done|]. by apply Forall_app.
Qed.

(** The random fidelities of the initial data: one per row, each among the
    three fidelities. *)
Lemma initial_fidelities (n k : nat) :
  exists T,
    tensor_index fidelities (torch_randint pick 3 n 1 k) = inr T
    /\ length T = n
    /\ Forall (fun r => exists f, r = [f] /\ f ∈ fidelities) T.
Proof.
  unfold tensor_index, torch_randint.
  set (idx := map _ (seq 0 n)).
  assert (Forall (fun r => exists i, r = [i] /\ (i < 3)%nat) idx) as Hidx.
  { unfold idx. rewrite List.Forall_map. apply Forall_true. intros i. cbn [map seq].
    eexists. split; [reflexivity|]. apply Nat.mod_upper_bound. done. }
  assert (length idx = n) as Hlen by (unfold idx; by rewrite length_map, length_seq).
  clearbody idx. subst n.
  induction Hidx as [|r idx (i & -> & Hi) Hidx IH].
  { exists []. done. }
  destruct IH as (T & HT & HlenT & HallT).
  destruct (mapM (mapM (fun i => fidelities !! i)) idx) as [T'|] eqn:HT'; [|done].
  injection HT as <-.
  assert (exists f, fidelities !! i = Some f /\ f ∈ fidelities) as (f & Hf & Hfin).
  { destruct (lookup_lt_is_Some_2 fidelities i) as [f Hf]; [simpl; lia|].
    exists f. split; [done|]. by eapply list_elem_of_lookup_2. }
  exists ([f] :: T'). simpl. rewrite Hf. simpl. rewrite HT'. simpl.
  split_and!; [done|by rewrite HlenT|]. constructor; [by exists f|done].
Qed.

Lemma torch_rand_shape (n m k : nat) : has_shape n m (torch_rand noise n m k).
Proof.
  unfold torch_rand. split; [by rewrite length_map, length_seq|].
  rewrite List.Forall_map. apply Forall_true. intros i.
  by rewrite length_map, length_seq.
Qed.

(** Joining n rows of six columns with n single fidelities. *)
Lemma cat_fidelity_column (n : nat) (X T : tensor2) :
  has_shape n 6 X -> length T = n ->
  Forall (fun r => exists f, r = [f] /\ f ∈ fidelities) T ->
  has_shape n 7 (zip_with app X T)
  /\ Forall (fun x => fidelity x ∈ fidelities) (zip_with app X T).
Proof.
  intros [HlenX HX] HlenT HT. revert n T HlenX HlenT HT.
  induction HX as [|x X Hx HX IH]; intros n T HlenX HlenT HT.
  { simpl in *. subst n. by destruct T. }
  destruct T as [|r T]; [simpl in *; lia|].
  apply Forall_cons_1 in HT as [(f & -> & Hf) HT].
  simpl in HlenX, HlenT. destruct n as [|n]; [lia|].
  destruct (IH n T) as ([Hl Hw] & Hfid); [lia|lia|done|].
  simpl. split; [split; [simpl; lia|]|].
  - constructor; [|done]. rewrite length_app. simpl. lia.
  - constructor; [|done]. unfold fidelity.
    rewrite lookup_app_r by lia. rewrite Hx. simpl. done.
Qed.

(** [generate_initial_data n] returns n points of seven columns, each at one
    of the three fidelities, and their n observations. *)
Lemma generate_initial_data_returns (n : nat) (w : world) :
  exists train_x train_obj w',
    returns (botorch noise pick objective) (generate_initial_data n) w
      (train_x, train_obj) w'
    /\ has_shape n 7 train_x
    /\ has_shape n 1 train_obj
    /\ Forall (fun x => fidelity x ∈ fidelities) train_x.
Proof.
  destruct (initial_fidelities n (draws (advance (n * 6) w))) as (T & HT & HlenT & HallT).
  pose proof (torch_rand_shape n 6 (draws w)) as HX.
  destruct (cat_fidelity_column n _ T HX HlenT HallT) as (Hshape & Hfid).
  assert (torch_cat [torch_rand noise n 6 (draws w); T] 1
          = inr (zip_with app (torch_rand noise n 6 (draws w)) T)) as Hcat.
  { unfold torch_cat. simpl. destruct HX as [-> _]. by rewrite HlenT, Nat.eqb_refl. }
  pose proof (problem_forward_ok objective problem _ (proj2 Hshape)) as Hprob.
  eexists _, _, _. split_and!.
  - unfold generate_initial_data.
    answer HT. answer HT. answer HT. answer Hcat. answer Hprob. answer HT.
    apply returns_ret.
  - done.
  - destruct Hshape as [Hl _]. split; [by rewrite !length_map|].
    rewrite !List.Forall_map. by apply Forall_true.
  - done.
Qed.

(** [initialize_model] on data with matching row counts returns the model
    built on exactly that data. *)
Lemma initialize_model_returns (train_x train_obj : tensor2) (w : world) :
  length train_x = length train_obj ->
  returns (botorch noise pick objective) (initialize_model train_x train_obj) w
    ({| mll_model := {| train_X := train_x; train_Y := train_obj;
                        outcome_transform := {| standardize_m := 1 |};
                        data_fidelities := [6%nat] |} |},
     {| train_X := train_x; train_Y := train_obj;
        outcome_transform := {| standardize_m := 1 |};
        data_fidelities := [6%nat] |}) w.
Proof.
  intros Hlen. unfold initialize_model.
  answer Hlen.
  unfold mbind, prog_bind, mret, prog_ret. eapply returns_bind.
  { apply returns_call. unfold botorch. cbv beta iota. rewrite Hlen, Nat.eqb_refl.
    reflexivity. }
  cbv beta iota. answer Hlen. apply returns_ret.
Qed.

(** [get_mfkg] returns the knowledge-gradient acquisition function of the
    model, with the tutorial's cost utility and target fidelity. *)
Lemma get_mfkg_returns (environ : gmap string string) (model : model_obj) (w : world) :
  exists current_value w',
    returns (botorch noise pick objective) (get_mfkg environ model) w
      (MFKGOf model (get_mfkg_num_fantasies environ) current_value cost_aware_utility
         target_fidelities) w'.
Proof.
  eexists _, _. unfold get_mfkg.
  answer I. answer I. answer I.
  unfold mbind, prog_bind, mret, prog_ret. eapply returns_bind.
  { apply returns_call. unfold botorch. cbv beta iota. reflexivity. }
  cbv beta iota. apply returns_call. reflexivity.
Qed.


Lemma has_shape_app (n k m : nat) (a b : tensor2) :
  has_shape n m a -> has_shape k m b -> has_shape (n + k) m (a ++ b)%list.
Proof.
  intros [Hla Ha] [Hlb Hb]. split; [rewrite length_app; lia|]. by apply Forall_app.
Qed.

(** One iteration of the loop: the model is built on all data so far, and
    four points and four observations are appended. *)
Lemma mfkg_iteration_returns (environ : gmap string string) (s : loop_state) (n : nat)
    (w : world) :
  well_shaped n s ->
  exists s' new_x new_obj w',
    returns (botorch noise pick objective) (mfkg_iteration environ s) w s' w'
    /\ st_train_x s' = (st_train_x s ++ new_x)%list
    /\ st_train_obj s' = (st_train_obj s ++ new_obj)%list
    /\ has_shape 4 7 new_x /\ has_shape 4 1 new_obj
    /\ st_model s' = Some {| train_X := st_train_x s; train_Y := st_train_obj s;
                             outcome_transform := {| standardize_m := 1 |};
                             data_fidelities := [6%nat] |}
    /\ st_cumulative_cost s'
       = (st_cumulative_cost s
          + (dec 1 4 * qc_of_nat (length new_x) + sum_list (map fidelity new_x)))%Qc
    /\ well_shaped (n + 4) s'.
Proof.
  intros ([Hlx Hwx] & [Hly Hwy] & Hfid).
  set (model := {| train_X := st_train_x s; train_Y := st_train_obj s;
                   outcome_transform := {| standardize_m := 1 |};
                   data_fidelities := [6%nat] |}).
  destruct (get_mfkg_returns environ model w) as (cv & w1 & Hmfkg).
  destruct (optimize_mfkg_returns environ
              (MFKGOf model (get_mfkg_num_fantasies environ) cv cost_aware_utility
                 target_fidelities) w1)
    as (new_x & new_obj & w2 & Hopt & Hsx & Hsy & Hfx).
  pose proof (torch_cat_rows 7 (st_train_x s) new_x Hwx (proj2 Hsx)) as Hcx.
  pose proof (torch_cat_rows 1 (st_train_obj s) new_obj Hwy (proj2 Hsy)) as Hcy.
  eexists _, new_x, new_obj, _. split_and!.
  - unfold mfkg_iteration. unfold mbind, prog_bind, mret, prog_ret.
    eapply returns_bind.
    { apply initialize_model_returns. congruence. }
    cbv beta iota. answer Hcx.
    eapply returns_bind; [exact Hmfkg|]. cbv beta iota.
    eapply returns_bind; [exact Hopt|]. cbv beta iota.
    answer Hcx. answer Hcy. apply returns_ret.
  - done.
  - done.
  - done.
  - done.
  - done.
  - done.
  - split_and!; cbn [st_train_x st_train_obj].
    + apply has_shape_app; [done|done].
    + apply has_shape_app; [done|done].
    + by apply Forall_app.
Qed.

(** The data cell followed by [i] iterations of the loop. *)
Lemma mfkg_run_returns (environ : gmap string string) (i : nat) (w : world) :
  exists s w',
    returns (botorch noise pick objective) (mfkg_run environ i) w s w'
    /\ well_shaped (16 + 4 * i) s
    /\ (i = 0%nat -> st_model s = None)
    /\ (forall k, i = S k ->
          exists m, st_model s = Some m /\ m = {| train_X := take (16 + 4 * k) (st_train_x s);
                 train_Y := take (16 + 4 * k) (st_train_obj s);
                 outcome_transform := {| standardize_m := 1 |};
                 data_fidelities := [6%nat] |}).
Proof.
  destruct (generate_initial_data_returns 16 w) as (tx & ty & w0 & Hgen & Hx & Hy & Hf).
  assert (forall i s w n, well_shaped n s ->
            exists s' w', returns (botorch noise pick objective)
                            (for_range i (mfkg_iteration environ) s) w s' w'
              /\ well_shaped (n + 4 * i) s'
              /\ (i = 0%nat -> s' = s)
              /\ (forall k, i = S k ->
                    exists m, st_model s' = Some m
                      /\ m = {| train_X := take (n + 4 * k) (st_train_x s');
                                train_Y := take (n + 4 * k) (st_train_obj s');
                                outcome_transform := {| standardize_m := 1 |};
                                data_fidelities := [6%nat] |})) as Hloop.
  { clear. induction i as [|i IH]; intros s w n Hs.
    - exists s, w. split_and!; [apply returns_ret|by rewrite Nat.mul_0_r, Nat.add_0_r|done|done].
    - destruct (mfkg_iteration_returns environ s n w Hs)
        as (s1 & nx & ny & w1 & Hit & Hx1 & Hy1 & Hnx & Hny & Hm & _ & Hs1).
      destruct (IH s1 w1 (n + 4)%nat Hs1) as (s2 & w2 & Hrest & Hs2 & H0 & HS).
      exists s2, w2. split_and!.
      + cbn [for_range]. unfold mbind, prog_bind.
        eapply returns_bind; [exact Hit|exact Hrest].
      + by replace (n + 4 * S i)%nat with (n + 4 + 4 * i)%nat by lia.
      + done.
      + intros k [= <-]. destruct i as [|i].
        * rewrite (H0 eq_refl). eexists. split; [exact Hm|].
          rewrite Hx1, Hy1, Nat.mul_0_r, Nat.add_0_r.
          destruct Hs as ([Hlx _] & [Hly _] & _).
          rewrite !take_app_length' by done. done.
        * destruct (HS i eq_refl) as (m & Hm2 & ->). eexists. split; [exact Hm2|].
          by replace (n + 4 * S i)%nat with (n + 4 + 4 * i)%nat by lia. }
  destruct (Hloop i (initial_state (tx, ty) None) w0 16%nat) as (s & w' & Hrun & Hs & H0 & HS).
  { done. }
  exists s, w'. split_and!.
  - unfold mfkg_run, mbind, prog_bind. eapply returns_bind; [exact Hgen|exact Hrun].
  - done.
  - intros ->. by rewrite (H0 eq_refl).
  - done.
Qed.


Lemma drop_last_column_bounds :
  drop_last_column bounds = [replicate 6 (dec 0 1); replicate 6 (dec 1 1)].
Proof. reflexivity. Qed.

(** Putting the fixed fidelity back after six free columns. *)
Lemma construct_row_fidelity (x : list Qc) (v : Qc) :
  length x = 6%nat -> construct_row 7 [6%nat] [v] x = Some (x ++ [v])%list.
Proof.
  intros Hx. do 7 (destruct x as [|? x]; try discriminate Hx). reflexivity.
Qed.

(** A point of another width is refused. *)
Lemma construct_row_width (x : list Qc) (v : Qc) :
  length x ≠ 6%nat -> construct_row 7 [6%nat] [v] x = None.
Proof.
  intros Hx. unfold construct_row. simpl.
  destruct (Nat.eqb_spec (length x + 1) 7); [lia|done].
Qed.

(** The recommendation: one point, found over the six design columns, with
    the target fidelity put back as its seventh column. *)
Lemma get_recommendation_returns (model : model_obj) (w : world) :
  exists x w',
    returns (botorch noise pick objective) (get_recommendation model) w
      [(x ++ [dec 1 1])%list] w'
    /\ length x = 6%nat.
Proof.
  set (x := raw_point noise (replicate 6 (dec 0 1)) (replicate 6 (dec 1 1)) (draws w + 0 * 6)).
  assert (length x = 6%nat) as Hx by (unfold x; by rewrite length_raw_point).
  assert (construct_X_full (FixedFeatureOf (PosteriorMeanOf model) 7 [6%nat] [dec 1 1]) [x]
          = inr [(x ++ [dec 1 1])%list]) as Hfull.
  { unfold construct_X_full.
    replace (mapM _ [x]) with (Some [(x ++ [dec 1 1])%list]); [done|].
    symmetry. apply mapM_Some. constructor; [by apply construct_row_fidelity|constructor]. }
  assert (problem_forward objective problem [(x ++ [dec 1 1])%list]
          = inr [(if negate problem then - objective (x ++ [dec 1 1])
                  else objective (x ++ [dec 1 1]))%Qc]) as Hprob.
  { rewrite problem_forward_ok; [done|]. constructor; [|done].
    rewrite length_app, Hx. reflexivity. }
  exists x. eexists. split; [|done].
  unfold get_recommendation.
  answer I. answer I. answer I.
  unfold mbind, prog_bind, mret, prog_ret. eapply returns_bind.
  { apply returns_call. unfold botorch. cbv beta iota.
    rewrite drop_last_column_bounds. reflexivity. }
  cbv beta iota. fold x.
  answer Hfull. answer Hprob. answer I. apply returns_ret.
Qed.

End Model.
End TutorialFacts.

(** ** The tutorial's claims *)

Module TutorialClaims.
Import Py PyFacts RunFacts MFKG Botorch BotorchFacts TutorialFacts.

(** C4 -- the flag [SMOKE_TEST] selects the six reduced numbers (2, 4, 2, one
    iteration, 2, 4) when set to a non-empty string and the six full ones
    (10, 1024, 128, three iterations, 5, 128) when unset; the notebook is the
    one in which these six numbers are parameters, so nothing else depends
    on the flag. *)
Theorem smoke_test_selects_parameters (environ : gmap string string) :
  (forall s, environ !! "SMOKE_TEST" = Some s -> s ≠ "" ->
     get_mfkg_kwargs environ
       = {| q := 1; num_restarts := 2; raw_samples := 4; batch_limit := 10; maxiter := 200 |}
     /\ get_mfkg_num_fantasies environ = 2%nat
     /\ N_ITER environ = 1%nat
     /\ NUM_RESTARTS environ = 2%nat
     /\ RAW_SAMPLES environ = 4%nat
     /\ SmokeSpec.select (SMOKE_TEST environ) = SmokeSpec.reduced)
  /\ (environ !! "SMOKE_TEST" = None ->
     get_mfkg_kwargs environ
       = {| q := 1; num_restarts := 10; raw_samples := 1024; batch_limit := 10;
            maxiter := 200 |}
     /\ get_mfkg_num_fantasies environ = 128%nat
     /\ N_ITER environ = 3%nat
     /\ NUM_RESTARTS environ = 5%nat
     /\ RAW_SAMPLES environ = 128%nat
     /\ SmokeSpec.select (SMOKE_TEST environ) = SmokeSpec.full)
  /\ (forall model,
        get_mfkg environ model
        = SmokeSpec.get_mfkg_with (SmokeSpec.select (SMOKE_TEST environ)) model)
  /\ (forall a,
        optimize_mfkg_and_get_observation environ a
        = SmokeSpec.optimize_mfkg_with (SmokeSpec.select (SMOKE_TEST environ)) a)
  /\ notebook environ = SmokeSpec.notebook_with (SmokeSpec.select (SMOKE_TEST environ)).
Proof.
  unfold notebook, SmokeSpec.notebook_with, mfkg_loop, mfkg_run, ei_loop,
    SmokeSpec.mfkg_iteration_with, mfkg_iteration, get_mfkg, SmokeSpec.get_mfkg_with,
    optimize_mfkg_and_get_observation, SmokeSpec.optimize_mfkg_with,
    get_mfkg_kwargs, get_mfkg_num_fantasies, N_ITER, NUM_RESTARTS, RAW_SAMPLES,
    BATCH_SIZE, SMOKE_TEST.
  destruct (environ !! "SMOKE_TEST") as [[|c s]|].
  - split_and!; [by intros s [= <-] ?|done|reflexivity..].
  - split_and!; [|done|reflexivity..]. intros s' _ _. split_and!; reflexivity.
  - split_and!; [done| |reflexivity..]. intros _. split_and!; reflexivity.
Qed.

Section Model.
Variable noise : nat -> Qc.
Variable pick : nat -> nat.
Variable objective : list Qc -> Qc.

(** C5 -- the loop is generate, fit, construct, optimize, observe, repeat:
    the initial data is 16 x 7 with 16 x 1 observations; every iteration
    builds the model on all data so far and appends exactly four rows to
    both; after [i] iterations both have 16 + 4 i rows. *)
Theorem bo_loop_row_counts (environ : gmap string string) (w : world) :
  BATCH_SIZE = 4%nat
  /\ (exists train_x train_obj w',
        returns (botorch noise pick objective) (generate_initial_data 16) w
          (train_x, train_obj) w'
        /\ has_shape 16 7 train_x /\ has_shape 16 1 train_obj)
  /\ (forall s n w0, well_shaped n s ->
        exists s' new_x new_obj w',
          returns (botorch noise pick objective) (mfkg_iteration environ s) w0 s' w'
          /\ st_train_x s' = (st_train_x s ++ new_x)%list
          /\ st_train_obj s' = (st_train_obj s ++ new_obj)%list
          /\ length new_x = BATCH_SIZE /\ length new_obj = BATCH_SIZE
          /\ st_model s' = Some {| train_X := st_train_x s; train_Y := st_train_obj s;
                                   outcome_transform := {| standardize_m := 1 |};
                                   data_fidelities := [6%nat] |})
  /\ (forall i, exists s w',
        returns (botorch noise pick objective) (mfkg_run environ i) w s w'
        /\ has_shape (16 + 4 * i) 7 (st_train_x s)
        /\ has_shape (16 + 4 * i) 1 (st_train_obj s)
        /\ length (st_train_x s) = length (st_train_obj s))
  /\ (exists s w',
        returns (botorch noise pick objective) (mfkg_loop environ) w s w'
        /\ length (st_train_x s) = (16 + 4 * N_ITER environ)%nat
        /\ length (st_train_obj s) = (16 + 4 * N_ITER environ)%nat).
Proof.
  split_and!.
  - reflexivity.
  - destruct (generate_initial_data_returns noise pick objective 16 w)
      as (tx & ty & w' & Hr & Hx & Hy & _). by exists tx, ty, w'.
  - intros s n w0 Hs.
    destruct (mfkg_iteration_returns noise pick objective environ s n w0 Hs)
      as (s' & nx & ny & w' & Hr & Hx & Hy & [Hlx _] & [Hly _] & Hm & _).
    by exists s', nx, ny, w'.
  - intros i.
    destruct (mfkg_run_returns noise pick objective environ i w)
      as (s & w' & Hr & ([Hlx Hwx] & [Hly Hwy] & _) & _).
    exists s, w'. split_and!; [done|done|done|congruence].
  - destruct (mfkg_run_returns noise pick objective environ (N_ITER environ) w)
      as (s & w' & Hr & ([Hlx Hwx] & [Hly Hwy] & _) & _).
    by exists s, w'.
Qed.

(** C6 -- the cost of a point is 0.25 plus its fidelity (column 6), and the
    cost the BO step returns for its batch is 0.25 q plus the sum of the
    fidelities of the q points it returns: each of them has seven columns,
    the cost model gives 0.25 plus the seventh for each, and the returned
    cost is the sum of these. *)
Theorem fidelity_determines_cost (environ : gmap string string) (a : acqf) (w : world) :
  cost_model = {| fidelity_weights := [(6%nat, dec 1 1)]; fixed_cost := dec 1 4 |}
  /\ (forall x v, x !! 6%nat = Some v ->
        cost_model_forward cost_model [x] = inr [[(dec 1 4 + v)%Qc]])
  /\ (forall X, Forall (fun x => (6 < length x)%nat) X ->
        exists C, cost_model_forward cost_model X = inr C
          /\ tensor_sum C = (dec 1 4 * qc_of_nat (length X) + sum_list (map fidelity X))%Qc)
  /\ (exists new_x new_obj cost w',
        returns (botorch noise pick objective)
          (optimize_mfkg_and_get_observation environ a) w (new_x, new_obj, cost) w'
        /\ length new_x = BATCH_SIZE
        /\ cost = (dec 1 4 * qc_of_nat (length new_x) + sum_list (map fidelity new_x))%Qc
        /\ has_shape BATCH_SIZE 7 new_x
        /\ exists fids C,
             Forall2 (fun x v => x !! 6%nat = Some v) new_x fids
             /\ cost_model_forward cost_model new_x = inr C
             /\ C = map (fun v => [(dec 1 4 + v)%Qc]) fids
             /\ cost = tensor_sum C
             /\ cost = (dec 1 4 * qc_of_nat BATCH_SIZE + sum_list fids)%Qc).
Proof.
  split_and!.
  - reflexivity.
  - intros x v Hv. unfold cost_model_forward. simpl.
    by rewrite (affine_cost_point x v Hv).
  - intros X HX. eexists. split; [by apply cost_model_forward_ok|apply batch_cost].
  - destruct (optimize_mfkg_returns noise pick objective environ a w)
      as (nx & ny & w' & Hr & [Hl Hw] & _).
    assert (Forall (fun x => (6 < length x)%nat) nx) as Hwide
      by (eapply Forall_impl; [exact Hw|]; simpl; intros; lia).
    eexists nx, ny, _, w'. split_and!; [exact Hr|exact Hl|reflexivity|done|].
    exists (map fidelity nx), (map (fun x => [(dec 1 4 + fidelity x)%Qc]) nx).
    split_and!.
    + apply Forall2_fmap_r, Forall_Forall2_diag.
      eapply Forall_impl; [exact Hwide|]. intros x Hx. by apply fidelity_lookup.
    + by apply cost_model_forward_ok.
    + by rewrite <- list_fmap_compose.
    + by rewrite batch_cost.
    + by rewrite Hl.
Qed.

(** C8 -- every candidate the BO step returns has its fidelity coordinate
    (column 6) equal to 0.5, 0.75 or 1.0. *)
Theorem candidates_at_discrete_fidelities (environ : gmap string string) (a : acqf)
    (w : world) :
  exists new_x new_obj cost w',
    returns (botorch noise pick objective)
      (optimize_mfkg_and_get_observation environ a) w (new_x, new_obj, cost) w'
    /\ length new_x = BATCH_SIZE
    /\ Forall (fun x => x !! 6%nat = Some (dec 1 2) \/ x !! 6%nat = Some (dec 3 4)
                        \/ x !! 6%nat = Some (dec 1 1)) new_x.
Proof.
  destruct (optimize_mfkg_returns noise pick objective environ a w)
    as (nx & ny & w' & Hr & [Hl Hw] & _ & Hf).
  eexists nx, ny, _, w'. split_and!; [exact Hr|exact Hl|].
  apply Forall_forall. intros x Hx.
  rewrite Forall_forall in Hw, Hf.
  specialize (Hw x Hx). specialize (Hf x Hx).
  rewrite (fidelity_lookup x) by lia.
  unfold fidelities in Hf.
  apply elem_of_cons in Hf as [->|Hf]; [by left|].
  apply elem_of_cons in Hf as [->|Hf]; [by right; left|].
  apply list_elem_of_singleton in Hf as ->. by right; right.
Qed.

(** C9 -- the recommendation is one point whose fidelity coordinate (column
    6) is the target fidelity 1.0: the optimization runs over the six design
    columns (the box without its last column) and the fixed column is put
    back. *)
Theorem recommendation_at_target_fidelity (model : model_obj) (w : world) :
  has_shape 2 6 (drop_last_column bounds)
  /\ target_fidelities = [(6%nat, dec 1 1)]
  /\ exists x w',
       returns (botorch noise pick objective) (get_recommendation model) w [x] w'
       /\ length x = 7%nat
       /\ x !! 6%nat = Some (dec 1 1).
Proof.
  split_and!.
  - rewrite drop_last_column_bounds. split; [done|]. by repeat constructor.
  - reflexivity.
  - destruct (get_recommendation_returns noise pick objective model w) as (x & w' & Hr & Hx).
    exists (x ++ [dec 1 1])%list, w'. split_and!; [done| |].
    + rewrite length_app, Hx. reflexivity.
    + rewrite lookup_app_r by lia. rewrite Hx. reflexivity.
Qed.

End Model.
End TutorialClaims.

(** ** The delete step of Publish Website *)

Module DocusaurusClaims.
Import Shell Docusaurus.

(** C10 -- the delete step is meant to remove the versions that share the
    new version's major.minor.  For a tag with the "v" prefix it removes
    nothing: after release v0.1.0 the directory is [version-v0.1.0], the
    step for v0.1.1 globs [version-0.1.*], and the directory, its sidebar
    file and its line of versions.json all stay, although both tags reduce
    to 0.1.  With tags that carry no "v" the step removes the 0.1 line and
    leaves 0.2 alone. *)
Theorem delete_misses_v_prefixed_versions :
  major_minor "v0.1.0" = major_minor "v0.1.1"
  /\ glob_versions (major_minor "v0.1.1") site_after_v0_1_0 = []
  /\ delete_similar_versions "v0.1.1" site_after_v0_1_0 = (site_after_v0_1_0, true, [])
  /\ delete_similar_versions "0.1.1" site_plain
     = ({| versioned_docs := [("version-0.2.0", true)];
           versioned_sidebars := ["version-0.2.0-sidebars.json"];
           versions_json := ["["; "  " ++ dq ++ "0.2.0" ++ dq ++ ","; "]"] |},
        true,
        ["Deleting older version 0.1.0 with the same major and minor version numbers as "]).
Proof.
  split_and!.
  - reflexivity.
  - reflexivity.
  - reflexivity.
  - vm_compute. reflexivity.
Qed.
End DocusaurusClaims.

(** ** Deploy On Release, run against a release *)

Module ReleaseFacts.
Import Shell ShellFacts Actions ActionsFacts TraceFacts Workflows Scripts WorkflowFacts.

Lemma strip_v_other (c : ascii) (r : string) :
  c ≠ "v"%char -> strip_v (String c r) = String c r.
Proof.
  intros Hc. destruct c as [[] [] [] [] [] [] [] []]; try reflexivity. by destruct Hc.
Qed.

Lemma strip_v_cut_plain (s : string) :
  starts_with "v" s = false -> strip_v (cut_f1_2 s) = cut_f1_2 s.
Proof.
  destruct s as [|c s]; [done|]. intros Hv.
  assert (c ≠ "v"%char) as Hcv by (intros ->; cbn in Hv; discriminate Hv).
  unfold cut_f1_2. cbn [fields].
  pose proof (fields_nonempty "." s) as Hne.
  destruct (Ascii.eqb_spec c ".") as [->|Hc].
  - destruct (fields "." s) as [|w ws]; [done|]. done.
  - destruct (fields "." s) as [|w ws]; [done|].
    destruct ws as [|w' ws]; cbn [take String.concat].
    + by apply strip_v_other.
    + change (String c w ++ "." ++ w') with (String c (w ++ "." ++ w')).
      by apply strip_v_other.
Qed.

(** X1 -- the reduction of a tag removes the patch number and whatever
    follows it: a tag a.b.p, with no dot in a or b, reduces to a.b without
    its optional "v". *)
Theorem major_minor_ignores_patch (a b p : string) :
  dotless a = true -> dotless b = true ->
  major_minor (a ++ "." ++ b ++ "." ++ p) = strip_v (a ++ "." ++ b).
Proof. intros Ha Hb. unfold major_minor. by rewrite cut_f1_2_patch. Qed.

Lemma major_minor_ignores_patch_witness : major_minor "v0.12.3.dev1" = "0.12".
Proof. apply (major_minor_ignores_patch "v0" "12" "3.dev1"); reflexivity. Defined.

(** X2 -- the reduction of a tag does not depend on the optional "v"
    prefix: for a tag that does not itself start with "v", the tag and the
    tag with a "v" in front reduce to the same major.minor. *)
Theorem v_prefix_is_optional (s : string) :
  starts_with "v" s = false -> major_minor (String "v" s) = major_minor s.
Proof.
  intros Hv. unfold major_minor. rewrite cut_f1_2_v. cbn [strip_v].
  by rewrite strip_v_cut_plain.
Qed.

Lemma v_prefix_is_optional_witness :
  starts_with "v" "0.12.3" = false /\ major_minor "v0.12.3" = major_minor "0.12.3".
Proof. split; [reflexivity | apply (v_prefix_is_optional "0.12.3"); reflexivity]. Defined.








Section Green.
Variable r : runner.
Variable inputs : gmap string value.

(** A job without continue-on-error that succeeded has run, with success,
    every step whose [if:] held. *)
Lemma run_steps_all_ran (ctx : context) (j : string) (ss : list step) (idx : nat) (s : step) :
  strict ss -> (run_steps r ctx j idx ss).1.2 = true ->
  s ∈ ss -> cond_holds ctx (step_if s) = true ->
  StepRun j (step_name s) true ∈ (run_steps r ctx j idx ss).1.1.
Proof.
  revert idx. induction ss as [|s0 ss IH]; intros idx Hstrict Hok Hs Hcond.
  { by apply elem_of_nil in Hs. }
  assert (strict ss) as Hstrict' by (intros s' ?; apply Hstrict; by right).
  assert (step_continue_on_error s0 = false) as Hc0 by (apply Hstrict; by left).
  simpl in *. rewrite Hc0, orb_false_r in *.
  apply elem_of_cons in Hs as [->|Hs].
  - rewrite Hcond in *. destruct (sr_ok (exec_step r j idx)) eqn:Hsr; [|done].
    destruct (run_steps r ctx j (S idx) ss) as [[tr ok] outs]. simpl. by left.
  - destruct (cond_holds ctx (step_if s0)); [|by apply IH].
    destruct (sr_ok (exec_step r j idx)) eqn:Hsr; [|done].
    specialize (IH (S idx) Hstrict').
    destruct (run_steps r ctx j (S idx) ss) as [[tr ok] outs]. simpl in *.
    right. by apply IH.
Qed.


Lemma run_jobs_extends (js : list job) (st : run_state) :
  exists seg, trace (run_jobs r inputs js st) = (trace st ++ seg)%list.
Proof.
  revert st. induction js as [|j js IH]; intros st.
  - exists []. by rewrite app_nil_r.
  - rewrite run_jobs_cons. destruct (IH (run_job r inputs st j)) as [seg' ->].
    destruct (run_job_trace r inputs st j) as (sg & c & -> & _).
    eexists. by rewrite <- !(assoc_L (++)).
Qed.

(** A job that concluded in success has every step whose [if:] holds in the
    trace, with success. *)
Lemma success_ran_steps (js : list job) (seen : list string) (st : run_state)
    (j : job) (s : step) :
  well_ordered seen js = true -> j ∈ js ->
  results (run_jobs r inputs js st) !! job_id j = Some Success ->
  strict (steps_of j) -> s ∈ steps_of j ->
  (forall outs, cond_holds {| ctx_inputs := inputs; ctx_needs := job_needs j;
                              ctx_outputs := outs |} (step_if s) = true) ->
  StepRun (job_id j) (step_name s) true ∈ trace (run_jobs r inputs js st).
Proof.
  revert seen st. induction js as [|j0 js IH]; intros seen st Hw Hj Hres Hstrict Hs Hcond.
  { by apply elem_of_nil in Hj. }
  pose proof Hw as Hw0.
  apply well_ordered_cons in Hw as (Hneeds & Hid & Hw).
  rewrite run_jobs_cons in *.
  apply elem_of_cons in Hj as [->|Hj]; [|by eapply IH].
  rewrite (results_stable r inputs js (job_id j0 :: seen)) in Hres; [|done|by left].
  destruct (run_jobs_extends js (run_job r inputs st j0)) as [seg ->].
  apply elem_of_app. left. revert Hres. unfold run_job.
  destruct (needs_succeeded st j0 && cond_holds _ (job_if j0)).
  2:{ cbn [results]. rewrite lookup_insert_eq. done. }
  unfold steps_of in Hstrict, Hs. destruct (job_body j0) as [ss|path].
  2:{ by apply elem_of_nil in Hs. }
  pose proof (run_steps_all_ran
    {| ctx_inputs := inputs; ctx_needs := job_needs j0; ctx_outputs := outputs st |}
    (job_id j0) ss 0 s Hstrict) as Hall.
  destruct (run_steps r _ (job_id j0) 0 ss) as [[tr ok] outs].
  cbn [results trace]. rewrite lookup_insert_eq. destruct ok; [|done]. intros _.
  rewrite elem_of_app. right. apply elem_of_app. left. by apply Hall.
Qed.

End Green.







(** X6 -- in Deploy On Release, the versions are compared -- and so the
    website published -- only after every step of the package job, the
    upload to PyPI included, has run with success. *)
Theorem versions_checked_after_pypi_upload (r : runner) (inputs : gmap string value)
    (s : step) :
  let st := run_workflow r inputs deploy_on_release in
  ran st "check-versions" \/ ran st "version-and-publish-website" ->
  s ∈ steps_of package_deploy_pypi ->
  StepRun "package-deploy-pypi" (step_name s) true ∈ trace st.
Proof.
  intros st Hran Hs.
  pose proof deploy_on_release_well_ordered as Hwo.
  assert (ran st "check-versions") as Hcv.
  { destruct Hran as [H|H]; [done|]. left.
    apply (needs_respected r inputs _ [] init_state version_and_publish_website
             "check-versions" Hwo); [in_list|in_list|exact H]. }
  assert (results st !! "package-deploy-pypi" = Some Success) as Hpkg.
  { apply (needs_respected r inputs _ [] init_state check_versions
             "package-deploy-pypi" Hwo); [in_list|in_list|exact Hcv]. }
  apply (success_ran_steps r inputs (wf_jobs deploy_on_release) [] init_state
           package_deploy_pypi s Hwo); [in_list|exact Hpkg| |exact Hs|].
  - apply ErrorClaims.deploy_on_release_strict. in_list.
  - intros outs. cbn [steps_of job_body package_deploy_pypi] in Hs.
    repeat (apply elem_of_cons in Hs as [->|Hs]; [reflexivity|]).
    by apply elem_of_nil in Hs.
Qed.

Lemma versions_checked_after_pypi_upload_witness :
  let rel := {| tag_name := "v0.13.0"; fetch_ok := true; git_describe := Some "v0.12.4" |} in
  let other := {| exec_step := fun _ _ => {| sr_ok := true; sr_outputs := [] |};
                  exec_call := fun _ => true |} in
  StepRun "package-deploy-pypi" "Deploy to PyPI" true
    ∈ trace (run_workflow (release_runner rel other) ∅ deploy_on_release).
Proof.
  intros rel other.
  apply (versions_checked_after_pypi_upload (release_runner rel other) ∅
           (plain_step "Deploy to PyPI" (Uses "pypa/gh-action-pypi-publish@release/v1"))).
  - left. left. by vm_compute.
  - cbn [steps_of job_body package_deploy_pypi]. in_list.
Defined.





End ReleaseFacts.

(** ** The delete step of Publish Website *)

Module GlobFacts.
Import Shell ShellFacts Glob.







End GlobFacts.

Module DeleteFacts.
Import Shell ShellFacts Glob GlobFacts Docusaurus.













(** What the glob gives is in the directory. *)
Lemma glob_versions_docs (mm : string) (w : site) (e : string * bool) :
  e ∈ glob_versions mm w -> e ∈ versioned_docs w.
Proof.
  unfold glob_versions.
  destruct (filter _ (versioned_docs w)) as [|m ms] eqn:Hf.
  - by intros [_ ?]%list_elem_of_filter.
  - rewrite <- Hf. by intros [_ ?]%list_elem_of_filter.
Qed.
















(** The whole run for ?.1.5: both directories with minor number 1 are
    deleted, with their sidebar files and their lines. *)
Example delete_question_mark_run :
  delete_similar_versions "?.1.5" site_majors
  = ({| versioned_docs := [("version-0.2.0", true)];
        versioned_sidebars := ["version-0.2.0-sidebars.json"];
        versions_json := ["["; "  " ++ dq ++ "0.2.0" ++ dq ++ ","; "]"] |},
     true,
     [deleting_line "0.1.0"; deleting_line "2.1.0"]).
Proof. vm_compute. reflexivity. Qed.

End DeleteFacts.

(** ** The steps of Publish Website *)

Module PublishFacts.
Import Shell Actions ActionsFacts TraceFacts Workflows Scripts WorkflowFacts.

Section Steps.
Variable r : runner.
Variable ctx : context.
Variable j : string.

(** When every step succeeds, the steps that run are those whose [if:]
    holds, in the order of the file. *)
Lemma run_steps_green_trace (ss : list step) (idx : nat) :
  (forall i, sr_ok (exec_step r j i) = true) ->
  (run_steps r ctx j idx ss).1
  = (map (fun s => StepRun j (step_name s) true)
       (List.filter (fun s => cond_holds ctx (step_if s)) ss), true).
Proof.
  intros Hg. revert idx. induction ss as [|s ss IH]; intros idx; [done|].
  cbn [run_steps List.filter]. destruct (cond_holds ctx (step_if s)); [|apply IH].
  rewrite Hg. cbn [orb]. specialize (IH (S idx)).
  destruct (run_steps r ctx j (S idx) ss) as [[tr ok] outs]. cbn [fst] in *.
  injection IH as -> ->. done.
Qed.

(** In a job without continue-on-error, a step runs only after every
    earlier step whose [if:] holds has run with success. *)
Lemma run_steps_earlier (pre post : list step) (s s0 : step) (idx : nat) (ok : bool) :
  strict (pre ++ s :: post)%list ->
  (forall s', s' ∈ pre -> step_name s' ≠ step_name s) ->
  StepRun j (step_name s) ok ∈ (run_steps r ctx j idx (pre ++ s :: post)%list).1.1 ->
  s0 ∈ pre -> cond_holds ctx (step_if s0) = true ->
  StepRun j (step_name s0) true ∈ (run_steps r ctx j idx (pre ++ s :: post)%list).1.1.
Proof.
  revert idx. induction pre as [|p pre IH]; intros idx Hstrict Hnames Hin Hs0 Hcond.
  { by apply elem_of_nil in Hs0. }
  assert (strict (pre ++ s :: post)%list) as Hstrict'
    by (intros s' ?; apply Hstrict; by right).
  assert (step_continue_on_error p = false) as Hc by (apply Hstrict; by left).
  assert (forall s', s' ∈ pre -> step_name s' ≠ step_name s) as Hnames'
    by (intros s' ?; apply Hnames; by right).
  assert (step_name p ≠ step_name s) as Hp by (apply Hnames; by left).
  change ((p :: pre) ++ s :: post)%list with (p :: (pre ++ s :: post))%list in *.
  cbn [run_steps] in *. rewrite Hc, orb_false_r in *.
  destruct (cond_holds ctx (step_if p)) eqn:Hcp.
  - destruct (sr_ok (exec_step r j idx)) eqn:Hok.
    + specialize (IH (S idx) Hstrict' Hnames').
      destruct (run_steps r ctx j (S idx) (pre ++ s :: post)) as [[tr ok'] outs].
      cbn [fst] in *. apply elem_of_cons in Hin as [[= Hn]|Hin]; [by destruct Hp|].
      apply elem_of_cons in Hs0 as [->|Hs0]; [by left|]. right. by apply IH.
    + cbn [fst] in Hin. apply list_elem_of_singleton in Hin as [= Hn]. by destruct Hp.
  - apply elem_of_cons in Hs0 as [->|Hs0]; [congruence|]. by apply IH.
Qed.

End Steps.

(** The events of the trace after a job: those before it, the events of its
    steps when it runs, and its conclusion. *)
Lemma run_job_events (r : runner) (inputs : gmap string value) (st : run_state) (j : job)
    (k n : string) (ok : bool) :
  StepRun k n ok ∈ trace (run_job r inputs st j) <->
  StepRun k n ok ∈ trace st
  \/ (needs_succeeded st j
      && cond_holds {| ctx_inputs := inputs; ctx_needs := job_needs j;
                       ctx_outputs := outputs st |} (job_if j) = true
      /\ StepRun k n ok ∈ (run_steps r {| ctx_inputs := inputs; ctx_needs := job_needs j;
                                          ctx_outputs := outputs st |}
                             (job_id j) 0 (steps_of j)).1.1).
Proof.
  unfold run_job, steps_of.
  destruct (needs_succeeded st j && cond_holds _ (job_if j)).
  - destruct (job_body j) as [ss|path].
    + destruct (run_steps r _ (job_id j) 0 ss) as [[tr c] outs]. cbn [trace fst].
      rewrite !elem_of_app, list_elem_of_singleton. split.
      * intros [H|[H|[=]]]; [by left|by right].
      * intros [H|[_ H]]; [by left|right; by left].
    + cbn [trace run_steps fst]. rewrite elem_of_app, list_elem_of_singleton. split.
      * intros [H|[=]]; by left.
      * intros [H|[_ H]]; [by left|by apply elem_of_nil in H].
  - cbn [trace]. rewrite elem_of_app, list_elem_of_singleton. split.
    + intros [H|[=]]; by left.
    + intros [H|[[=] _]]; by left.
Qed.

Section Publish.
Variable r : runner.
Variable inputs : gmap string value.


(** The step events of the build job in a run of Publish Website are the
    events of its steps. *)
Lemma build_website_events (n : string) (ok : bool) :
  StepRun "build-website" n ok ∈ trace (run_workflow r inputs publish_website) <->
  StepRun "build-website" n ok
    ∈ (run_steps r {| ctx_inputs := inputs; ctx_needs := []; ctx_outputs := ∅ |}
         "build-website" 0 (steps_of build_website)).1.1.
Proof.
  change (run_workflow r inputs publish_website)
    with (run_job r inputs (run_job r inputs init_state build_website) deploy_website).
  rewrite !run_job_events. split.
  - intros [[H|[_ H]]|[_ H]].
    + by apply elem_of_nil in H.
    + exact H.
    + by apply run_steps_events in H as (s & ok' & [= Hj _ _] & _).
  - intros H. left. right. split; [done|exact H].
Qed.


(** Finds the step of the build job that carries a given name. *)
Ltac find_step Hs Hname :=
  cbn [steps_of job_body build_website] in Hs;
  repeat (apply elem_of_cons in Hs as [->|Hs];
          [try solve [exfalso; vm_compute in Hname; discriminate Hname]|]);
  try (by apply elem_of_nil in Hs).

Lemma build_website_strict : strict (steps_of build_website).
Proof.
  intros s Hs. cbn [steps_of job_body build_website] in Hs.
  repeat (apply elem_of_cons in Hs as [->|Hs]; [reflexivity|]).
  by apply elem_of_nil in Hs.
Qed.

(** X13 -- in Publish Website, the latest GPyTorch and Linear Operator are
    installed only when no [new_version] is given, and the delete step runs
    only when one is given: no run has both steps. *)
Theorem latest_install_excludes_versioning :
  let st := run_workflow r inputs publish_website in
  let new_version := default VNull (inputs !! "new_version") in
  (forall ok,
     StepRun "build-website" "Install latest GPyTorch and Linear Operator" ok ∈ trace st ->
     truthy new_version = false)
  /\ (forall ok,
        StepRun "build-website" "Delete existing similar versions from Docusaurus" ok
          ∈ trace st ->
        truthy new_version = true)
  /\ (forall ok ok',
        StepRun "build-website" "Install latest GPyTorch and Linear Operator" ok ∈ trace st ->
        StepRun "build-website" "Delete existing similar versions from Docusaurus" ok'
          ∉ trace st).
Proof.
  intros st new_version.
  assert (forall ok,
     StepRun "build-website" "Install latest GPyTorch and Linear Operator" ok ∈ trace st ->
     truthy new_version = false) as Hlatest.
  { intros ok Hin. apply build_website_events in Hin.
    apply run_steps_events in Hin as (s & ok' & [= Hname _] & Hs & Hcond).
    symmetry in Hname. find_step Hs Hname.
    cbn [cond_holds step_if eval ctx_inputs] in Hcond. fold new_version in Hcond.
    cbn [truthy] in Hcond. by apply negb_true_iff in Hcond. }
  assert (forall ok,
        StepRun "build-website" "Delete existing similar versions from Docusaurus" ok
          ∈ trace st ->
        truthy new_version = true) as Hdelete.
  { intros ok Hin. apply build_website_events in Hin.
    apply run_steps_events in Hin as (s & ok' & [= Hname _] & Hs & Hcond).
    symmetry in Hname. find_step Hs Hname.
    cbn [cond_holds step_if eval ctx_inputs] in Hcond. by fold new_version in Hcond. }
  split_and!; [done|done|].
  intros ok ok' H1 H2. specialize (Hlatest ok H1). specialize (Hdelete ok' H2). congruence.
Qed.

(** X14 -- in Publish Website, the new docusaurus version is created, and
    pushed, only after the checkout, the installation steps and the delete
    step have all run with success. *)
Theorem create_runs_after_delete (ok : bool) :
  let st := run_workflow r inputs publish_website in
  StepRun "build-website" "Create new docusaurus version" ok ∈ trace st ->
  Forall (fun n => StepRun "build-website" n true ∈ trace st)
    [ "actions/checkout@v4"; "Install uv"; "Sync release branch with main"; "Set up Python";
      "Install dependencies"; "Delete existing similar versions from Docusaurus" ].
Proof.
  intros st Hin. apply build_website_events in Hin.
  pose proof Hin as Hc.
  apply run_steps_events in Hc as (s & ok' & [= Hname _] & Hs & Hcond).
  symmetry in Hname. find_step Hs Hname.
  cbn [cond_holds step_if eval ctx_inputs] in Hcond.
  destruct (truthy (default VNull (inputs !! "new_version"))) eqn:Hnv;
    [|by rewrite Hnv in Hcond].
  match type of Hin with
  | _ ∈ (run_steps _ ?c _ _ (steps_of build_website)).1.1 => set (ctx := c) in *
  end.
  pose proof (fun s0 => run_steps_earlier r ctx "build-website"
    (take 7 (steps_of build_website)) (drop 8 (steps_of build_website))
    {| step_id := ""; step_name := "Create new docusaurus version";
       step_if := Some (EAnd (EInput "new_version") (ENot (EInput "dry_run")));
       step_action := Run create_version_script_text;
       step_continue_on_error := false |} s0 0 ok build_website_strict) as Hearlier.
  cbn [step_name] in Hearlier.
  assert (forall s0, s0 ∈ take 7 (steps_of build_website) ->
            cond_holds ctx (step_if s0) = true ->
            StepRun "build-website" (step_name s0) true ∈ trace st) as Hran.
  { intros s0 Hs0 Hc0. apply build_website_events. fold ctx.
    apply Hearlier; [|exact Hin|exact Hs0|exact Hc0].
    intros s' Hs'. cbn [take steps_of job_body build_website] in Hs'.
    repeat (apply elem_of_cons in Hs' as [->|Hs']; [by vm_compute|]).
    by apply elem_of_nil in Hs'. }
  repeat apply Forall_cons_2; [| | | | | |apply Forall_nil_2].
  - apply (Hran (plain_step "actions/checkout@v4" (Uses "actions/checkout@v4")));
      [cbn [take steps_of job_body build_website]; in_list|done].
  - apply (Hran (plain_step "Install uv" (Uses "astral-sh/setup-uv@v5")));
      [cbn [take steps_of job_body build_website]; in_list|done].
  - refine (Hran (plain_step "Sync release branch with main" (Run _)) _ _);
      [cbn [take steps_of job_body build_website]; in_list|done].
  - apply (Hran (plain_step "Set up Python" (Uses "actions/setup-python@v5")));
      [cbn [take steps_of job_body build_website]; in_list|done].
  - refine (Hran (plain_step "Install dependencies" (Run _)) _ _);
      [cbn [take steps_of job_body build_website]; in_list|done].
  - refine (Hran {| step_id := ""; step_name := "Delete existing similar versions from Docusaurus";
                    step_if := Some (EInput "new_version");
                    step_action := Run delete_script_text;
                    step_continue_on_error := false |} _ _);
      [cbn [take steps_of job_body build_website]; in_list|].
    cbn [cond_holds step_if eval ctx ctx_inputs]. exact Hnv.
Qed.


(** A job all of whose steps succeed. *)
Lemma run_job_green (st : run_state) (j : job) (ss : list step) :
  job_body j = Steps ss ->
  needs_succeeded st j = true ->
  cond_holds {| ctx_inputs := inputs; ctx_needs := job_needs j; ctx_outputs := outputs st |}
    (job_if j) = true ->
  (forall i, sr_ok (exec_step r (job_id j) i) = true) ->
  trace (run_job r inputs st j)
  = (trace st
     ++ map (fun s => StepRun (job_id j) (step_name s) true)
          (List.filter
             (fun s => cond_holds {| ctx_inputs := inputs; ctx_needs := job_needs j;
                                     ctx_outputs := outputs st |} (step_if s)) ss)
     ++ [JobDone (job_id j) Success])%list
  /\ results (run_job r inputs st j) = <[job_id j := Success]> (results st).
Proof.
  intros Hb Hn Hc Hg. unfold run_job. rewrite Hn, Hc, Hb. cbn [andb].
  pose proof (run_steps_green_trace r
    {| ctx_inputs := inputs; ctx_needs := job_needs j; ctx_outputs := outputs st |}
    (job_id j) ss 0 Hg) as Htr.
  destruct (run_steps r _ (job_id j) 0 ss) as [[tr ok] outs]. cbn [fst] in Htr.
  injection Htr as -> ->. done.
Qed.

(** X15 -- a run of Publish Website in which every step succeeds: which
    steps run, in which order, as a function of the inputs [new_version] and
    [dry_run].  Without a new version the latest GPyTorch is installed and
    nothing is deleted or created; with one, the delete step runs, and the
    create step unless it is a dry run; the site is deployed unless it is a
    dry run. *)
Theorem publish_website_green_run :
  (forall j i, sr_ok (exec_step r j i) = true) ->
  let versioned := truthy (default VNull (inputs !! "new_version")) in
  let dry := truthy (default VNull (inputs !! "dry_run")) in
  trace (run_workflow r inputs publish_website)
  = (map (fun n => StepRun "build-website" n true)
       ([ "actions/checkout@v4"; "Install uv"; "Sync release branch with main";
          "Set up Python" ]
        ++ (if versioned then [] else ["Install latest GPyTorch and Linear Operator"])
        ++ ["Install dependencies"]
        ++ (if versioned then ["Delete existing similar versions from Docusaurus"] else [])
        ++ (if versioned && negb dry then ["Create new docusaurus version"] else [])
        ++ ["Build website"; "Upload website build as artifact"])
     ++ [JobDone "build-website" Success]
     ++ (if dry then [JobDone "deploy-website" Skipped]
         else [StepRun "deploy-website" "Deploy to GitHub Pages" true;
               JobDone "deploy-website" Success]))%list.
Proof.
  intros Hg versioned dry. subst versioned dry.
  change (run_workflow r inputs publish_website)
    with (run_job r inputs (run_job r inputs init_state build_website) deploy_website).
  destruct (run_job_green init_state build_website (steps_of build_website) eq_refl
              eq_refl eq_refl (Hg "build-website")) as [Htr Hres].
  set (st1 := run_job r inputs init_state build_website) in *.
  cbn [steps_of job_body build_website List.filter cond_holds step_if plain_step eval
       ctx_inputs truthy trace init_state job_id] in Htr.
  destruct (truthy (default VNull (inputs !! "dry_run"))) eqn:Hdry.
  - unfold run_job.
    replace (cond_holds _ (job_if deploy_website)) with false
      by (cbn [cond_holds job_if deploy_website eval ctx_inputs truthy]; by rewrite Hdry).
    rewrite andb_false_r. cbn [trace job_id deploy_website]. rewrite Htr.
    destruct (truthy (default VNull (inputs !! "new_version"))) eqn:Hnv;
      cbn [negb truthy]; rewrite ?Hnv, ?Hdry; reflexivity.
  - destruct (run_job_green st1 deploy_website (steps_of deploy_website) eq_refl)
      as [Htr2 _].
    + cbn [needs_succeeded job_needs deploy_website forallb]. rewrite Hres.
      change (job_id build_website) with "build-website".
      rewrite lookup_insert_eq. by rewrite bool_decide_eq_true_2.
    + cbn [cond_holds job_if deploy_website eval ctx_inputs truthy]. by rewrite Hdry.
    + exact (Hg "deploy-website").
    + rewrite Htr2, Htr.
      cbn [steps_of job_body deploy_website List.filter cond_holds step_if map step_name
           job_id].
      destruct (truthy (default VNull (inputs !! "new_version"))) eqn:Hnv;
        cbn [negb truthy]; rewrite ?Hnv, ?Hdry; reflexivity.
Qed.

End Publish.

Lemma create_runs_after_delete_witness :
  let r := {| exec_step := fun _ _ => {| sr_ok := true; sr_outputs := [] |};
              exec_call := fun _ => true |} in
  let inputs : gmap string value :=
    <["new_version" := VStr "v0.13.0"]> (<["dry_run" := VBool false]> ∅) in
  StepRun "build-website" "Delete existing similar versions from Docusaurus" true
    ∈ trace (run_workflow r inputs publish_website).
Proof.
  intros r inputs.
  pose proof (create_runs_after_delete r inputs true) as H. cbv zeta in H.
  refine (proj1 (Forall_forall _ _) (H _) _ _).
  - vm_compute. in_list.
  - in_list.
Defined.

Lemma publish_website_green_run_witness :
  let r := {| exec_step := fun _ _ => {| sr_ok := true; sr_outputs := [] |};
              exec_call := fun _ => true |} in
  let inputs : gmap string value :=
    <["new_version" := VStr "v0.13.0"]> (<["dry_run" := VBool true]> ∅) in
  trace (run_workflow r inputs publish_website)
  = (map (fun n => StepRun "build-website" n true)
       [ "actions/checkout@v4"; "Install uv"; "Sync release branch with main";
         "Set up Python"; "Install dependencies";
         "Delete existing similar versions from Docusaurus";
         "Build website"; "Upload website build as artifact" ]
     ++ [JobDone "build-website" Success; JobDone "deploy-website" Skipped])%list.
Proof.
  intros r inputs. exact (publish_website_green_run r inputs (fun _ _ => eq_refl)).
Defined.

End PublishFacts.

(** ** The two loops of the discrete-fidelity tutorial *)

Module BaselineFacts.
Import Py PyFacts RunFacts MFKG Botorch BotorchFacts TutorialFacts.

Ltac in_list := repeat first [apply list_elem_of_here | apply list_elem_of_further].

(** The sum of [n] numbers between [lo] and [hi] lies between [n lo] and
    [n hi]. *)
Lemma sum_list_bounds (lo hi : Qc) (l : list Qc) :
  Forall (fun v => (lo <= v)%Qc /\ (v <= hi)%Qc) l ->
  (lo * qc_of_nat (length l) <= sum_list l)%Qc
  /\ (sum_list l <= hi * qc_of_nat (length l))%Qc.
Proof.
  induction 1 as [|v l [Hlo Hhi] _ [IHlo IHhi]].
  - change (qc_of_nat (length (@nil Qc))) with 0%Qc. change (sum_list []) with 0%Qc.
    rewrite !Qcmult_0_r. split; apply Qcle_refl.
  - cbn [length]. rewrite qc_of_nat_S. change (sum_list (v :: l)) with (v + sum_list l)%Qc.
    replace (lo * (1 + qc_of_nat (length l)))%Qc with (lo + lo * qc_of_nat (length l))%Qc
      by ring.
    replace (hi * (1 + qc_of_nat (length l)))%Qc with (hi + hi * qc_of_nat (length l))%Qc
      by ring.
    split; by apply Qcplus_le_compat.
Qed.

Lemma fidelities_range (v : Qc) :
  v ∈ fidelities -> (dec 1 2 <= v)%Qc /\ (v <= dec 1 1)%Qc.
Proof.
  intros Hv. unfold fidelities in Hv.
  repeat (apply elem_of_cons in Hv as [->|Hv]; [split; by vm_compute|]).
  by apply elem_of_nil in Hv.
Qed.

(** The cost of a batch of four points at the three fidelities lies between
    3 and 5. *)
Lemma batch_cost_bounds (X : tensor2) :
  length X = 4%nat -> Forall (fun x => fidelity x ∈ fidelities) X ->
  (dec 3 1 <= dec 1 4 * qc_of_nat (length X) + sum_list (map fidelity X))%Qc
  /\ (dec 1 4 * qc_of_nat (length X) + sum_list (map fidelity X) <= dec 5 1)%Qc.
Proof.
  intros Hlen Hfid.
  destruct (sum_list_bounds (dec 1 2) (dec 1 1) (map fidelity X)) as [Hlo Hhi].
  { rewrite List.Forall_map. eapply Forall_impl; [exact Hfid|].
    intros x Hx. by apply fidelities_range. }
  rewrite length_map, Hlen in Hlo, Hhi. rewrite Hlen.
  replace (dec 3 1) with (dec 1 4 * qc_of_nat 4 + dec 1 2 * qc_of_nat 4)%Qc
    by (apply Qc_is_canon; by vm_compute).
  replace (dec 5 1) with (dec 1 4 * qc_of_nat 4 + dec 1 1 * qc_of_nat 4)%Qc
    by (apply Qc_is_canon; by vm_compute).
  split; (apply Qcplus_le_compat; [apply Qcle_refl|done]).
Qed.

(** The cost of a batch of four points at fidelity 1 is 5. *)
Lemma batch_cost_target (X : tensor2) :
  length X = 4%nat -> Forall (fun x => fidelity x = dec 1 1) X ->
  (dec 1 4 * qc_of_nat (length X) + sum_list (map fidelity X))%Qc = dec 5 1.
Proof.
  intros Hlen Hfid.
  do 5 (destruct X as [|? X]; try discriminate Hlen).
  repeat (apply Forall_cons_1 in Hfid as [-> Hfid] || apply Forall_cons_1 in Hfid as [? Hfid]).
  cbn [map]. repeat match goal with H : fidelity _ = _ |- _ => rewrite H; clear H end.
  apply Qc_is_canon. by vm_compute.
Qed.

Section Model.
Variable noise : nat -> Qc.
Variable pick : nat -> nat.
Variable objective : list Qc -> Qc.

(** [optimize_acqf] over the six design columns: as many points as asked,
    six columns wide. *)
Lemma optimize_acqf_design (kw : optimize_kwargs) (k : nat) :
  exists X v,
    optimize_acqf noise (drop_last_column bounds) kw k = inr (X, v)
    /\ has_shape (q kw) 6 X.
Proof.
  rewrite drop_last_column_bounds. eexists _, _. split; [reflexivity|].
  split; [by rewrite length_map, length_seq|].
  rewrite List.Forall_map. apply Forall_forall. intros i _.
  by rewrite length_raw_point.
Qed.

(** Putting the fixed fidelity back into a batch of six-column points. *)
Lemma construct_X_full_fidelity (a : acqf) (v : Qc) (X : tensor2) :
  Forall (fun x => length x = 6%nat) X ->
  construct_X_full (FixedFeatureOf a 7 [6%nat] [v]) X
  = inr (map (fun x => (x ++ [v])%list) X).
Proof.
  intros HX. unfold construct_X_full.
  replace (mapM _ X) with (Some (map (fun x => (x ++ [v])%list) X)); [done|].
  symmetry. apply mapM_Some.
  induction HX as [|x X Hx HX IH]; cbn [map]; constructor; [|done].
  by apply construct_row_fidelity.
Qed.

Lemma fidelity_snoc (x : list Qc) (v : Qc) :
  length x = 6%nat -> fidelity (x ++ [v]) = v.
Proof.
  intros Hx. unfold fidelity. rewrite lookup_app_r by lia. by rewrite Hx.
Qed.

(** The EI step: four points of seven columns, all at fidelity 1, their
    four observations, and the cost 5. *)
Lemma optimize_ei_returns (a : acqf) (w : world) :
  exists new_x new_obj w',
    returns (botorch noise pick objective)
      (optimize_ei_and_get_observation (FixedFeatureOf a 7 [6%nat] [dec 1 1])) w
      (new_x, new_obj, dec 5 1) w'
    /\ has_shape 4 7 new_x
    /\ has_shape 4 1 new_obj
    /\ Forall (fun x => fidelity x = dec 1 1) new_x.
Proof.
  destruct (optimize_acqf_design
              {| q := BATCH_SIZE; num_restarts := 10; raw_samples := 512;
                 batch_limit := 5; maxiter := 200 |} (draws w))
    as (X & v & Hopt & [Hlen Hwidth]).
  cbn [q] in Hlen.
  set (new_x := map (fun x => (x ++ [dec 1 1])%list) X).
  pose proof (construct_X_full_fidelity a (dec 1 1) X Hwidth) as Hfull. fold new_x in Hfull.
  assert (Forall (fun x => length x = 7%nat) new_x) as Hw7.
  { unfold new_x. rewrite List.Forall_map. eapply Forall_impl; [exact Hwidth|].
    intros x Hx. rewrite length_app, Hx. reflexivity. }
  assert (Forall (fun x => fidelity x = dec 1 1) new_x) as Hfid.
  { unfold new_x. rewrite List.Forall_map. eapply Forall_impl; [exact Hwidth|].
    intros x Hx. by apply fidelity_snoc. }
  assert (length new_x = 4%nat) as Hlen' by (unfold new_x; by rewrite length_map).
  assert (Forall (fun x => (6 < length x)%nat) new_x) as Hwide
    by (eapply Forall_impl; [exact Hw7|]; simpl; intros; lia).
  pose proof (cost_model_forward_ok new_x Hwide) as Hcost.
  pose proof (problem_forward_ok objective problem new_x Hw7) as Hprob.
  eexists new_x, _, _. split_and!.
  - unfold optimize_ei_and_get_observation.
    answer I. answer Hopt. answer Hfull. answer Hcost. answer I. answer I. answer Hprob.
    answer I. answer I. answer I.
    rewrite batch_cost, (batch_cost_target new_x Hlen' Hfid). apply returns_ret.
  - done.
  - split; [by rewrite !length_map|].
    rewrite !List.Forall_map. by apply Forall_true.
  - done.
Qed.


Lemma tensor_max_column (t : tensor2) (n : nat) :
  has_shape (S n) 1 t -> exists v, tensor_max t = inr v.
Proof.
  intros [Hlen Hw]. destruct t as [|r t]; [discriminate Hlen|].
  apply Forall_cons_1 in Hw as [Hr _]. destruct r as [|v r]; [discriminate Hr|].
  unfold tensor_max. cbn [concat app]. eauto.
Qed.

Lemma get_ei_returns (model : model_obj) (best_f : Qc) (w : world) :
  returns (botorch noise pick objective) (get_ei model best_f) w
    (FixedFeatureOf (LogEIOf model best_f) 7 [6%nat] [dec 1 1]) w.
Proof. unfold get_ei. answer I. by apply returns_call. Qed.

(** One iteration of the EI loop: the model is built on all data so far,
    four points at fidelity 1 and their observations are appended, and the
    cost grows by 5. *)
Lemma ei_iteration_returns (s : loop_state) (n : nat) (w : world) :
  well_shaped (S n) s ->
  exists s' new_x new_obj w',
    returns (botorch noise pick objective) (ei_iteration s) w s' w'
    /\ st_train_x s' = (st_train_x s ++ new_x)%list
    /\ st_train_obj s' = (st_train_obj s ++ new_obj)%list
    /\ has_shape 4 7 new_x /\ has_shape 4 1 new_obj
    /\ Forall (fun x => fidelity x = dec 1 1) new_x
    /\ st_model s' = Some {| train_X := st_train_x s; train_Y := st_train_obj s;
                             outcome_transform := {| standardize_m := 1 |};
                             data_fidelities := [6%nat] |}
    /\ st_cumulative_cost s' = (st_cumulative_cost s + dec 5 1)%Qc
    /\ well_shaped (S n + 4) s'.
Proof.
  intros ([Hlx Hwx] & [Hly Hwy] & Hfid).
  set (model := {| train_X := st_train_x s; train_Y := st_train_obj s;
                   outcome_transform := {| standardize_m := 1 |};
                   data_fidelities := [6%nat] |}).
  destruct (tensor_max_column (st_train_obj s) n (conj Hly Hwy)) as [best_f Hmax].
  destruct (optimize_ei_returns (LogEIOf model best_f) w)
    as (new_x & new_obj & w2 & Hopt & Hsx & Hsy & Hfx).
  pose proof (torch_cat_rows 7 (st_train_x s) new_x Hwx (proj2 Hsx)) as Hcx.
  pose proof (torch_cat_rows 1 (st_train_obj s) new_obj Hwy (proj2 Hsy)) as Hcy.
  eexists _, new_x, new_obj, _. split_and!.
  - unfold ei_iteration. unfold mbind, prog_bind, mret, prog_ret.
    eapply returns_bind.
    { apply initialize_model_returns. congruence. }
    cbv beta iota. answer I. answer Hmax.
    eapply returns_bind; [apply get_ei_returns|]. cbv beta iota.
    eapply returns_bind; [exact Hopt|]. cbv beta iota.
    answer Hcx. answer Hcy. apply returns_ret.
  - done.
  - done.
  - done.
  - done.
  - done.
  - done.
  - done.
  - split_and!; cbn [st_train_x st_train_obj].
    + apply has_shape_app; [done|done].
    + apply has_shape_app; [done|done].
    + apply Forall_app. split; [done|].
      eapply Forall_impl; [exact Hfx|]. intros x ->. unfold fidelities. in_list.
Qed.

(** The data cell followed by [i] iterations of the EI loop. *)
Lemma ei_run_returns (i : nat) (data : tensor2 * tensor2) (model : option model_obj)
    (w : world) :
  has_shape 16 7 data.1 -> has_shape 16 1 data.2 ->
  Forall (fun x => fidelity x ∈ fidelities) data.1 ->
  exists s w',
    returns (botorch noise pick objective)
      (for_range i ei_iteration (initial_state data model)) w s w'
    /\ well_shaped (16 + 4 * i) s
    /\ take 16 (st_train_x s) = data.1
    /\ Forall (fun x => fidelity x = dec 1 1) (drop 16 (st_train_x s))
    /\ st_cumulative_cost s = (dec 5 1 * qc_of_nat i)%Qc
    /\ (i = 0%nat -> st_model s = model)
    /\ (forall k, i = S k ->
          st_model s = Some {| train_X := take (16 + 4 * k) (st_train_x s);
                               train_Y := take (16 + 4 * k) (st_train_obj s);
                               outcome_transform := {| standardize_m := 1 |};
                               data_fidelities := [6%nat] |}).
Proof.
  intros Hx Hy Hf.
  assert (forall i s w n, well_shaped (S n) s ->
            exists s' w', returns (botorch noise pick objective)
                            (for_range i ei_iteration s) w s' w'
              /\ well_shaped (S n + 4 * i) s'
              /\ take (S n) (st_train_x s') = st_train_x s
              /\ Forall (fun x => fidelity x = dec 1 1) (drop (S n) (st_train_x s'))
              /\ st_cumulative_cost s' = (st_cumulative_cost s + dec 5 1 * qc_of_nat i)%Qc
              /\ (i = 0%nat -> s' = s)
              /\ (forall k, i = S k ->
                    st_model s' = Some {| train_X := take (S n + 4 * k) (st_train_x s');
                                          train_Y := take (S n + 4 * k) (st_train_obj s');
                                          outcome_transform := {| standardize_m := 1 |};
                                          data_fidelities := [6%nat] |})) as Hloop.
  { clear. induction i as [|i IH]; intros s w n Hs.
    - exists s, w. destruct Hs as ([Hlx Hwx] & Hrest).
      split_and!; [apply returns_ret| | | | |done|done].
      + by rewrite Nat.mul_0_r, Nat.add_0_r.
      + apply take_ge. lia.
      + rewrite drop_ge by lia. constructor.
      + change (qc_of_nat 0) with 0%Qc. ring.
    - pose proof Hs as ([Hlx Hwx] & [Hly Hwy] & _).
      destruct (ei_iteration_returns s n w Hs)
        as (s1 & nx & ny & w1 & Hit & Hx1 & Hy1 & Hnx & Hny & Hfx & Hm & Hc & Hs1).
      replace (S n + 4)%nat with (S (n + 4)) in Hs1 by lia.
      destruct (IH s1 w1 (n + 4)%nat Hs1) as (s2 & w2 & Hrest & Hs2 & Htake & Hdrop & Hc2 & H0 & HS).
      exists s2, w2. split_and!.
      + cbn [for_range]. unfold mbind, prog_bind.
        eapply returns_bind; [exact Hit|exact Hrest].
      + by replace (S n + 4 * S i)%nat with (S (n + 4) + 4 * i)%nat by lia.
      + replace (S n) with (S n `min` S (n + 4))%nat by lia.
        rewrite <- take_take, Htake, Hx1. by rewrite take_app_length'.
      + rewrite <- (take_drop (S (n + 4)) (st_train_x s2)), Htake, Hx1.
        rewrite drop_app3_length' by done.
        apply Forall_app. split; [done|exact Hdrop].
      + rewrite Hc2, Hc, qc_of_nat_S. ring.
      + done.
      + intros k [= <-]. destruct i as [|i].
        * rewrite (H0 eq_refl). rewrite Hm. do 2 f_equal.
          all: rewrite ?Hx1, ?Hy1, Nat.mul_0_r, Nat.add_0_r.
          all: by rewrite take_app_length'.
        * rewrite (HS i eq_refl).
          by replace (S n + 4 * S i)%nat with (S (n + 4) + 4 * i)%nat by lia. }
  destruct (Hloop i (initial_state data model) w 15%nat) as (s & w' & Hrun & Hs & Ht & Hd & Hc & H0 & HS).
  { done. }
  exists s, w'. split_and!; [done|done|done|done| | |done].
  - rewrite Hc. change (st_cumulative_cost (initial_state data model)) with 0%Qc. ring.
  - intros ->. by rewrite (H0 eq_refl).
Qed.


(** Iterations of the MFKG loop: each costs between 3 and 5. *)
Lemma mfkg_iterations_cost (environ : gmap string string) (i : nat) (s : loop_state)
    (n : nat) (w : world) :
  well_shaped n s ->
  exists s' w',
    returns (botorch noise pick objective) (for_range i (mfkg_iteration environ) s) w s' w'
    /\ well_shaped (n + 4 * i) s'
    /\ (st_cumulative_cost s + dec 3 1 * qc_of_nat i <= st_cumulative_cost s')%Qc
    /\ (st_cumulative_cost s' <= st_cumulative_cost s + dec 5 1 * qc_of_nat i)%Qc
    /\ (i = 0%nat -> s' = s)
    /\ (forall k, i = S k ->
          st_model s' = Some {| train_X := take (n + 4 * k) (st_train_x s');
                                train_Y := take (n + 4 * k) (st_train_obj s');
                                outcome_transform := {| standardize_m := 1 |};
                                data_fidelities := [6%nat] |}).
Proof.
  revert s n w. induction i as [|i IH]; intros s n w Hs.
  - exists s, w. change (qc_of_nat 0) with 0%Qc. rewrite !Qcmult_0_r, !Qcplus_0_r.
    split_and!; [apply returns_ret|by rewrite Nat.mul_0_r, Nat.add_0_r| | |done|done];
      apply Qcle_refl.
  - pose proof Hs as ([Hlx Hwx] & [Hly Hwy] & _).
    destruct (mfkg_iteration_returns noise pick objective environ s n w Hs)
      as (s1 & nx & ny & w1 & Hit & Hx1 & Hy1 & Hnx & Hny & Hm & Hc & Hs1).
    assert (Forall (fun x => fidelity x ∈ fidelities) nx) as Hfx.
    { destruct Hs1 as (_ & _ & Hf). rewrite Hx1 in Hf. by apply Forall_app in Hf as [_ Hf]. }
    destruct (batch_cost_bounds nx (proj1 Hnx) Hfx) as [Hlo Hhi].
    destruct (IH s1 (n + 4)%nat w1 Hs1) as (s2 & w2 & Hrest & Hs2 & Hlo2 & Hhi2 & H0 & HS).
    exists s2, w2. split_and!.
    + cbn [for_range]. unfold mbind, prog_bind.
      eapply returns_bind; [exact Hit|exact Hrest].
    + by replace (n + 4 * S i)%nat with (n + 4 + 4 * i)%nat by lia.
    + eapply Qcle_trans; [|exact Hlo2]. rewrite Hc, qc_of_nat_S.
      replace (st_cumulative_cost s + dec 3 1 * (1 + qc_of_nat i))%Qc
        with ((st_cumulative_cost s + dec 3 1) + dec 3 1 * qc_of_nat i)%Qc by ring.
      apply Qcplus_le_compat; [|apply Qcle_refl].
      apply Qcplus_le_compat; [apply Qcle_refl|exact Hlo].
    + eapply Qcle_trans; [exact Hhi2|]. rewrite Hc, qc_of_nat_S.
      replace (st_cumulative_cost s + dec 5 1 * (1 + qc_of_nat i))%Qc
        with ((st_cumulative_cost s + dec 5 1) + dec 5 1 * qc_of_nat i)%Qc by ring.
      apply Qcplus_le_compat; [|apply Qcle_refl].
      apply Qcplus_le_compat; [apply Qcle_refl|exact Hhi].
    + done.
    + intros k [= <-]. destruct i as [|i].
      * rewrite (H0 eq_refl). rewrite Hm. do 2 f_equal.
        all: rewrite ?Hx1, ?Hy1, Nat.mul_0_r, Nat.add_0_r.
        all: by rewrite take_app_length'.
      * rewrite (HS i eq_refl).
        by replace (n + 4 * S i)%nat with (n + 4 + 4 * i)%nat by lia.
Qed.

(** The recommendation cell, once a model is bound. *)
Lemma recommend_returns (s : loop_state) (m : model_obj) (w : world) :
  st_model s = Some m ->
  exists x w',
    returns (botorch noise pick objective) (recommend s) w [(x ++ [dec 1 1])%list] w'
    /\ length x = 6%nat.
Proof.
  intros Hm.
  destruct (get_recommendation_returns noise pick objective m w) as (x & w1 & Hrec & Hx).
  exists x. eexists. split; [|done].
  unfold recommend. rewrite Hm. unfold mbind, prog_bind, mret, prog_ret.
  eapply returns_bind; [exact Hrec|]. cbv beta iota.
  answer I. apply returns_ret.
Qed.

Lemma N_ITER_positive (environ : gmap string string) : exists k, N_ITER environ = S k.
Proof. unfold N_ITER. destruct (py_not _); eauto. Qed.


(** X16 -- the EI baseline pays the full price: its loop returns, every
    candidate it adds is at fidelity 1, each iteration costs 5 (four points
    at 0.25 + 1), and the total is 5 N_ITER -- 15 when SMOKE_TEST is unset,
    the total the notebook's recorded output shows. *)
Theorem ei_loop_costs_five_per_iteration (environ : gmap string string)
    (model : option model_obj) (w : world) :
  exists s w',
    returns (botorch noise pick objective) (ei_loop environ model) w s w'
    /\ has_shape (16 + 4 * N_ITER environ) 7 (st_train_x s)
    /\ has_shape (16 + 4 * N_ITER environ) 1 (st_train_obj s)
    /\ Forall (fun x => fidelity x = dec 1 1) (drop 16 (st_train_x s))
    /\ st_cumulative_cost s = (dec 5 1 * qc_of_nat (N_ITER environ))%Qc
    /\ (environ !! "SMOKE_TEST" = None -> st_cumulative_cost s = dec 15 1).
Proof.
  destruct (generate_initial_data_returns noise pick objective 16 w)
    as (tx & ty & w0 & Hgen & Hx & Hy & Hf).
  destruct (ei_run_returns (N_ITER environ) (tx, ty) model w0 Hx Hy Hf)
    as (s & w' & Hrun & (Hsx & Hsy & _) & _ & Hdrop & Hcost & _).
  exists s, w'. split_and!; [|done|done|done|done|].
  - unfold ei_loop, mbind, prog_bind. eapply returns_bind; [exact Hgen|exact Hrun].
  - intros Hnone. rewrite Hcost. unfold N_ITER, SMOKE_TEST. rewrite Hnone.
    apply Qc_is_canon. by vm_compute.
Qed.

(** X17 -- the MFKG loop returns, and its total cost lies between 3 N_ITER
    and 5 N_ITER: every iteration adds four points, each at a cost between
    0.75 and 1.25, so the loop never costs more than the EI baseline. *)
Theorem mfkg_loop_cost_bounds (environ : gmap string string) (w : world) :
  exists s w',
    returns (botorch noise pick objective) (mfkg_loop environ) w s w'
    /\ (dec 3 1 * qc_of_nat (N_ITER environ) <= st_cumulative_cost s)%Qc
    /\ (st_cumulative_cost s <= dec 5 1 * qc_of_nat (N_ITER environ))%Qc.
Proof.
  destruct (generate_initial_data_returns noise pick objective 16 w)
    as (tx & ty & w0 & Hgen & Hx & Hy & Hf).
  destruct (mfkg_iterations_cost environ (N_ITER environ) (initial_state (tx, ty) None)
              16 w0) as (s & w' & Hrun & _ & Hlo & Hhi & _); [done|].
  change (st_cumulative_cost (initial_state (tx, ty) None)) with 0%Qc in Hlo, Hhi.
  rewrite Qcplus_0_l in Hlo, Hhi.
  exists s, w'. split_and!; [|done|done].
  unfold mfkg_loop, mfkg_run, mbind, prog_bind.
  eapply returns_bind; [exact Hgen|exact Hrun].
Qed.

(** X18 -- the model the recommendation is computed from has not seen the
    last batch: after the MFKG loop, and after the EI loop, the bound model
    was built on all rows of the training data but the last four. *)
Theorem recommendation_model_misses_last_batch (environ : gmap string string)
    (model : option model_obj) (w : world) :
  (exists s w' m,
     returns (botorch noise pick objective) (mfkg_loop environ) w s w'
     /\ st_model s = Some m
     /\ length (st_train_x s) = (16 + 4 * N_ITER environ)%nat
     /\ train_X m = take (length (st_train_x s) - 4) (st_train_x s)
     /\ train_Y m = take (length (st_train_obj s) - 4) (st_train_obj s))
  /\ (exists s w' m,
        returns (botorch noise pick objective) (ei_loop environ model) w s w'
        /\ st_model s = Some m
        /\ length (st_train_x s) = (16 + 4 * N_ITER environ)%nat
        /\ train_X m = take (length (st_train_x s) - 4) (st_train_x s)
        /\ train_Y m = take (length (st_train_obj s) - 4) (st_train_obj s)).
Proof.
  destruct (N_ITER_positive environ) as [k Hk].
  destruct (generate_initial_data_returns noise pick objective 16 w)
    as (tx & ty & w0 & Hgen & Hx & Hy & Hf).
  split.
  - destruct (mfkg_iterations_cost environ (N_ITER environ) (initial_state (tx, ty) None)
                16 w0) as (s & w' & Hrun & ([Hlx _] & [Hly _] & _) & _ & _ & _ & HS); [done|].
    eexists s, w', _. split_and!; [|exact (HS k Hk)|done| |].
    + unfold mfkg_loop, mfkg_run, mbind, prog_bind.
      eapply returns_bind; [exact Hgen|exact Hrun].
    + cbn [train_X]. f_equal. lia.
    + cbn [train_Y]. f_equal. lia.
  - destruct (ei_run_returns (N_ITER environ) (tx, ty) model w0 Hx Hy Hf)
      as (s & w' & Hrun & ([Hlx _] & [Hly _] & _) & _ & _ & _ & _ & HS).
    eexists s, w', _. split_and!; [|exact (HS k Hk)|done| |].
    + unfold ei_loop, mbind, prog_bind. eapply returns_bind; [exact Hgen|exact Hrun].
    + cbn [train_X]. f_equal. lia.
    + cbn [train_Y]. f_equal. lia.
Qed.

(** X19 -- the notebook runs to its end against the modelled library: both
    loops and both recommendation cells return, the name [model] is bound
    when [get_recommendation] is called, and each recommendation is one point
    of seven columns at the target fidelity 1. *)
Theorem notebook_returns (environ : gmap string string) (w : world) :
  exists x1 x2 w',
    returns (botorch noise pick objective) (notebook environ) w ([x1], [x2]) w'
    /\ length x1 = 7%nat /\ fidelity x1 = dec 1 1
    /\ length x2 = 7%nat /\ fidelity x2 = dec 1 1.
Proof.
  destruct (N_ITER_positive environ) as [k Hk].
  destruct (generate_initial_data_returns noise pick objective 16 w)
    as (tx & ty & w0 & Hgen & Hx & Hy & Hf).
  destruct (mfkg_iterations_cost environ (N_ITER environ) (initial_state (tx, ty) None)
              16 w0) as (s1 & w1 & Hrun1 & _ & _ & _ & _ & HS1); [done|].
  destruct (recommend_returns s1 _ w1 (HS1 k Hk)) as (r1 & w2 & Hrec1 & Hr1).
  destruct (generate_initial_data_returns noise pick objective 16 w2)
    as (tx' & ty' & w3 & Hgen' & Hx' & Hy' & Hf').
  destruct (ei_run_returns (N_ITER environ) (tx', ty') (st_model s1) w3 Hx' Hy' Hf')
    as (s2 & w4 & Hrun2 & _ & _ & _ & _ & _ & HS2).
  destruct (recommend_returns s2 _ w4 (HS2 k Hk)) as (r2 & w5 & Hrec2 & Hr2).
  exists (r1 ++ [dec 1 1])%list, (r2 ++ [dec 1 1])%list, w5. split_and!.
  - unfold notebook, mbind, prog_bind, mret, prog_ret.
    eapply returns_bind.
    { unfold mfkg_loop, mfkg_run, mbind, prog_bind.
      eapply returns_bind; [exact Hgen|exact Hrun1]. }
    eapply returns_bind; [exact Hrec1|].
    eapply returns_bind.
    { unfold ei_loop, mbind, prog_bind. eapply returns_bind; [exact Hgen'|exact Hrun2]. }
    eapply returns_bind; [exact Hrec2|]. apply returns_ret.
  - rewrite length_app, Hr1. reflexivity.
  - by apply fidelity_snoc.
  - rewrite length_app, Hr2. reflexivity.
  - by apply fidelity_snoc.
Qed.

End Model.

End BaselineFacts.

(** ** The minimum versions of Test against stable *)

Module MinReqFacts.
Import Shell ShellFacts MinReq.

Lemma keep_version_chars_version (v : string) :
  version_text v = true -> keep_version_chars v = v.
Proof.
  induction v as [|c v IH]; [done|]. cbn [version_text keep_version_chars].
  intros [Hc Hv]%andb_true_iff. rewrite Hc. by rewrite IH.
Qed.

Lemma is_word_not_dot (c : ascii) :
  is_word_char c = true -> Ascii.eqb c "." = false.
Proof.
  intros Hw. destruct (Ascii.eqb_spec c ".") as [->|]; [|done]. by vm_compute in Hw.
Qed.

Lemma keep_version_chars_name (name rest : string) :
  name_text name = true -> keep_version_chars (name ++ rest) = keep_version_chars rest.
Proof.
  induction name as [|c name IH]; [done|].
  change (String c name ++ rest) with (String c (name ++ rest)).
  cbn [name_text keep_version_chars].
  intros [[Hw Hd]%andb_true_iff Hn]%andb_true_iff.
  apply negb_true_iff in Hd. rewrite Hd, (is_word_not_dot c Hw). cbn [orb]. by apply IH.
Qed.

(** What sed leaves of a requirement line: the version. *)
Lemma keep_version_chars_requirement (name v : string) (op : ascii) :
  name_text name = true -> version_text v = true ->
  op = ">"%char \/ op = "="%char ->
  keep_version_chars (name ++ String op (String "=" v)) = v.
Proof.
  intros Hn Hv Hop. rewrite keep_version_chars_name by done.
  destruct Hop as [-> | ->]; cbn [keep_version_chars];
    change (is_digit ">" || Ascii.eqb ">" ".") with false;
    change (is_digit "=" || Ascii.eqb "=" ".") with false; cbn match;
    by apply keep_version_chars_version.
Qed.

Lemma starts_with_self (p rest : string) : starts_with p (p ++ rest) = true.
Proof.
  induction p as [|c p IH]; [done|].
  change (String c p ++ rest) with (String c (p ++ rest)). cbn [starts_with].
  by rewrite Ascii.eqb_refl.
Qed.

Lemma skip_self (p rest : string) : skip (String.length p) (p ++ rest) = rest.
Proof.
  induction p as [|c p IH]; [done|].
  change (String c p ++ rest) with (String c (p ++ rest)). cbn [String.length skip]. done.
Qed.

(** grep selects the requirement line of the package itself. *)
Lemma grep_requirement_own (c : ascii) (name v : string) (op : ascii) :
  is_word_char c = true -> op = ">"%char \/ op = "="%char ->
  grep_requirement (String c name) (String c name ++ String op (String "=" v)) = true.
Proof.
  intros Hc Hop. unfold grep_requirement.
  change (String c name ++ String op (String "=" v))
    with (String c (name ++ String op (String "=" v))).
  cbn [grep_from]. apply orb_true_iff. left.
  unfold match_requirement_here. cbn [next_is_word]. rewrite Hc. cbn [xorb andb].
  change (String c (name ++ String op (String "=" v)))
    with (String c name ++ String op (String "=" v)).
  rewrite starts_with_self, skip_self. cbn [andb].
  destruct Hop as [-> | ->]; reflexivity.
Qed.


(** No match starts inside a word: after a word constituent, a run of word
    constituents is passed over. *)
Lemma grep_from_inside_word (name u tail : string) :
  word_text u = true -> grep_from name true (u ++ tail) = grep_from name true tail.
Proof.
  induction u as [|c u IH]; [done|].
  change (String c u ++ tail) with (String c (u ++ tail)). cbn [word_text grep_from].
  intros [Hw Hu]%andb_true_iff.
  unfold match_requirement_here at 1. cbn [next_is_word]. rewrite Hw. cbn [xorb andb orb].
  by apply IH.
Qed.

Lemma version_text_skip (n : nat) (v : string) :
  version_text v = true -> version_text (skip n v) = true.
Proof.
  revert v. induction n as [|n IH]; intros v Hv; [done|].
  destruct v as [|c v]; [done|]. cbn [skip]. apply IH.
  cbn [version_text] in Hv. by apply andb_true_iff in Hv as [_ ?].
Qed.

(** A version number holds no match for a name: the operator is missing. *)
Lemma grep_from_version (name v : string) (b : bool) :
  version_text v = true -> grep_from name b v = false.
Proof.
  assert (forall b v, version_text v = true -> match_requirement_here name b v = false) as Hm.
  { intros b' v' Hv. unfold match_requirement_here.
    pose proof (version_text_skip (String.length name) v' Hv) as Hs.
    destruct (skip (String.length name) v') as [|c [|d r]]; try apply andb_false_r.
    cbn [version_text] in Hs.
    apply andb_true_iff in Hs as [_ [Hd _]%andb_true_iff].
    destruct d as [[] [] [] [] [] [] [] []]; try apply andb_false_r.
    by vm_compute in Hd. }
  revert b. induction v as [|x v IH]; intros b Hv.
  - cbn [grep_from]. by rewrite Hm.
  - cbn [grep_from]. rewrite Hm by done.
    cbn [version_text] in Hv. apply andb_true_iff in Hv as [_ Hv]. by rewrite IH.
Qed.

Lemma word_text_app (a b : string) :
  word_text a = true -> word_text b = true -> word_text (a ++ b) = true.
Proof.
  intros Ha Hb. induction a as [|c a IH]; [done|].
  change (String c a ++ b) with (String c (a ++ b)). cbn [word_text] in *.
  apply andb_true_iff in Ha as [Hc Ha]. rewrite Hc. by apply IH.
Qed.

(** After a name that is a proper prefix of a longer word comes a word
    constituent. *)
Lemma skip_inside_word (n : nat) (u tail : string) :
  word_text u = true -> (n < String.length u)%nat ->
  exists c r, skip n (u ++ tail) = String c r /\ is_word_char c = true.
Proof.
  revert u. induction n as [|n IH]; intros u Hu Hlen.
  - destruct u as [|c u]; [cbn in Hlen; lia|].
    cbn [word_text] in Hu. apply andb_true_iff in Hu as [Hw _].
    exists c, (u ++ tail). done.
  - destruct u as [|c u]; [cbn in Hlen; lia|].
    cbn [word_text] in Hu. apply andb_true_iff in Hu as [_ Hu].
    change (String c u ++ tail) with (String c (u ++ tail)). cbn [skip].
    apply IH; [done|]. cbn [String.length] in Hlen. lia.
Qed.

Lemma length_append (a b : string) :
  String.length (a ++ b) = (String.length a + String.length b)%nat.
Proof.
  induction a as [|c a IH]; [done|].
  change (String c a ++ b) with (String c (a ++ b)). cbn [String.length]. by rewrite IH.
Qed.

Lemma word_not_operator (c : ascii) :
  is_word_char c = true -> Ascii.eqb c ">" || Ascii.eqb c "=" = false.
Proof.
  intros Hw. destruct (Ascii.eqb_spec c ">") as [->|_]; [by vm_compute in Hw|].
  destruct (Ascii.eqb_spec c "=") as [->|_]; [by vm_compute in Hw|]. done.
Qed.

(** X20 -- the word boundary of the pattern keeps the requirement of a
    package whose name only ends with the pattern's name out: for a name
    and a prefix of word constituents (letters, digits, underscores), both
    non-empty, the pattern of the name does not select the requirement line
    of prefix-then-name; the pattern of torch does not select the line of
    gpytorch. *)
Theorem pattern_needs_word_boundary (prefix name v : string) (p n op : ascii) :
  word_text (String p prefix) = true -> word_text (String n name) = true ->
  version_text v = true -> op = ">"%char \/ op = "="%char ->
  grep_requirement (String n name)
    (String p prefix ++ String n name ++ String op (String "=" v)) = false.
Proof.
  intros Hp Hn Hv Hop. unfold grep_requirement.
  set (tail := String op (String "=" v)).
  assert (is_word_char n = true) as Hnw.
  { cbn [word_text] in Hn. by apply andb_true_iff in Hn as [? _]. }
  assert (is_word_char p = true /\ word_text prefix = true) as [Hpw Hprefix].
  { cbn [word_text] in Hp. by apply andb_true_iff in Hp as [? ?]. }
  change (String p prefix ++ String n name ++ tail)
    with (String p (prefix ++ String n name ++ tail)).
  cbn [grep_from]. apply orb_false_iff. split.
  - unfold match_requirement_here.
    change (String p (prefix ++ String n name ++ tail))
      with (String p prefix ++ String n name ++ tail).
    rewrite <- append_assoc.
    destruct (skip_inside_word (String.length (String n name))
                (String p prefix ++ String n name) tail) as (c & r & -> & Hc).
    { by apply word_text_app. }
    { rewrite length_append. cbn [String.length]. lia. }
    rewrite (word_not_operator c Hc).
    replace (match r with String "=" _ => false | _ => false end) with false
      by (by destruct r as [|[[] [] [] [] [] [] [] []] r]).
    apply andb_false_r.
  - rewrite Hpw. rewrite <- append_assoc.
    rewrite grep_from_inside_word by (by apply word_text_app).
    unfold tail. cbn [grep_from]. apply orb_false_iff. split.
    + unfold match_requirement_here. cbn [starts_with].
      destruct (Ascii.eqb_spec n op) as [->|_]; [|by rewrite andb_false_r].
      destruct Hop as [-> | ->]; by vm_compute in Hnw.
    + replace (is_word_char op) with false by (destruct Hop as [-> | ->]; reflexivity).
      apply orb_false_iff. split.
      * unfold match_requirement_here. cbn [next_is_word starts_with].
        change (is_word_char "=") with false. done.
      * change (is_word_char "=") with false. by apply grep_from_version.
Qed.

Lemma pattern_needs_word_boundary_witness :
  grep_requirement "torch" "py3torch>=1.14" = false.
Proof.
  apply (pattern_needs_word_boundary "y3" "orch" "1.14" "p" "t" ">"); try reflexivity.
  by left.
Defined.

Lemma filter_none {A : Type} (f : A -> bool) (l : list A) :
  Forall (fun x => f x = false) l -> filter (fun x => f x = true) l = [].
Proof.
  induction 1 as [|x l Hx _ IH]; [done|].
  rewrite filter_cons. destruct (decide (f x = true)) as [Ht|_]; [congruence|done].
Qed.

(** The value of the substitution when one line is selected. *)
Lemma min_version_only (c : ascii) (name v : string) (requires_txt : list string) :
  name_text (String c name) = true -> version_text v = true ->
  only_requirement (String c name) v requires_txt ->
  min_version (String c name) requires_txt = v.
Proof.
  intros Hn Hv (pre & post & op & -> & Hop & Hnone).
  apply Forall_app in Hnone as [Hpre Hpost].
  unfold min_version. rewrite filter_app, filter_cons.
  rewrite (filter_none _ _ Hpre), (filter_none _ _ Hpost).
  assert (is_word_char c = true) as Hc.
  { cbn [name_text] in Hn. by apply andb_true_iff in Hn as [[? _]%andb_true_iff _]. }
  rewrite (grep_requirement_own c name v op Hc Hop).
  destruct (decide (true = true)); [|done].
  cbn [app map String.concat]. by apply keep_version_chars_requirement.
Qed.

(** X21 -- the minimum versions the step installs: when the requirements
    file holds, for each of torch, gpytorch and linear_operator, one line its
    pattern selects, the requirement with version t, g or l, the step asks
    for gpytorch==g and linear_operator==l, and for torch==t except on
    Python 3.13, where it asks for torch==2.6.0. *)
Theorem min_req_arguments_versions (python_3_13 : bool) (requires_txt : list string)
    (t g l : string) :
  version_text t = true -> version_text g = true -> version_text l = true ->
  only_requirement "torch" t requires_txt ->
  only_requirement "gpytorch" g requires_txt ->
  only_requirement "linear_operator" l requires_txt ->
  min_req_arguments python_3_13 requires_txt
  = [ "torch==" ++ (if python_3_13 then "2.6.0" else t);
      "gpytorch==" ++ g;
      "linear_operator==" ++ l ].
Proof.
  intros Ht Hg Hl Hrt Hrg Hrl. unfold min_req_arguments.
  rewrite (min_version_only "t" "orch" t requires_txt eq_refl Ht Hrt).
  rewrite (min_version_only "g" "pytorch" g requires_txt eq_refl Hg Hrg).
  rewrite (min_version_only "l" "inear_operator" l requires_txt eq_refl Hl Hrl).
  done.
Qed.

Lemma min_req_arguments_versions_witness :
  min_req_arguments true ["gpytorch>=1.14"; "linear_operator>=0.6"; "torch>=2.0.1"; "scipy"]
  = ["torch==2.6.0"; "gpytorch==1.14"; "linear_operator==0.6"].
Proof.
  apply (min_req_arguments_versions true _ "2.0.1" "1.14" "0.6"); try reflexivity.
  - exists ["gpytorch>=1.14"; "linear_operator>=0.6"], ["scipy"], ">"%char.
    split_and!; [reflexivity|by left|]. repeat constructor.
  - exists [], ["linear_operator>=0.6"; "torch>=2.0.1"; "scipy"], ">"%char.
    split_and!; [reflexivity|by left|]. repeat constructor.
  - exists ["gpytorch>=1.14"], ["torch>=2.0.1"; "scipy"], ">"%char.
    split_and!; [reflexivity|by left|]. repeat constructor.
Defined.

End MinReqFacts.

(** ** The workflow files without the version check and the dry run *)

Module GithubWorkflowFacts.
Import Shell Actions ActionsFacts TraceFacts Workflows WorkflowFacts.

Section Runs.
Variable r : runner.
Variable inputs : gmap string value.

(** X22 -- in the workflow file without the version check, every release
    whose package job succeeds goes on to the website job, a patch release
    included: the website job is skipped exactly when the package job did
    not succeed, and it concludes as the called workflow does. *)
Theorem every_release_publishes_website :
  let st := run_workflow r inputs GithubWorkflows.deploy_on_release in
  (results st !! "package-deploy-pypi" = Some Success ->
     results st !! "version-and-publish-website"
     = Some (if exec_call r "version-and-publish-website" then Success else Failure))
  /\ (results st !! "package-deploy-pypi" ≠ Some Success ->
        results st !! "version-and-publish-website" = Some Skipped).
Proof.
  set (st2 := run_job r inputs (run_job r inputs init_state tests_and_coverage)
                package_deploy_pypi).
  change (run_workflow r inputs GithubWorkflows.deploy_on_release)
    with (run_job r inputs st2 GithubWorkflows.version_and_publish_website).
  cbv zeta.
  rewrite (run_job_other r inputs st2 GithubWorkflows.version_and_publish_website
             "package-deploy-pypi") by done.
  unfold run_job.
  cbn [needs_succeeded job_needs GithubWorkflows.version_and_publish_website forallb
       job_if cond_holds job_body job_id].
  rewrite !andb_true_r. split; intros Hpkg.
  - rewrite bool_decide_eq_true_2 by done. cbn [results]. by rewrite lookup_insert_eq.
  - rewrite bool_decide_eq_false_2 by done. cbn [results]. by rewrite lookup_insert_eq.
Qed.

(** X23 -- in the workflow file without the dry run, a run in which every
    step succeeds: without [new_version] the latest GPyTorch is installed and
    no version is created; with it the version is created and pushed; in both
    cases the site is built, uploaded and deployed. *)
Theorem publish_website_always_deploys :
  (forall j i, sr_ok (exec_step r j i) = true) ->
  let versioned := truthy (default VNull (inputs !! "new_version")) in
  trace (run_workflow r inputs GithubWorkflows.publish_website)
  = (map (fun n => StepRun "build-website" n true)
       ([ "actions/checkout@v4"; "Install uv"; "Sync release branch with main";
          "Set up Python" ]
        ++ (if versioned then [] else ["Install latest GPyTorch and Linear Operator"])
        ++ ["Install dependencies"]
        ++ (if versioned then ["Create new docusaurus version"] else [])
        ++ ["Build website"; "Upload website build as artifact"])
     ++ [ JobDone "build-website" Success;
          StepRun "deploy-website" "Deploy to GitHub Pages" true;
          JobDone "deploy-website" Success ])%list.
Proof.
  intros Hg versioned. subst versioned.
  change (run_workflow r inputs GithubWorkflows.publish_website)
    with (run_job r inputs (run_job r inputs init_state GithubWorkflows.build_website)
            GithubWorkflows.deploy_website).
  destruct (PublishFacts.run_job_green r inputs init_state GithubWorkflows.build_website
              (steps_of GithubWorkflows.build_website) eq_refl eq_refl eq_refl
              (Hg "build-website")) as [Htr Hres].
  set (st1 := run_job r inputs init_state GithubWorkflows.build_website) in *.
  cbn [steps_of job_body GithubWorkflows.build_website List.filter cond_holds step_if
       plain_step eval ctx_inputs truthy trace init_state job_id] in Htr.
  destruct (PublishFacts.run_job_green r inputs st1 GithubWorkflows.deploy_website
              (steps_of GithubWorkflows.deploy_website) eq_refl) as [Htr2 _].
  - cbn [needs_succeeded job_needs GithubWorkflows.deploy_website forallb]. rewrite Hres.
    change (job_id GithubWorkflows.build_website) with "build-website".
    rewrite lookup_insert_eq. by rewrite bool_decide_eq_true_2.
  - done.
  - exact (Hg "deploy-website").
  - rewrite Htr2, Htr.
    cbn [steps_of job_body GithubWorkflows.deploy_website List.filter cond_holds step_if
         map step_name job_id].
    destruct (truthy (default VNull (inputs !! "new_version"))) eqn:Hnv;
      cbn [negb truthy]; rewrite ?Hnv; reflexivity.
Qed.

End Runs.

Lemma publish_website_always_deploys_witness :
  let r := {| exec_step := fun _ _ => {| sr_ok := true; sr_outputs := [] |};
              exec_call := fun _ => true |} in
  let inputs : gmap string value := <["new_version" := VStr "v0.13.0"]> ∅ in
  trace (run_workflow r inputs GithubWorkflows.publish_website)
  = (map (fun n => StepRun "build-website" n true)
       [ "actions/checkout@v4"; "Install uv"; "Sync release branch with main";
         "Set up Python"; "Install dependencies"; "Create new docusaurus version";
         "Build website"; "Upload website build as artifact" ]
     ++ [ JobDone "build-website" Success;
          StepRun "deploy-website" "Deploy to GitHub Pages" true;
          JobDone "deploy-website" Success ])%list.
Proof.
  intros r inputs. exact (publish_website_always_deploys r inputs (fun _ _ => eq_refl)).
Defined.

End GithubWorkflowFacts.
